(** * Docker YAML Editor: the document engine, embedded in Rocq

    A shallow embedding of [docker-yaml-editor.js]: the bundled YAML parser
    ([YamlParser]), the Docker Compose schema ([DockerComposeSchema]), the
    validator ([DockerComposeValidator]), the completion engine
    ([AutocompleteEngine]), the syntax tokenizer ([YamlTokenizer]) and the
    validation step of the editor ([DockerYamlEditor]), followed by the
    properties proved about them.

    Conventions of the embedding.
    - A JavaScript string is a sequence of UTF-16 code units; the embedding
      covers the code units below 256 and writes them as [ascii], so a
      string is a [string] of the Standard Library.
    - A run of the program that throws is [Throws]; a run that leaves the
      part of JavaScript the embedding describes (prototype mutation through
      the key [__proto__], writes to the index, [length] or [push] slots of
      an array, the text of a number the embedding keeps symbolic) is
      [Unmodelled].  Everything else is computed as the source does. *)

From Stdlib Require Import Strings.String Strings.Ascii Lists.List.
From Stdlib Require Import ZArith.ZArith Bool.Bool Arith.PeanoNat micromega.Lia.
From Stdlib Require Import Numbers.DecimalString Numbers.DecimalNat.
From Stdlib Require Import Sorting.Permutation Sorting.Sorted.
Import ListNotations.

Set Warnings "-register-all".

Open Scope list_scope.
Open Scope string_scope.

(** ** Outcomes of a run *)

Inductive outcome (A : Type) : Type :=
| Ok (a : A)
| Throws
| Unmodelled.

Arguments Ok {A} a.
Arguments Throws {A}.
Arguments Unmodelled {A}.

Definition bind {A B : Type} (c : outcome A) (k : A -> outcome B) : outcome B :=
  match c with
  | Ok a => k a
  | Throws => Throws
  | Unmodelled => Unmodelled
  end.

Notation "x <- c ;; k" := (bind c (fun x => k))
  (at level 61, c at next level, right associativity).

(** ** Strings as JavaScript has them *)

Module JsString.

(** The double quote, kept out of string literals. *)
Definition dq : string := String (ascii_of_nat 34) EmptyString.
Definition tab_char : ascii := ascii_of_nat 9.
Definition newline : ascii := ascii_of_nat 10.

(** WhiteSpace and LineTerminator code units below 256: what [trim] strips
    and what the regular expression class [\s] matches. *)
Definition is_ws (c : ascii) : bool :=
  let n := nat_of_ascii c in
  (Nat.leb 9 n && Nat.leb n 13) || Nat.eqb n 32 || Nat.eqb n 160.

Definition is_digit (c : ascii) : bool :=
  let n := nat_of_ascii c in Nat.leb 48 n && Nat.leb n 57.

Fixpoint trimStart (s : string) : string :=
  match s with
  | EmptyString => EmptyString
  | String c t => if is_ws c then trimStart t else s
  end.

Fixpoint trimEnd (s : string) : string :=
  match s with
  | EmptyString => EmptyString
  | String c t =>
      match trimEnd t with
      | EmptyString => if is_ws c then EmptyString else String c EmptyString
      | t' => String c t'
      end
  end.

(** [s.trim()] *)
Definition trim (s : string) : string := trimEnd (trimStart s).

Fixpoint leading_ws (s : string) : nat :=
  match s with
  | EmptyString => 0
  | String c t => if is_ws c then S (leading_ws t) else 0
  end.

(** [s.search(/\S/)]: the index of the first code unit that is not white
    space, [-1] when there is none. *)
Definition search_nonws (s : string) : Z :=
  if Nat.eqb (leading_ws s) (String.length s) then (-1)%Z
  else Z.of_nat (leading_ws s).

(** [s.startsWith(p)] *)
Fixpoint startsWith (s p : string) {struct p} : bool :=
  match p with
  | EmptyString => true
  | String a p' =>
      match s with
      | EmptyString => false
      | String b s' => Ascii.eqb b a && startsWith s' p'
      end
  end.

Fixpoint drop (n : nat) (s : string) : string :=
  match n, s with
  | O, _ => s
  | S n', String _ t => drop n' t
  | S _, EmptyString => EmptyString
  end.

Fixpoint take (n : nat) (s : string) : string :=
  match n, s with
  | S n', String c t => String c (take n' t)
  | _, _ => EmptyString
  end.

(** [s.endsWith(p)] *)
Definition endsWith (s p : string) : bool :=
  Nat.leb (String.length p) (String.length s)
  && String.eqb (drop (String.length s - String.length p) s) p.

(** [s.indexOf(sub)], counted from [i]; [None] stands for [-1]. *)
Fixpoint indexOf_from (sub s : string) (i : nat) : option nat :=
  if startsWith s sub then Some i
  else match s with
       | EmptyString => None
       | String _ t => indexOf_from sub t (S i)
       end.

Definition indexOf (s sub : string) : option nat := indexOf_from sub s 0.

(** [s.includes(sub)] *)
Definition includes (s sub : string) : bool :=
  match indexOf s sub with Some _ => true | None => false end.

(** [s.slice(1, -1)] *)
Definition slice_1_m1 (s : string) : string :=
  take (String.length s - 2) (drop 1 s).

(** [s.slice(0, n)] for an integer [n]: a negative [n] counts from the end. *)
Definition slice_0 (s : string) (n : Z) : string :=
  if (0 <=? n)%Z then take (Z.to_nat n) s
  else take (Z.to_nat (Z.of_nat (String.length s) + n)) s.

(** [s.split(c)] for a one-character separator: never empty. *)
Fixpoint split (c : ascii) (s : string) : list string :=
  match s with
  | EmptyString => [EmptyString]
  | String a t =>
      if Ascii.eqb a c then EmptyString :: split c t
      else match split c t with
           | [] => [String a EmptyString]
           | h :: r => String a h :: r
           end
  end.

(** [s.repeat(n)] *)
Fixpoint repeat (s : string) (n : nat) : string :=
  match n with
  | O => EmptyString
  | S n' => s ++ repeat s n'
  end.

(** [s.replace(/c/g, r)] for a pattern that is a class of single code
    units. *)
Fixpoint replace_all (p : ascii -> bool) (r : string) (s : string) : string :=
  match s with
  | EmptyString => EmptyString
  | String c t => if p c then r ++ replace_all p r t else String c (replace_all p r t)
  end.

(** Simple case mapping on code units below 256: A-Z, and the Latin-1
    capitals 0xC0-0xDE except the multiplication sign 0xD7. *)
Definition lower_char (c : ascii) : ascii :=
  let n := nat_of_ascii c in
  if (Nat.leb 65 n && Nat.leb n 90)
     || (Nat.leb 192 n && Nat.leb n 222 && negb (Nat.eqb n 215))
  then ascii_of_nat (n + 32) else c.

(** [s.toLowerCase()] *)
Fixpoint toLowerCase (s : string) : string :=
  match s with
  | EmptyString => EmptyString
  | String c t => String (lower_char c) (toLowerCase t)
  end.

(** [String(n)] for a natural number and for an integer. *)
Definition of_nat (n : nat) : string := NilEmpty.string_of_uint (Nat.to_uint n).
Definition of_Z (z : Z) : string :=
  match z with
  | Zneg p => "-" ++ of_nat (Pos.to_nat p)
  | _ => of_nat (Z.to_nat z)
  end.

Fixpoint all_chars (p : ascii -> bool) (s : string) : bool :=
  match s with
  | EmptyString => true
  | String c t => p c && all_chars p t
  end.

(** The value of a run of decimal digits, read left to right. *)
Fixpoint digits_value (acc : Z) (s : string) : Z :=
  match s with
  | EmptyString => acc
  | String c t => digits_value (10 * acc + Z.of_nat (nat_of_ascii c - 48)) t
  end.

Definition mem (s : string) (l : list string) : bool :=
  existsb (String.eqb s) l.

End JsString.

Import JsString.

(** ** Values of the parsed tree *)

(** A number is the double read from a literal.  [NInt z] is an integer of
    magnitude at most 2^53, which a double holds exactly; [NLit s] stands
    for the double that [parseInt] or [parseFloat] returns on the literal
    [s] (a decimal fraction, or an integer beyond 2^53), kept unevaluated. *)
Inductive number : Type :=
| NInt (z : Z)
| NLit (lit : string).

(** A node of the tree: a scalar, an array (its elements, and the named
    properties a [key: value] line inside a list block adds to it), or an
    object (its own properties in the order [Object.keys] lists them). *)
Inductive value : Type :=
| VNull
| VBool (b : bool)
| VNum (n : number)
| VStr (s : string)
| VArr (elems : list value) (props : list (string * value))
| VObj (props : list (string * value)).

Inductive severity_level : Type := SevError | SevWarning.

(** A diagnostic object; an absent field is [None]. *)
Record diagnostic : Type := mkDiag {
  line : nat;
  column : nat;
  message : string;
  severity : option severity_level;
  validValues : option (list string);
  validKeys : option (list string)
}.

Module Js.

Definition nl : string := String newline EmptyString.

Fixpoint assoc {A : Type} (k : string) (l : list (string * A)) : option A :=
  match l with
  | [] => None
  | (k', v) :: t => if String.eqb k k' then Some v else assoc k t
  end.

Definition has_key {A : Type} (k : string) (l : list (string * A)) : bool :=
  match assoc k l with Some _ => true | None => false end.

(** An array index in the sense of the language: the canonical decimal form
    of an integer below 2^32 - 1. *)
Definition is_array_index (k : string) : bool :=
  match k with
  | EmptyString => false
  | String c _ =>
      all_chars is_digit k
      && (String.eqb k "0" || negb (Ascii.eqb c "0"%char))
      && (digits_value 0 k <=? 4294967294)%Z
  end.

Fixpoint replace_assoc {A : Type} (k : string) (v : A) (l : list (string * A))
  : list (string * A) :=
  match l with
  | [] => []
  | (k', v') :: t =>
      if String.eqb k k' then (k', v) :: t else (k', v') :: replace_assoc k v t
  end.

Fixpoint insert_index {A : Type} (k : string) (v : A) (l : list (string * A))
  : list (string * A) :=
  match l with
  | [] => [(k, v)]
  | (k', v') :: t =>
      if is_array_index k' && (digits_value 0 k' <? digits_value 0 k)%Z
      then (k', v') :: insert_index k v t
      else (k, v) :: (k', v') :: t
  end.

(** [o[k] = v] on the own properties of an ordinary object: an existing key
    keeps its place; a new integer key goes among the integer keys, which
    come first in ascending order; any other new key goes last. *)
Definition set_own {A : Type} (k : string) (v : A) (l : list (string * A))
  : list (string * A) :=
  if has_key k l then replace_assoc k v l
  else if is_array_index k then insert_index k v l
  else (l ++ [(k, v)])%list.

Definition isArray (v : value) : bool :=
  match v with VArr _ _ => true | _ => false end.

(** [typeof v === 'object' && v !== null] *)
Definition is_object (v : value) : bool :=
  match v with VArr _ _ | VObj _ => true | _ => false end.

Fixpoint index_entries (i : nat) (l : list value) : list (string * value) :=
  match l with
  | [] => []
  | x :: t => (of_nat i, x) :: index_entries (S i) t
  end.

(** [Object.entries(v)]: own enumerable string-keyed properties. *)
Definition entries (v : value) : list (string * value) :=
  match v with
  | VObj ps => ps
  | VArr es ps => (index_entries 0 es ++ ps)%list
  | VStr s => index_entries 0 (map (fun c => VStr (String c EmptyString)) (list_ascii_of_string s))
  | _ => []
  end.

(** [Object.keys(v)] *)
Definition keys (v : value) : list string := map fst (entries v).

(** [v.k] or [v[k]] for a key that no prototype defines: the own property,
    [None] for [undefined]. *)
Definition get (v : value) (k : string) : option value := assoc k (entries v).

(** Does the double behind a literal differ from zero?  It does when a
    non-zero digit stands in the integer part or among the first 323 digits
    of the fraction; it is zero when every digit is; beyond that the answer
    needs the rounding of the literal and is left open. *)
Definition nonzero_digit (c : ascii) : bool := is_digit c && negb (Ascii.eqb c "0"%char).

Fixpoint any_char (p : ascii -> bool) (s : string) : bool :=
  match s with
  | EmptyString => false
  | String c t => p c || any_char p t
  end.

Definition literal_truthy (lit : string) : outcome bool :=
  match indexOf lit "." with
  | None => Ok (any_char nonzero_digit lit)
  | Some i =>
      if any_char nonzero_digit (take i lit)
         || any_char nonzero_digit (take 323 (drop (S i) lit))
      then Ok true
      else if any_char nonzero_digit lit then Unmodelled else Ok false
  end.

(** ToBoolean *)
Definition truthy (v : value) : outcome bool :=
  match v with
  | VNull => Ok false
  | VBool b => Ok b
  | VNum (NInt z) => Ok (negb (z =? 0)%Z)
  | VNum (NLit s) => literal_truthy s
  | VStr s => Ok (negb (String.eqb s ""))
  | VArr _ _ | VObj _ => Ok true
  end.

(** ToBoolean of a property read: [undefined] is falsy. *)
Definition truthy_opt (v : option value) : outcome bool :=
  match v with
  | None => Ok false
  | Some x => truthy x
  end.

(** [String(v)].  An object prints through the inherited [toString] unless
    an own property of that name (never a function in a parsed tree) hides
    it, in which case the conversion throws. *)
Definition to_String (v : value) : outcome string :=
  match v with
  | VNull => Ok "null"
  | VBool true => Ok "true"
  | VBool false => Ok "false"
  | VNum (NInt z) => Ok (of_Z z)
  | VNum (NLit _) => Unmodelled
  | VStr s => Ok s
  | VObj ps => if has_key "toString" ps then Throws else Ok "[object Object]"
  | VArr _ _ => Unmodelled
  end.

(** Access paths: how a container is reached from the root of the tree. *)
Inductive step : Type :=
| SKey (k : string)
| SIdx (i : nat).

Fixpoint lookup (p : list step) (v : value) : option value :=
  match p with
  | [] => Some v
  | SKey k :: p' =>
      match v with
      | VObj ps | VArr _ ps =>
          match assoc k ps with Some c => lookup p' c | None => None end
      | _ => None
      end
  | SIdx i :: p' =>
      match v with
      | VArr es _ =>
          match nth_error es i with Some c => lookup p' c | None => None end
      | _ => None
      end
  end.

Fixpoint map_assoc {A : Type} (k : string) (f : A -> A) (l : list (string * A))
  : list (string * A) :=
  match l with
  | [] => []
  | (k', v) :: t =>
      if String.eqb k k' then (k', f v) :: t else (k', v) :: map_assoc k f t
  end.

Fixpoint map_nth {A : Type} (i : nat) (f : A -> A) (l : list A) : list A :=
  match l, i with
  | [], _ => []
  | x :: t, O => f x :: t
  | x :: t, S i' => x :: map_nth i' f t
  end.

(** The tree with the container at path [p] replaced by its image under
    [f]. *)
Fixpoint update (p : list step) (f : value -> value) (v : value) : value :=
  match p with
  | [] => f v
  | SKey k :: p' =>
      match v with
      | VObj ps => VObj (map_assoc k (update p' f) ps)
      | VArr es ps => VArr es (map_assoc k (update p' f) ps)
      | _ => v
      end
  | SIdx i :: p' =>
      match v with
      | VArr es ps => VArr (map_nth i (update p' f) es) ps
      | _ => v
      end
  end.

(** [t[k] = v] on a container of the tree. *)
Definition set_prop (t : value) (k : string) (v : value) : outcome value :=
  match t with
  | VObj ps =>
      if String.eqb k "__proto__" then Unmodelled else Ok (VObj (set_own k v ps))
  | VArr es ps =>
      if String.eqb k "__proto__" || String.eqb k "length" || String.eqb k "push"
         || is_array_index k
      then Unmodelled
      else Ok (VArr es (set_own k v ps))
  | _ => Throws
  end.

(** [t.push(x)] *)
Definition push (t : value) (x : value) : value :=
  match t with
  | VArr es ps => VArr (es ++ [x])%list ps
  | _ => t
  end.

Definition array_length (t : value) : nat :=
  match t with
  | VArr es _ => List.length es
  | _ => 0
  end.

End Js.

(** ** The bundled YAML parser *)

Module YamlParser.

Import Js.

(** [parseValue(str)] *)
Definition is_int_literal (s : string) : bool :=
  let body := if startsWith s "-" then drop 1 s else s in
  negb (String.eqb body "") && all_chars is_digit body.

Definition is_decimal_literal (s : string) : bool :=
  let body := if startsWith s "-" then drop 1 s else s in
  match indexOf body "." with
  | None => false
  | Some i =>
      negb (Nat.eqb i 0) && all_chars is_digit (take i body)
      && negb (String.eqb (drop (S i) body) "") && all_chars is_digit (drop (S i) body)
  end.

(** [parseInt(str, 10)] on a string that matches [/^-?\d+$/]. *)
Definition parseInt (s : string) : number :=
  let neg := startsWith s "-" in
  let m := digits_value 0 (if neg then drop 1 s else s) in
  if (m <=? 9007199254740992)%Z then NInt (if neg then (- m)%Z else m)
  else NLit s.

Definition is_quoted (s : string) : bool :=
  (startsWith s dq && endsWith s dq) || (startsWith s "'" && endsWith s "'").

Definition parseValue (str : string) : value :=
  if String.eqb str "true" || String.eqb str "True" || String.eqb str "TRUE" then VBool true
  else if String.eqb str "false" || String.eqb str "False" || String.eqb str "FALSE" then VBool false
  else if String.eqb str "null" || String.eqb str "Null" || String.eqb str "NULL"
          || String.eqb str "~" then VNull
  else if is_int_literal str then VNum (parseInt str)
  else if is_decimal_literal str then VNum (NLit str)
  else if is_quoted str then VStr (slice_1_m1 str)
  else VStr str.

(** A frame of the stack: the indent of the line that opened the container
    and the container [obj].  The source keeps a reference to the container;
    here it is the path from the root to it.  The two agree because a line
    writes only into the container on top of the stack, after the frames of
    everything deeper were popped, so the path of a frame that is still on
    the stack keeps leading to the object the frame was pushed with. *)
Record frame : Type := mkFrame {
  f_indent : Z;
  f_obj : list step
}.

(** The local state of the line loop of [parse].  The stack has its top
    first and the root frame last. *)
Record pstate : Type := mkState {
  result : value;
  stack : list frame;
  errors : list diagnostic;
  indentUnit : Z;
  lastIndent : Z
}.

Definition root_frame : frame := mkFrame (-1) [].

Definition initial : pstate := mkState (VObj []) [root_frame] [] 0 0.

Definition err (lineNum col : nat) (msg : string) : diagnostic :=
  mkDiag lineNum col msg (Some SevError) None None.

Definition tab_message : string := "Tabs are not allowed in YAML, use spaces".

Definition inconsistent_message (unit indent : Z) : string :=
  "Inconsistent indentation: expected multiple of " ++ of_Z unit
  ++ " spaces, got " ++ of_Z indent.

Definition jump_message (indent last unit : Z) : string :=
  "Indentation increased by " ++ of_Z (indent - last)
  ++ " spaces, expected at most " ++ of_Z unit.

Definition list_parent_message : string :=
  "List item found but parent is not a list. Check indentation.".

Definition invalid_syntax_message : string := "Invalid YAML syntax".

(** Lines 34-37: the tab check. *)
Definition tab_errors (lineNum : nat) (ln : string) : list diagnostic :=
  match indexOf ln (String tab_char EmptyString) with
  | Some i => [err lineNum (i + 1) tab_message]
  | None => []
  end.

(** Lines 40-43: the first indented line fixes the unit. *)
Definition detect_unit (unit indent : Z) : Z :=
  if (0 <? indent)%Z && (unit =? 0)%Z then indent else unit.

(** Lines 45-65: the two indentation checks, against the unit as it stands
    after [detect_unit]. *)
Definition indent_errors (lineNum : nat) (unit last indent : Z) : list diagnostic :=
  if (0 <? unit)%Z && (0 <? indent)%Z then
    ((if negb (Z.rem indent unit =? 0)%Z
      then [err lineNum 1 (inconsistent_message unit indent)] else [])
     ++
     (if (last + unit <? indent)%Z && (0 <=? last)%Z
      then [err lineNum 1 (jump_message indent last unit)] else []))%list
  else [].

(** Lines 70-72: pop the frames that are not shallower than the line. *)
Fixpoint pop_frames (indent : Z) (st : list frame) : list frame :=
  match st with
  | f :: (_ :: _) as rest =>
      if (indent <=? f_indent f)%Z then pop_frames indent rest else st
  | _ => st
  end.

Definition top (st : list frame) : frame := hd root_frame st.

(** Lines 146-153: the next line that is neither blank nor a comment gives
    [nextIndent] and [nextIsArray]. *)
Fixpoint lookahead (rest : list string) : Z * bool :=
  match rest with
  | [] => ((-1)%Z, false)
  | nextLine :: rest' =>
      let nextTrimmed := trim nextLine in
      if String.eqb nextTrimmed "" || startsWith nextTrimmed "#" then lookahead rest'
      else (search_nonws nextLine, startsWith nextTrimmed "-")
  end.

Definition is_block_marker (valueStr : string) : bool :=
  String.eqb valueStr "" || String.eqb valueStr "|" || String.eqb valueStr ">"
  || String.eqb valueStr "|-" || String.eqb valueStr ">-".

(** [target[key] = v] for the container at path [p]. *)
Definition assign (p : list step) (key : string) (v : value) (d : value)
  : outcome value :=
  match lookup p d with
  | Some target =>
      target' <- set_prop target key v ;;
      Ok (update p (fun _ => target') d)
  | None => Unmodelled
  end.

(** [target.push(x)] for the array at path [p]. *)
Definition append (p : list step) (x : value) (d : value) : value :=
  update p (fun target => push target x) d.

(** Lines 88-125: a line that starts with a dash and a space. *)
Definition list_item (indent : Z) (trimmed : string) (parent : frame)
  (target : value) (st : pstate) : outcome pstate :=
  let value := trim (drop 2 trimmed) in
  if negb (isArray target) then Ok st
  else
    let n := array_length target in
    if String.eqb value "" then
      Ok (mkState (append (f_obj parent) (VObj []) (result st))
                  (mkFrame indent (f_obj parent ++ [SIdx n])%list :: stack st)
                  (errors st) (indentUnit st) (lastIndent st))
    else if negb (is_quoted value) && includes value ":" then
      match indexOf value ":" with
      | None => Ok st
      | Some colonIdx =>
          let key := trim (take colonIdx value) in
          let val := trim (drop (colonIdx + 1) value) in
          if String.eqb key "__proto__" then Unmodelled
          else if String.eqb val "" then
            Ok (mkState (append (f_obj parent) (VObj [(key, VObj [])]) (result st))
                        (mkFrame indent (f_obj parent ++ [SIdx n; SKey key])%list :: stack st)
                        (errors st) (indentUnit st) (lastIndent st))
          else
            Ok (mkState (append (f_obj parent) (VObj [(key, parseValue val)]) (result st))
                        (stack st) (errors st) (indentUnit st) (lastIndent st))
      end
    else
      Ok (mkState (append (f_obj parent) (parseValue value) (result st))
                  (stack st) (errors st) (indentUnit st) (lastIndent st)).

(** Lines 128-135: a line that is a dash alone. *)
Definition bare_item (indent : Z) (parent : frame) (target : value) (st : pstate)
  : pstate :=
  if isArray target then
    mkState (append (f_obj parent) (VObj []) (result st))
            (mkFrame indent (f_obj parent ++ [SIdx (array_length target)])%list :: stack st)
            (errors st) (indentUnit st) (lastIndent st)
  else st.

(** Lines 138-179: a [key: value] line, or a line that is neither. *)
Definition key_value (lineNum : nat) (indent : Z) (trimmed : string)
  (rest : list string) (parent : frame) (st : pstate) : outcome pstate :=
  match indexOf trimmed ":" with
  | Some colonIdx =>
      if Nat.ltb 0 colonIdx then
        let key := trim (take colonIdx trimmed) in
        let valueStr := trim (drop (colonIdx + 1) trimmed) in
        let '(nextIndent, nextIsArray) := lookahead rest in
        if is_block_marker valueStr then
          if (indent <? nextIndent)%Z then
            d <- assign (f_obj parent) key (if nextIsArray then VArr [] [] else VObj [])
                   (result st) ;;
            Ok (mkState d (mkFrame indent (f_obj parent ++ [SKey key])%list :: stack st)
                        (errors st) (indentUnit st) (lastIndent st))
          else
            d <- assign (f_obj parent) key
                   (if String.eqb valueStr "" then VNull else VStr "") (result st) ;;
            Ok (mkState d (stack st) (errors st) (indentUnit st) (lastIndent st))
        else
          let v := if String.eqb valueStr "[]" then VArr [] []
                   else if String.eqb valueStr "{}" then VObj []
                   else parseValue valueStr in
          d <- assign (f_obj parent) key v (result st) ;;
          Ok (mkState d (stack st) (errors st) (indentUnit st) (lastIndent st))
      else Ok st
  | None =>
      if negb (startsWith trimmed "-") then
        Ok (mkState (result st) (stack st)
                    (errors st ++ [mkDiag lineNum 1 invalid_syntax_message None None None])%list
                    (indentUnit st) (lastIndent st))
      else Ok st
  end.

(** The body of the line loop (lines 24-179) for the line [ln] numbered
    [lineNum], with [rest] the lines after it. *)
Definition parse_line (lineNum : nat) (ln : string) (rest : list string)
  (st : pstate) : outcome pstate :=
  let trimmed := trim ln in
  if String.eqb trimmed "" || startsWith trimmed "#" then Ok st
  else
    let indent := search_nonws ln in
    if (indent =? -1)%Z then Ok st
    else
      let unit := detect_unit (indentUnit st) indent in
      let errors1 := (errors st ++ tab_errors lineNum ln
                      ++ indent_errors lineNum unit (lastIndent st) indent)%list in
      let stack1 := pop_frames indent (stack st) in
      let parent := top stack1 in
      match lookup (f_obj parent) (result st) with
      | None => Unmodelled
      | Some target =>
          let errors2 :=
            if startsWith trimmed "-" && negb (isArray target)
            then (errors1 ++ [err lineNum 1 list_parent_message])%list else errors1 in
          let st2 := mkState (result st) stack1 errors2 unit indent in
          if startsWith trimmed "- " then list_item indent trimmed parent target st2
          else if String.eqb trimmed "-" then Ok (bare_item indent parent target st2)
          else key_value lineNum indent trimmed rest parent st2
      end.

Fixpoint parse_lines (lineNum : nat) (lines : list string) (st : pstate)
  : outcome pstate :=
  match lines with
  | [] => Ok st
  | ln :: rest =>
      st' <- parse_line lineNum ln rest st ;;
      parse_lines (S lineNum) rest st'
  end.

(** The object [parse] returns: [{ data, errors }]. *)
Record parse_result : Type := mkResult {
  data : value;
  parse_errors : list diagnostic
}.

(** [parse(text)] *)
Definition parse (text : string) : outcome parse_result :=
  st <- parse_lines 1 (split newline text) initial ;;
  Ok (mkResult (result st) (errors st)).

(** [valueToString(val)] *)
Definition needs_quotes (val : string) : bool :=
  includes val ":" || includes val "#" || includes val "'"
  || startsWith val " " || endsWith val " ".

Definition valueToString (val : value) : outcome string :=
  match val with
  | VNull => Ok "null"
  | VBool b => to_String (VBool b)
  | VNum n => to_String (VNum n)
  | VStr s =>
      if needs_quotes s
      then Ok (dq ++ replace_all (Ascii.eqb (ascii_of_nat 34)) ("\" ++ dq) s ++ dq)
      else Ok s
  | other => to_String other
  end.

(** [stringify(obj, indent)] *)
Fixpoint stringify (obj : value) (indent : nat) : outcome string :=
  let spaces := JsString.repeat "  " indent in
  match obj with
  | VArr es _ =>
      (fix items (l : list value) : outcome string :=
         match l with
         | [] => Ok ""
         | item :: l' =>
             s <- (if is_object item
                   then sub <- stringify item (S indent) ;; Ok (spaces ++ "-" ++ nl ++ sub)
                   else t <- valueToString item ;; Ok (spaces ++ "- " ++ t ++ nl)) ;;
             r <- items l' ;;
             Ok (s ++ r)
         end) es
  | VObj ps =>
      (fix fields (l : list (string * value)) : outcome string :=
         match l with
         | [] => Ok ""
         | (key, v) :: l' =>
             s <- (if (is_object v && negb (isArray v) && Nat.ltb 0 (List.length (keys v)))
                      || isArray v
                   then sub <- stringify v (S indent) ;; Ok (spaces ++ key ++ ":" ++ nl ++ sub)
                   else t <- valueToString v ;; Ok (spaces ++ key ++ ": " ++ t ++ nl)) ;;
             r <- fields l' ;;
             Ok (s ++ r)
         end) ps
  | _ => Ok ""
  end.

End YamlParser.

(** ** The Docker Compose schema *)

(** A node of the schema, with the fields the validator and the completion
    engine read: [description], [values] and [children].  The fields
    [type], [example], [required] and [isExtension] of the source are read
    by neither and are left out. *)
Inductive SchemaNode : Type :=
| mkNode (description : option string) (values : option (list string))
         (children : option (list (string * SchemaNode))).

Definition description (n : SchemaNode) : option string :=
  match n with mkNode d _ _ => d end.

Definition values (n : SchemaNode) : option (list string) :=
  match n with mkNode _ v _ => v end.

Definition children (n : SchemaNode) : option (list (string * SchemaNode)) :=
  match n with mkNode _ _ c => c end.

Definition DockerComposeSchema : list (string * SchemaNode) :=
  [("version", mkNode (Some "Specifies the Compose file format version") (Some ["3"; "3.0"; "3.1"; "3.2"; "3.3"; "3.4"; "3.5"; "3.6"; "3.7"; "3.8"; "3.9"]) None);
   ("services", mkNode (Some "Define the services (containers) that make up your application") None
     (Some [("*", mkNode (Some "Service definition") None
        (Some [("image", mkNode (Some "Specify the image to start the container from. Can be a repository/tag or image ID") None None);
         ("build", mkNode (Some "Configuration options applied at build time. Can be a path to build context or an object") None
           (Some [("context", mkNode (Some "Path to directory containing Dockerfile or git repository URL") None None);
            ("dockerfile", mkNode (Some "Alternate Dockerfile name") None None);
            ("args", mkNode (Some "Build arguments (ARG values)") None None);
            ("cache_from", mkNode (Some "Images to use as cache sources") None None);
            ("labels", mkNode (Some "Labels to add to the built image") None None);
            ("network", mkNode (Some "Network mode during build") (Some ["host"; "none"; "default"]) None);
            ("shm_size", mkNode (Some ("Size of /dev/shm (e.g., " ++ dq ++ "2gb" ++ dq ++ ")")) None None);
            ("target", mkNode (Some "Build stage to target in multi-stage Dockerfile") None None)]));
         ("command", mkNode (Some "Override the default command. Can be a string or list") None None);
         ("entrypoint", mkNode (Some "Override the default entrypoint") None None);
         ("container_name", mkNode (Some "Custom container name (not recommended for Swarm mode)") None None);
         ("depends_on", mkNode (Some "Express dependency between services. Services start in dependency order") None None);
         ("deploy", mkNode (Some "Deployment and running configuration (Swarm mode)") None
           (Some [("mode", mkNode (Some "Replication mode") (Some ["replicated"; "global"]) None);
            ("replicas", mkNode (Some "Number of containers to run (only for replicated mode)") None None);
            ("endpoint_mode", mkNode (Some "Service discovery mode") (Some ["vip"; "dnsrr"]) None);
            ("labels", mkNode (Some "Labels for the service (not containers). Can be object or array of strings") None None);
            ("placement", mkNode (Some "Placement constraints and preferences") None
              (Some [("constraints", mkNode (Some "Placement constraints") None None);
               ("preferences", mkNode (Some "Placement preferences") None None);
               ("max_replicas_per_node", mkNode (Some "Max replicas per node") None None)]));
            ("resources", mkNode (Some "Resource constraints") None
              (Some [("limits", mkNode (Some "Hard resource limits") None
                 (Some [("cpus", mkNode (Some ("CPU limit (e.g., " ++ dq ++ "0.5" ++ dq ++ ")")) None None);
                  ("memory", mkNode (Some ("Memory limit (e.g., " ++ dq ++ "512M" ++ dq ++ ")")) None None);
                  ("pids", mkNode (Some "Process ID limit") None None)]));
               ("reservations", mkNode (Some "Resource reservations") None
                 (Some [("cpus", mkNode (Some "CPU reservation") None None);
                  ("memory", mkNode (Some "Memory reservation") None None);
                  ("generic_resources", mkNode (Some "Generic resources") None None)]))]));
            ("restart_policy", mkNode (Some "Restart policy for containers") None
              (Some [("condition", mkNode (Some "When to restart") (Some ["none"; "on-failure"; "any"]) None);
               ("delay", mkNode (Some ("Delay between restarts (e.g., " ++ dq ++ "5s" ++ dq ++ ")")) None None);
               ("max_attempts", mkNode (Some "Maximum restart attempts") None None);
               ("window", mkNode (Some "Time window for restart evaluation") None None)]));
            ("rollback_config", mkNode (Some "Rollback configuration") None
              (Some [("parallelism", mkNode (Some "Containers to rollback at once") None None);
               ("delay", mkNode (Some "Delay between rollback batches") None None);
               ("failure_action", mkNode None (Some ["continue"; "pause"]) None);
               ("monitor", mkNode (Some "Monitor duration after rollback") None None);
               ("max_failure_ratio", mkNode (Some "Failure rate to tolerate") None None);
               ("order", mkNode None (Some ["start-first"; "stop-first"]) None)]));
            ("update_config", mkNode (Some "Update configuration") None
              (Some [("parallelism", mkNode (Some "Containers to update at once") None None);
               ("delay", mkNode (Some "Delay between updates") None None);
               ("failure_action", mkNode None (Some ["continue"; "pause"; "rollback"]) None);
               ("monitor", mkNode (Some "Monitor duration after update") None None);
               ("max_failure_ratio", mkNode (Some "Failure rate to tolerate") None None);
               ("order", mkNode None (Some ["start-first"; "stop-first"]) None)]))]));
         ("dns", mkNode (Some "Custom DNS servers") None None);
         ("dns_search", mkNode (Some "Custom DNS search domains") None None);
         ("environment", mkNode (Some "Environment variables. Can be an object or array of KEY=value strings") None None);
         ("env_file", mkNode (Some "Load environment variables from file(s)") None None);
         ("expose", mkNode (Some "Expose ports without publishing to host (internal only)") None None);
         ("external_links", mkNode (Some "Link to containers outside this compose file") None None);
         ("extra_hosts", mkNode (Some "Add hostname mappings to /etc/hosts") None None);
         ("healthcheck", mkNode (Some "Container health check configuration") None
           (Some [("test", mkNode (Some "Command to run for health check") None None);
            ("interval", mkNode (Some "Time between health checks") None None);
            ("timeout", mkNode (Some "Timeout for health check") None None);
            ("retries", mkNode (Some "Consecutive failures before unhealthy") None None);
            ("start_period", mkNode (Some "Start period for container initialization") None None);
            ("disable", mkNode (Some "Disable the healthcheck") None None)]));
         ("hostname", mkNode (Some "Container hostname") None None);
         ("init", mkNode (Some "Run an init process inside the container") None None);
         ("labels", mkNode (Some "Container labels") None None);
         ("links", mkNode (Some "Link to other services (legacy, use networks instead)") None None);
         ("logging", mkNode (Some "Logging configuration") None
           (Some [("driver", mkNode (Some "Logging driver") (Some ["json-file"; "syslog"; "journald"; "gelf"; "fluentd"; "awslogs"; "splunk"; "none"]) None);
            ("options", mkNode (Some "Driver-specific options") None None)]));
         ("network_mode", mkNode (Some "Network mode") (Some ["bridge"; "host"; "none"; "service:[service name]"; "container:[container name/id]"]) None);
         ("networks", mkNode (Some "Networks to join. Can be a list or object with network-specific config") None
           (Some [("*", mkNode None None
              (Some [("aliases", mkNode (Some "Network aliases for this service") None None);
               ("ipv4_address", mkNode (Some "Static IPv4 address") None None);
               ("ipv6_address", mkNode (Some "Static IPv6 address") None None)]))]));
         ("pid", mkNode (Some "PID mode") (Some ["host"; "service:[service name]"]) None);
         ("ports", mkNode (Some "Expose ports. Format: [HOST:]CONTAINER[/PROTOCOL]") None None);
         ("privileged", mkNode (Some "Run container in privileged mode") None None);
         ("read_only", mkNode (Some "Mount container root filesystem as read-only") None None);
         ("restart", mkNode (Some "Restart policy (ignored in Swarm mode, use deploy.restart_policy)") (Some ["no"; "always"; "on-failure"; "unless-stopped"]) None);
         ("secrets", mkNode (Some "Secrets to mount in the container") None None);
         ("security_opt", mkNode (Some "Security options") None None);
         ("shm_size", mkNode (Some "Size of /dev/shm") None None);
         ("stdin_open", mkNode (Some "Keep STDIN open (equivalent to docker run -i)") None None);
         ("stop_grace_period", mkNode (Some "Time to wait before force-killing container") None None);
         ("stop_signal", mkNode (Some "Signal to stop the container") None None);
         ("sysctls", mkNode (Some "Kernel parameters to set") None None);
         ("tmpfs", mkNode (Some "Mount temporary filesystem") None None);
         ("tty", mkNode (Some "Allocate pseudo-TTY (equivalent to docker run -t)") None None);
         ("ulimits", mkNode (Some "Override default ulimits") None
           (Some [("nproc", mkNode (Some "Max number of processes") None None);
            ("nofile", mkNode (Some "Max number of open files") None None)]));
         ("user", mkNode (Some "User to run as (UID:GID)") None None);
         ("userns_mode", mkNode (Some "User namespace mode") (Some ["host"]) None);
         ("volumes", mkNode (Some "Mount volumes. Format: [SOURCE:]TARGET[:OPTIONS]") None None);
         ("working_dir", mkNode (Some "Working directory inside the container") None None);
         ("configs", mkNode (Some "Configs to mount (Swarm mode)") None
           (Some [("*", mkNode None None
              (Some [("source", mkNode (Some "Config name") None None);
               ("target", mkNode (Some "Mount path in container") None None);
               ("uid", mkNode (Some "Owner UID") None None);
               ("gid", mkNode (Some "Owner GID") None None);
               ("mode", mkNode (Some "File mode (octal)") None None)]))]));
         ("cap_add", mkNode (Some "Add container capabilities") (Some ["ALL"; "AUDIT_CONTROL"; "AUDIT_WRITE"; "BLOCK_SUSPEND"; "CHOWN"; "DAC_OVERRIDE"; "DAC_READ_SEARCH"; "FOWNER"; "FSETID"; "IPC_LOCK"; "IPC_OWNER"; "KILL"; "LEASE"; "LINUX_IMMUTABLE"; "MAC_ADMIN"; "MAC_OVERRIDE"; "MKNOD"; "NET_ADMIN"; "NET_BIND_SERVICE"; "NET_BROADCAST"; "NET_RAW"; "SETFCAP"; "SETGID"; "SETPCAP"; "SETUID"; "SYS_ADMIN"; "SYS_BOOT"; "SYS_CHROOT"; "SYS_MODULE"; "SYS_NICE"; "SYS_PACCT"; "SYS_PTRACE"; "SYS_RAWIO"; "SYS_RESOURCE"; "SYS_TIME"; "SYS_TTY_CONFIG"; "SYSLOG"; "WAKE_ALARM"]) None);
         ("cap_drop", mkNode (Some "Drop container capabilities") (Some ["ALL"; "AUDIT_CONTROL"; "AUDIT_WRITE"; "BLOCK_SUSPEND"; "CHOWN"; "DAC_OVERRIDE"; "DAC_READ_SEARCH"; "FOWNER"; "FSETID"; "IPC_LOCK"; "IPC_OWNER"; "KILL"; "LEASE"; "LINUX_IMMUTABLE"; "MAC_ADMIN"; "MAC_OVERRIDE"; "MKNOD"; "NET_ADMIN"; "NET_BIND_SERVICE"; "NET_BROADCAST"; "NET_RAW"; "SETFCAP"; "SETGID"; "SETPCAP"; "SETUID"; "SYS_ADMIN"; "SYS_BOOT"; "SYS_CHROOT"; "SYS_MODULE"; "SYS_NICE"; "SYS_PACCT"; "SYS_PTRACE"; "SYS_RAWIO"; "SYS_RESOURCE"; "SYS_TIME"; "SYS_TTY_CONFIG"; "SYSLOG"; "WAKE_ALARM"]) None);
         ("cgroup_parent", mkNode (Some "Parent cgroup for the container") None None);
         ("devices", mkNode (Some "Device mappings") None None);
         ("domainname", mkNode (Some "Container domain name") None None);
         ("ipc", mkNode (Some "IPC mode") (Some ["host"; "private"; "shareable"; "service:[service name]"; "container:[container name/id]"]) None);
         ("isolation", mkNode (Some "Container isolation technology (Windows only)") (Some ["default"; "process"; "hyperv"]) None);
         ("mac_address", mkNode (Some "Container MAC address") None None);
         ("platform", mkNode (Some "Target platform") None None);
         ("profiles", mkNode (Some "Profiles this service belongs to") None None);
         ("pull_policy", mkNode (Some "Image pull policy") (Some ["always"; "never"; "missing"; "build"]) None);
         ("runtime", mkNode (Some "Runtime to use (e.g., nvidia)") None None);
         ("scale", mkNode (Some "Number of containers (deprecated, use deploy.replicas)") None None);
         ("storage_opt", mkNode (Some "Storage driver options") None None)]))]));
   ("networks", mkNode (Some "Define networks for services to connect to") None
     (Some [("*", mkNode (Some "Network definition") None
        (Some [("driver", mkNode (Some "Network driver") (Some ["bridge"; "overlay"; "host"; "none"; "macvlan"; "ipvlan"]) None);
         ("driver_opts", mkNode (Some "Driver-specific options") None None);
         ("attachable", mkNode (Some "Allow standalone containers to attach (overlay only)") None None);
         ("enable_ipv6", mkNode (Some "Enable IPv6 networking") None None);
         ("external", mkNode (Some "Network is managed outside this Compose file") None
           (Some [("name", mkNode (Some "External network name") None None)]));
         ("internal", mkNode (Some "Restrict external access to the network") None None);
         ("ipam", mkNode (Some "IP Address Management configuration") None
           (Some [("driver", mkNode (Some "IPAM driver") (Some ["default"]) None);
            ("config", mkNode (Some "IPAM configuration blocks") None
              (Some [("*", mkNode None None
                 (Some [("subnet", mkNode (Some "Subnet in CIDR format") None None);
                  ("ip_range", mkNode (Some "IP range for allocation") None None);
                  ("gateway", mkNode (Some "Gateway IP address") None None);
                  ("aux_addresses", mkNode (Some "Auxiliary addresses") None None)]))]));
            ("options", mkNode (Some "Driver-specific options") None None)]));
         ("labels", mkNode (Some "Network labels") None None);
         ("name", mkNode (Some "Custom name for the network") None None)]))]));
   ("volumes", mkNode (Some "Define named volumes for data persistence") None
     (Some [("*", mkNode (Some "Volume definition (null for default options)") None
        (Some [("driver", mkNode (Some "Volume driver") (Some ["local"; "nfs"; "cifs"]) None);
         ("driver_opts", mkNode (Some "Driver-specific options") None None);
         ("external", mkNode (Some "Volume is managed outside this Compose file") None
           (Some [("name", mkNode (Some "External volume name") None None)]));
         ("labels", mkNode (Some "Volume labels") None None);
         ("name", mkNode (Some "Custom name for the volume") None None)]))]));
   ("configs", mkNode (Some "Define configurations for services (Swarm mode)") None
     (Some [("*", mkNode (Some "Config definition") None
        (Some [("file", mkNode (Some "Path to config file") None None);
         ("external", mkNode (Some "Config is managed outside this Compose file") None
           (Some [("name", mkNode (Some "External config name") None None)]));
         ("name", mkNode (Some "Custom name for the config") None None);
         ("template_driver", mkNode (Some "Template driver for config") None None)]))]));
   ("secrets", mkNode (Some "Define secrets for services (Swarm mode)") None
     (Some [("*", mkNode (Some "Secret definition") None
        (Some [("file", mkNode (Some "Path to secret file") None None);
         ("external", mkNode (Some "Secret is managed outside this Compose file") None
           (Some [("name", mkNode (Some "External secret name") None None)]));
         ("name", mkNode (Some "Custom name for the secret") None None);
         ("template_driver", mkNode (Some "Template driver for secret") None None)]))]));
   ("x", mkNode (Some ("Extension fields. Any key starting with " ++ dq ++ "x-" ++ dq ++ " can contain custom data")) None None)].

Module Schema.

Import Js.

(** The names every object inherits from [Object.prototype]. *)
Definition object_prototype_names : list string :=
  ["constructor"; "__defineGetter__"; "__defineSetter__"; "hasOwnProperty";
   "__lookupGetter__"; "__lookupSetter__"; "isPrototypeOf";
   "propertyIsEnumerable"; "toString"; "valueOf"; "__proto__";
   "toLocaleString"].

(** The names of the fields of a schema node in the source. *)
Definition node_field_names : list string :=
  ["type"; "description"; "values"; "children"; "example"; "required";
   "isExtension"].

(** [table[k]] on a table of schema nodes, for a key [k] that comes from
    the document: the own entry, [None] for [undefined]; a key that the
    table inherits from [Object.prototype] yields a built-in instead of a
    schema node, and the run is not followed further. *)
Definition lookup_key (table : list (string * SchemaNode)) (k : string)
  : outcome (option SchemaNode) :=
  match assoc k table with
  | Some n => Ok (Some n)
  | None => if mem k object_prototype_names then Unmodelled else Ok None
  end.

Definition no_node : SchemaNode := mkNode None None None.

(** [table.k] for a key written in the source. *)
Definition static (table : list (string * SchemaNode)) (k : string) : SchemaNode :=
  match assoc k table with Some n => n | None => no_node end.

Definition children_of (n : SchemaNode) : list (string * SchemaNode) :=
  match children n with Some cs => cs | None => [] end.

(** [DockerComposeSchema.services.children['*']] and its siblings. *)
Definition wildcard_of (section : string) : SchemaNode :=
  static (children_of (static DockerComposeSchema section)) "*".

End Schema.

(** ** The validator *)

Module DockerComposeValidator.

Import Js Schema.

Definition freeFormKeys : list string :=
  ["driver_opts"; "options"; "labels"; "args"; "environment";
   "sysctls"; "extra_hosts"; "storage_opt"; "aux_addresses"].

Definition serviceOnlyKeys : list string :=
  ["image"; "build"; "command"; "entrypoint"; "container_name";
   "depends_on"; "deploy"; "ports"; "expose"; "volumes"; "environment";
   "env_file"; "healthcheck"; "logging"; "networks"; "restart";
   "secrets"; "configs"; "labels"; "working_dir"; "user"; "privileged";
   "cap_add"; "cap_drop"; "devices"; "dns"; "dns_search"; "tmpfs";
   "hostname"; "domainname"; "shm_size"; "stop_grace_period"; "stop_signal";
   "stdin_open"; "tty"; "ulimits"; "init"; "read_only"; "pid"; "ipc";
   "security_opt"; "sysctls"; "userns_mode"; "isolation"; "platform"].

Definition deployOnlyKeys : list string :=
  ["mode"; "replicas"; "placement"; "resources"; "restart_policy";
   "update_config"; "rollback_config"; "endpoint_mode"].

(** The regular expression of [findKeyLine], [^\s*-?\s*KEY\s*:], as a
    matcher in continuation style.  The key is escaped in the source, so it
    stands for itself. *)
Fixpoint ws_star (k : string -> bool) (s : string) : bool :=
  k s || match s with
         | String c t => is_ws c && ws_star k t
         | EmptyString => false
         end.

Definition opt_dash (k : string -> bool) (s : string) : bool :=
  match s with
  | String c t => (Ascii.eqb c "-"%char && k t) || k s
  | EmptyString => k s
  end.

Definition literal (key : string) (k : string -> bool) (s : string) : bool :=
  startsWith s key && k (drop (String.length key) s).

Definition colon (s : string) : bool := startsWith s ":".

Definition keyPattern (key : string) (ln : string) : bool :=
  ws_star (opt_dash (ws_star (literal key (ws_star colon)))) ln.

(** The loop of [findKeyLine] over the lines from index [i] on. *)
Fixpoint find_line (key : string) (lines : list string) (i : nat) : option nat :=
  match lines with
  | [] => None
  | ln :: rest => if keyPattern key ln then Some (i + 1) else find_line key rest (S i)
  end.

(** [findKeyLine(lines, key, startLine)] *)
Definition findKeyLine (lines : list string) (key : string) (startLine : nat) : nat :=
  match find_line key (skipn startLine lines) startLine with
  | Some n => n
  | None => startLine + 1
  end.

Definition diag (lineNum : nat) (msg : string) (sev : severity_level)
  (vals keys : option (list string)) : diagnostic :=
  mkDiag lineNum 1 msg (Some sev) vals keys.

Definition service_level_message (key : string) : string :=
  dq ++ key ++ dq ++ " should be inside a service definition, not at root level. Check indentation.".

Definition deploy_level_message (key : string) : string :=
  dq ++ key ++ dq ++ " should be inside a deploy section, not at root level. Check indentation.".

Definition unknown_top_level_message (key : string) : string :=
  "Unknown top-level key: " ++ dq ++ key ++ dq.

Definition invalid_version_message (version : string) : string :=
  "Invalid version: " ++ dq ++ version ++ dq.

Definition missing_image_message (serviceName : string) : string :=
  "Service " ++ dq ++ serviceName ++ dq ++ " must have either " ++ dq ++ "image"
  ++ dq ++ " or " ++ dq ++ "build" ++ dq ++ " defined".

Definition unknown_service_key_message (key serviceName : string) : string :=
  "Unknown service key: " ++ dq ++ key ++ dq ++ " in service " ++ dq ++ serviceName ++ dq.

Definition unknown_section_key_message (key sectionName itemName : string) : string :=
  "Unknown key: " ++ dq ++ key ++ dq ++ " in " ++ sectionName ++ "." ++ dq ++ itemName ++ dq.

Definition invalid_value_message (config key : string) : string :=
  "Invalid value " ++ dq ++ config ++ dq ++ " for " ++ dq ++ key ++ dq.

Definition unknown_nested_key_message (subKey context key : string) : string :=
  "Unknown key: " ++ dq ++ subKey ++ dq ++ " in " ++ context ++ "." ++ key.

(** [v.split('[')[0]] *)
Definition before_bracket (v : string) : string :=
  hd EmptyString (split "["%char v).

(** Lines 1147-1158: the enumerated values, for a string [config]. *)
Definition enum_diagnostics (config key : string) (vals : list string)
  (lines : list string) : list diagnostic :=
  if negb (mem config vals)
     && negb (existsb (fun v => startsWith config (before_bracket v)) vals)
  then [diag (findKeyLine lines key 0) (invalid_value_message config key) SevWarning
             (Some vals) None]
  else [].

(** [validateNestedConfig(config, key, schema, lines, errors, context)]: the
    diagnostics it pushes.  A parsed tree holds no [undefined], and the
    callers pass a schema node, so of the first guard only the test for
    [null] remains.  The loop runs over the own properties of [config],
    whose keys are distinct, so the value paired with a key is
    [config[subKey]]. *)
Fixpoint validateNestedConfig (config : value) (key : string) (schema : SchemaNode)
  (lines : list string) (context : string) {struct config}
  : outcome (list diagnostic) :=
  match config with
  | VNull => Ok []
  | _ =>
      if mem key freeFormKeys then Ok []
      else if isArray config then Ok []
      else
        let enum :=
          match values schema, config with
          | Some vals, VStr s => enum_diagnostics s key vals lines
          | _, _ => []
          end in
        match children schema, config with
        | Some cs, VObj ps =>
            rest <-
              (fix subkeys (l : list (string * value)) : outcome (list diagnostic) :=
                 match l with
                 | [] => Ok []
                 | (subKey, sub) :: l' =>
                     here <-
                       (if startsWith subKey "x-" then Ok []
                        else if mem subKey freeFormKeys then Ok []
                        else
                          own <- lookup_key cs subKey ;;
                          match own, assoc "*" cs with
                          | None, None =>
                              Ok [diag (findKeyLine lines subKey 0)
                                       (unknown_nested_key_message subKey context key)
                                       SevWarning None
                                       (Some (filter (fun k => negb (String.eqb k "*"))
                                                     (map fst cs)))]
                          | Some subSchema, _ | None, Some subSchema =>
                              validateNestedConfig sub subKey subSchema lines
                                (context ++ "." ++ key)
                          end) ;;
                     more <- subkeys l' ;;
                     Ok (here ++ more)%list
                 end) ps ;;
            Ok (enum ++ rest)%list
        | _, _ => Ok enum
        end
  end.

(** Lines 1081-1099: the keys of one service. *)
Definition service_key (serviceName : string) (serviceSchema : SchemaNode)
  (lines : list string) (key : string) (v : value) : outcome (list diagnostic) :=
  if startsWith key "x-" then Ok []
  else
    known <- lookup_key (children_of serviceSchema) key ;;
    match known with
    | None =>
        Ok [diag (findKeyLine lines key (findKeyLine lines serviceName 0))
                 (unknown_service_key_message key serviceName) SevError None
                 (Some (map fst (children_of serviceSchema)))]
    | Some sch =>
        if negb (isArray v) && negb (mem key freeFormKeys)
        then validateNestedConfig v key sch lines serviceName
        else Ok []
    end.

Fixpoint each {A : Type} (f : string -> A -> outcome (list diagnostic))
  (l : list (string * A)) : outcome (list diagnostic) :=
  match l with
  | [] => Ok []
  | (k, v) :: l' =>
      here <- f k v ;;
      more <- each f l' ;;
      Ok (here ++ more)%list
  end.

(** Lines 1069-1078: the required fields of one service. *)
Definition required_fields (serviceName : string) (serviceConfig : value)
  (lines : list string) : outcome (list diagnostic) :=
  image <- truthy_opt (get serviceConfig "image") ;;
  if image then Ok []
  else
    build <- truthy_opt (get serviceConfig "build") ;;
    if build then Ok []
    else Ok [diag (findKeyLine lines serviceName 0)
                  (missing_image_message serviceName) SevError None None].

Definition one_service (serviceSchema : SchemaNode) (lines : list string)
  (serviceName : string) (serviceConfig : value) : outcome (list diagnostic) :=
  if negb (is_object serviceConfig) then Ok []
  else
    required <- required_fields serviceName serviceConfig lines ;;
    keyed <- each (service_key serviceName serviceSchema lines) (entries serviceConfig) ;;
    Ok (required ++ keyed)%list.

(** [validateServices(services, lines, errors)]: the diagnostics it pushes. *)
Definition validateServices (services : value) (lines : list string)
  : outcome (list diagnostic) :=
  each (one_service (wildcard_of "services") lines) (entries services).

Definition section_key (sectionName itemName : string)
  (schemaChildren : list (string * SchemaNode)) (lines : list string)
  (key : string) (_ : value) : outcome (list diagnostic) :=
  if startsWith key "x-" then Ok []
  else if mem key freeFormKeys then Ok []
  else if String.eqb key "name" then Ok []
  else if String.eqb key "external" then Ok []
  else if Nat.ltb 0 (List.length schemaChildren) then
    known <- lookup_key schemaChildren key ;;
    match known with
    | None =>
        Ok [diag (findKeyLine lines key (findKeyLine lines itemName 0))
                 (unknown_section_key_message key sectionName itemName) SevError None
                 (Some (map fst schemaChildren))]
    | Some _ => Ok []
    end
  else Ok [].

(** [validateSection(section, lines, errors, sectionName, schema)]: the
    diagnostics it pushes; [schema] is the wildcard child of the section. *)
Definition validateSection (section : value) (lines : list string)
  (sectionName : string) (schema : SchemaNode) : outcome (list diagnostic) :=
  each (fun itemName itemConfig =>
          if negb (is_object itemConfig) then Ok []
          else each (section_key sectionName itemName (children_of schema) lines)
                    (entries itemConfig))
       (entries section).

(** Lines 987-1017: the keys of the root. *)
Definition top_level_key (lines : list string) (key : string) (_ : value)
  : outcome (list diagnostic) :=
  if startsWith key "x-" then Ok []
  else
    known <- lookup_key DockerComposeSchema key ;;
    match known with
    | Some _ => Ok []
    | None =>
        let lineNum := findKeyLine lines key 0 in
        if mem key serviceOnlyKeys
        then Ok [diag lineNum (service_level_message key) SevError None None]
        else if mem key deployOnlyKeys
        then Ok [diag lineNum (deploy_level_message key) SevError None None]
        else Ok [diag lineNum (unknown_top_level_message key) SevError None
                      (Some (filter (fun k => negb (String.eqb k "x"))
                                    (map fst DockerComposeSchema)))]
    end.

Definition is_quote (c : ascii) : bool :=
  Ascii.eqb c "'"%char || Ascii.eqb c (ascii_of_nat 34).

(** Lines 1020-1033: the version. *)
Definition version_diagnostics (parsedData : value) (lines : list string)
  : outcome (list diagnostic) :=
  present <- truthy_opt (get parsedData "version") ;;
  if present then
    match get parsedData "version" with
    | None => Ok []
    | Some v =>
        text <- to_String v ;;
        let validVersions :=
          match values (static DockerComposeSchema "version") with
          | Some vs => vs
          | None => []
          end in
        let version := replace_all is_quote "" text in
        if negb (mem version validVersions)
        then Ok [diag (findKeyLine lines "version" 0) (invalid_version_message version)
                      SevWarning (Some validVersions) None]
        else Ok []
    end
  else Ok [].

Definition section_diagnostics (parsedData : value) (lines : list string)
  (sectionName : string) : outcome (list diagnostic) :=
  match get parsedData sectionName with
  | Some section =>
      if is_object section
      then validateSection section lines sectionName (wildcard_of sectionName)
      else Ok []
  | None => Ok []
  end.

(** [validate(text, parsedData)] *)
Definition validate (text : string) (parsedData : value) : outcome (list diagnostic) :=
  let lines := split newline text in
  present <- truthy parsedData ;;
  if negb present || Nat.eqb (List.length (keys parsedData)) 0 then Ok []
  else
    top <- each (top_level_key lines) (entries parsedData) ;;
    version <- version_diagnostics parsedData lines ;;
    services <-
      match get parsedData "services" with
      | Some s => if is_object s then validateServices s lines else Ok []
      | None => Ok []
      end ;;
    networks <- section_diagnostics parsedData lines "networks" ;;
    volumes <- section_diagnostics parsedData lines "volumes" ;;
    configs <- section_diagnostics parsedData lines "configs" ;;
    secrets <- section_diagnostics parsedData lines "secrets" ;;
    Ok (top ++ version ++ services ++ networks ++ volumes ++ configs ++ secrets)%list.

End DockerComposeValidator.

(** ** The completion engine *)

Module AutocompleteEngine.

Import Js Schema.

Definition serviceKeyPriority : list string :=
  ["image"; "build"; "container_name"; "command"; "entrypoint";
   "environment"; "env_file"; "ports"; "expose"; "volumes";
   "networks"; "depends_on"; "deploy"; "restart"; "healthcheck";
   "secrets"; "configs"; "labels"; "logging"; "working_dir";
   "user"; "privileged"; "cap_add"; "cap_drop"; "devices";
   "dns"; "dns_search"; "extra_hosts"; "hostname"; "domainname";
   "init"; "pid"; "ipc"; "shm_size"; "stdin_open"; "tty";
   "stop_signal"; "stop_grace_period"; "security_opt"; "sysctls";
   "ulimits"; "userns_mode"; "platform"; "runtime"; "isolation";
   "network_mode"; "tmpfs"; "read_only"; "mac_address";
   "cgroup_parent"; "links"; "external_links"; "profiles";
   "pull_policy"; "scale"; "storage_opt"].

Definition deployKeyPriority : list string :=
  ["mode"; "replicas"; "placement"; "resources"; "restart_policy";
   "update_config"; "rollback_config"; "labels"; "endpoint_mode"].

Definition topLevelKeyPriority : list string :=
  ["version"; "services"; "networks"; "volumes"; "secrets"; "configs"].

Definition networkKeyPriority : list string :=
  ["driver"; "driver_opts"; "external"; "name"; "attachable";
   "internal"; "ipam"; "labels"; "enable_ipv6"].

Definition volumeKeyPriority : list string :=
  ["driver"; "driver_opts"; "external"; "name"; "labels"].

Definition secretKeyPriority : list string :=
  ["file"; "external"; "name"; "template_driver"].

Definition healthcheckKeyPriority : list string :=
  ["test"; "interval"; "timeout"; "retries"; "start_period"; "disable"].

Definition resourcesKeyPriority : list string := ["limits"; "reservations"].

Definition placementKeyPriority : list string :=
  ["constraints"; "preferences"; "max_replicas_per_node"].

Definition updateConfigKeyPriority : list string :=
  ["parallelism"; "delay"; "failure_action"; "monitor"; "max_failure_ratio"; "order"].

Definition restartPolicyKeyPriority : list string :=
  ["condition"; "delay"; "max_attempts"; "window"].

Definition buildKeyPriority : list string :=
  ["context"; "dockerfile"; "args"; "target"; "cache_from"; "labels"; "network"; "shm_size"].

Definition loggingKeyPriority : list string := ["driver"; "options"].

Inductive suggestion_type : Type := KeySuggestion | ValueSuggestion.

(** A suggestion: [{ label, type, description }]; the description of a
    schema node that has none is [undefined]. *)
Record suggestion : Type := mkSuggestion {
  label : string;
  type : suggestion_type;
  s_description : option string
}.

(** [Array.prototype.sort] with a comparison function: a stable sort, here
    by insertion from the right. *)
Fixpoint insert_sorted {A : Type} (cmp : A -> A -> Z) (x : A) (l : list A) : list A :=
  match l with
  | [] => [x]
  | y :: t => if (cmp x y <=? 0)%Z then x :: y :: t else y :: insert_sorted cmp x t
  end.

Definition sort {A : Type} (cmp : A -> A -> Z) (l : list A) : list A :=
  fold_right (insert_sorted cmp) [] l.

(** An entry of the indentation stack of [getContext]; the stack has its
    top first and the root entry last. *)
Record entry : Type := mkEntry {
  e_indent : Z;
  e_key : string
}.

Definition root_entry : entry := mkEntry (-1) "root".

Fixpoint pop_entries (indent : Z) (st : list entry) : list entry :=
  match st with
  | e :: (_ :: _) as rest =>
      if (indent <=? e_indent e)%Z then pop_entries indent rest else st
  | _ => st
  end.

Definition last_char (s : string) : string :=
  drop (String.length s - 1) s.

(** The first group of [/^-?\s*([^:]+):/] on a trimmed line.  The match ends
    at the first colon; the group is what stands before it once an optional
    dash and the white space after it are set aside, and when that leaves
    nothing the matcher gives back the last white space, or else the dash. *)
Definition context_key_match (trimmed : string) : option string :=
  match indexOf trimmed ":" with
  | None => None
  | Some m =>
      let pre := take m trimmed in
      if Nat.eqb m 0 then None
      else if startsWith pre "-" then
        let body := trimStart (drop 1 pre) in
        if negb (String.eqb body "") then Some body
        else if negb (String.eqb (drop 1 pre) "") then Some (last_char pre)
        else Some pre
      else Some pre
  end.

Definition hasNestedContent (afterColon : string) : bool :=
  String.eqb afterColon "" || String.eqb afterColon "|" || String.eqb afterColon ">"
  || String.eqb afterColon "|-" || String.eqb afterColon ">-".

(** Lines 1332-1359: one line before the cursor. *)
Definition context_line (ln : string) (indentStack : list entry) : list entry :=
  let trimmed := trim ln in
  if String.eqb trimmed "" || startsWith trimmed "#" then indentStack
  else
    let indent := search_nonws ln in
    match context_key_match trimmed with
    | None => indentStack
    | Some group =>
        let key := trim group in
        let afterColon :=
          match indexOf trimmed ":" with
          | Some i => trim (drop (i + 1) trimmed)
          | None => trim trimmed
          end in
        let popped := pop_entries indent indentStack in
        if hasNestedContent afterColon then mkEntry indent key :: popped else popped
    end.

(** The loop over the lines before the cursor: [count] lines are read, and
    reading past the last line throws. *)
Fixpoint replay (count : nat) (lines : list string) (indentStack : list entry)
  : outcome (list entry) :=
  match count with
  | O => Ok indentStack
  | S count' =>
      match lines with
      | [] => Throws
      | ln :: rest => replay count' rest (context_line ln indentStack)
      end
  end.

(** [lines[i] || ''] for an integer [i]. *)
Definition line_at (lines : list string) (i : Z) : string :=
  if (i <? 0)%Z then "" else nth (Z.to_nat i) lines "".

Record context : Type := mkContext {
  path : list string;
  c_indent : Z
}.

(** [getContext(lines, cursorLine)] *)
Definition getContext (lines : list string) (cursorLine : Z) : outcome context :=
  indentStack <- replay (Z.to_nat (cursorLine - 1)) lines [root_entry] ;;
  let currentLine := line_at lines (cursorLine - 1) in
  let currentIndent :=
    if (search_nonws currentLine <? 0)%Z then Z.of_nat (String.length currentLine)
    else search_nonws currentLine in
  let final := pop_entries currentIndent indentStack in
  Ok (mkContext (rev (map e_key (removelast final))) (e_indent (hd root_entry final))).

(** [priorityList.indexOf(a)] *)
Fixpoint index_in (a : string) (l : list string) (i : Z) : Z :=
  match l with
  | [] => (-1)%Z
  | x :: t => if String.eqb x a then i else index_in a t (i + 1)%Z
  end.

(** Where the walk along the path stands: at the root table, at a schema
    node, or at [undefined]. *)
Inductive position : Type :=
| AtRoot
| AtNode (n : SchemaNode)
| AtUndefined.

(** Lines 1427-1434: one step of the walk.  At a node without children the
    source reads [schema[key]], which is a schema node only at the root; a
    key that names a field of the node or an inherited property leads out of
    the schema and is not followed. *)
Definition walk_step (pos : position) (key : string) : outcome position :=
  match pos with
  | AtUndefined => Ok AtUndefined
  | AtRoot =>
      found <- lookup_key DockerComposeSchema key ;;
      match found with
      | Some n => Ok (AtNode n)
      | None => Ok AtRoot
      end
  | AtNode n =>
      match children n with
      | Some cs =>
          found <- lookup_key cs key ;;
          match found, assoc "*" cs with
          | Some c, _ | None, Some c => Ok (AtNode c)
          | None, None => Ok AtUndefined
          end
      | None =>
          if mem key node_field_names || mem key object_prototype_names
          then Unmodelled else Ok (AtNode n)
      end
  end.

(** The loop of the walk; it stops at [undefined]. *)
Fixpoint walk (pos : position) (keys : list string) : outcome position :=
  match keys with
  | [] => Ok pos
  | key :: rest =>
      next <- walk_step pos key ;;
      match next with
      | AtUndefined => Ok AtUndefined
      | _ => walk next rest
      end
  end.

Definition in_services (path : list string) (lastKey : string) : list string :=
  if Nat.eqb (List.length path) 2 then serviceKeyPriority
  else if String.eqb lastKey "deploy" then deployKeyPriority
  else if String.eqb lastKey "healthcheck" then healthcheckKeyPriority
  else if String.eqb lastKey "resources" then resourcesKeyPriority
  else if String.eqb lastKey "placement" then placementKeyPriority
  else if String.eqb lastKey "update_config" || String.eqb lastKey "rollback_config"
  then updateConfigKeyPriority
  else if String.eqb lastKey "restart_policy" then restartPolicyKeyPriority
  else if String.eqb lastKey "build" then buildKeyPriority
  else if String.eqb lastKey "logging" then loggingKeyPriority
  else if String.eqb lastKey "limits" || String.eqb lastKey "reservations"
  then ["cpus"; "memory"; "pids"; "generic_resources"]
  else serviceKeyPriority.

(** Lines 1384-1424: the priority list of a path. *)
Definition priority_of (path : list string) : list string :=
  let lastKey := last path "" in
  match path with
  | [] => topLevelKeyPriority
  | first :: _ =>
      if String.eqb first "services" && Nat.leb 2 (List.length path)
      then in_services path lastKey
      else if String.eqb first "networks" && Nat.leb 2 (List.length path)
      then networkKeyPriority
      else if String.eqb first "volumes" && Nat.leb 2 (List.length path)
      then volumeKeyPriority
      else if (String.eqb first "secrets" || String.eqb first "configs")
              && Nat.leb 2 (List.length path)
      then secretKeyPriority
      else topLevelKeyPriority
  end.

Section Locale.

(** [a.localeCompare(b)]: given by the host and its locale. *)
Variable localeCompare : string -> string -> Z.

Definition priority_compare (priorityList : list string) (a b : string) : Z :=
  let aIdx := index_in a priorityList 0 in
  let bIdx := index_in b priorityList 0 in
  if negb (aIdx =? -1)%Z && negb (bIdx =? -1)%Z then (aIdx - bIdx)%Z
  else if negb (aIdx =? -1)%Z then (-1)%Z
  else if negb (bIdx =? -1)%Z then 1%Z
  else localeCompare a b.

(** [sortByPriority(keys, priorityList)] *)
Definition sortByPriority (keys priorityList : list string) : list string :=
  sort (priority_compare priorityList) keys.

(** [getKeySuggestions(context)] *)
Definition getKeySuggestions (ctx : context) : outcome (list suggestion) :=
  let priorityList := priority_of (path ctx) in
  pos <- walk AtRoot (path ctx) ;;
  match pos with
  | AtUndefined =>
      let keys := filter (fun k => negb (String.eqb k "x")) (map fst DockerComposeSchema) in
      Ok (map (fun key => mkSuggestion key KeySuggestion
                            (description (static DockerComposeSchema key)))
              (sortByPriority keys priorityList))
  | AtNode n =>
      match children n with
      | Some cs =>
          let keys := filter (fun k => negb (String.eqb k "*")) (map fst cs) in
          Ok (map (fun key => mkSuggestion key KeySuggestion (description (static cs key)))
                  (sortByPriority keys priorityList))
      | None => Ok []
      end
  | AtRoot => Ok []
  end.

(** [getValueSuggestions(context, key)] *)
Definition getValueSuggestions (ctx : context) (key : string) : outcome (list suggestion) :=
  pos <- walk AtRoot (path ctx) ;;
  match pos with
  | AtNode n =>
      match children n with
      | Some cs =>
          found <- lookup_key cs key ;;
          match found with
          | Some keySchema =>
              match values keySchema with
              | Some vals =>
                  Ok (map (fun val => mkSuggestion val ValueSuggestion
                                        (Some ("Valid value for " ++ key))) vals)
              | None => Ok []
              end
          | None => Ok []
          end
      | None => Ok []
      end
  | _ => Ok []
  end.

(** The maximal run of characters that are not white space at the head of
    a string, and what follows it. *)
Fixpoint nonws_run (s : string) : string * string :=
  match s with
  | EmptyString => (EmptyString, EmptyString)
  | String c t =>
      if is_ws c then (EmptyString, s)
      else let '(r, rest) := nonws_run t in (String c r, rest)
  end.

(** The largest index from [1] on at which [s] has a colon. *)
Fixpoint last_colon_from (s : string) (i : nat) : option nat :=
  match s with
  | EmptyString => None
  | String c t =>
      match last_colon_from t (S i) with
      | Some k => Some k
      | None => if Ascii.eqb c ":"%char && Nat.ltb 0 i then Some i else None
      end
  end.

(** The first group of [/^\s*(\S+)\s*:/]: the longest head of the first run
    of non-blank characters that white space and a colon follow. *)
Definition value_key_match (beforeCursor : string) : option string :=
  let '(run, rest) := nonws_run (trimStart beforeCursor) in
  if String.eqb run "" then None
  else if startsWith (trimStart rest) ":" then Some run
  else match last_colon_from run 0 with
       | Some k => Some (take k run)
       | None => None
       end.

(** [beforeCursor.trim().replace(/^-\s*/, '')] *)
Definition strip_dash (trimmed : string) : string :=
  if startsWith trimmed "-" then trimStart (drop 1 trimmed) else trimmed.

Definition starts (lower : string) (s : suggestion) : bool :=
  startsWith (toLowerCase (label s)) lower.

Definition matches (lower : string) (s : suggestion) : bool :=
  starts lower s || includes (toLowerCase (label s)) lower.

(** The comparison function of lines 1314-1320. *)
Definition starts_first (lower : string) (a b : suggestion) : Z :=
  if starts lower a && negb (starts lower b) then (-1)%Z
  else if negb (starts lower a) && starts lower b then 1%Z
  else 0%Z.

(** Lines 1303-1305: what is already typed. *)
Definition typed_fragment (beforeCursor : string) : string :=
  if includes beforeCursor ":"
  then trim (last (split ":"%char beforeCursor) "")
  else strip_dash (trim beforeCursor).

(** Lines 1284-1300: the suggestions before they are filtered. *)
Definition candidates (lines : list string) (cursorLine cursorCol : Z)
  : outcome (list suggestion) :=
  let currentLine := line_at lines (cursorLine - 1) in
  let beforeCursor := slice_0 currentLine cursorCol in
  ctx <- getContext lines cursorLine ;;
  let indent := search_nonws currentLine in
  let isAfterColon := includes beforeCursor ":" in
  let isStartOfKey :=
    negb isAfterColon
    && ((indent =? 0)%Z || String.eqb (trim beforeCursor) ""
        || startsWith (trim beforeCursor) "-") in
  if isStartOfKey || (negb isAfterColon && Nat.ltb 0 (String.length (trim beforeCursor)))
  then getKeySuggestions ctx
  else if isAfterColon then
    match value_key_match beforeCursor with
    | Some key => getValueSuggestions ctx key
    | None => Ok []
    end
  else Ok [].

(** Lines 1307-1323: filter by the fragment, order, and cut at 15. *)
Definition narrow (typed : string) (suggestions : list suggestion) : list suggestion :=
  let filtered :=
    if String.eqb typed "" then suggestions
    else
      let lower := toLowerCase typed in
      sort (starts_first lower) (filter (matches lower) suggestions) in
  firstn 15 filtered.

(** [getSuggestions(text, cursorLine, cursorCol)] *)
Definition getSuggestions (text : string) (cursorLine cursorCol : Z)
  : outcome (list suggestion) :=
  let lines := split newline text in
  suggestions <- candidates lines cursorLine cursorCol ;;
  let beforeCursor := slice_0 (line_at lines (cursorLine - 1)) cursorCol in
  Ok (narrow (typed_fragment beforeCursor) suggestions).

End Locale.

End AutocompleteEngine.

(** ** The syntax tokenizer *)

Module YamlTokenizer.

Import Js YamlParser.

Inductive token_type : Type :=
| TWhitespace
| TIndent
| TComment
| TListMarker
| TKey
| TColon
| TValueString
| TValueMultiline
| TValueBoolean
| TValueNull
| TValueNumber
| TValueQuoted
| TValueInline.

(** The [comment] field of a value token: [{ value, start, end }]. *)
Record comment_span : Type := mkComment {
  c_value : string;
  c_start : nat;
  c_end : nat
}.

(** A token: [{ type, value, start, end }], and for a value token the
    [comment] field, [null] when there is no inline comment. *)
Record token : Type := mkToken {
  t_type : token_type;
  t_value : string;
  t_start : nat;
  t_end : nat;
  t_comment : option comment_span
}.

(** A line terminator below 256: what the dot of a regular expression does
    not match. *)
Definition is_terminator (c : ascii) : bool :=
  Nat.eqb (nat_of_ascii c) 10 || Nat.eqb (nat_of_ascii c) 13.

(** A greedy run of dots at the head of a string: the characters up to the
    first line terminator. *)
Fixpoint dot_star (s : string) : string :=
  match s with
  | EmptyString => EmptyString
  | String c t => if is_terminator c then EmptyString else String c (dot_star t)
  end.

Definition no_terminator (s : string) : bool := all_chars (fun c => negb (is_terminator c)) s.

(** The two groups of the inline-comment pattern of [tokenizeValue] (line
    917) on [value]: a first group, white space, and a second group that
    starts with [#] and runs to the end.  The first group is a
    run without [#] and one more character that is not white space; that
    character may be the first [#] itself, which the matcher tries first,
    taking the longest run.  Otherwise the first group ends at the last
    character that is not white space before the first [#].  What follows
    the [#] of the second group must reach the end of the string without a
    line terminator. *)
Definition comment_match (value : string) : option (string * string) :=
  match indexOf value "#" with
  | None => None
  | Some i =>
      let after := drop (S i) value in
      let ws := leading_ws after in
      if Nat.ltb 0 ws && startsWith (drop ws after) "#"
         && no_terminator (drop (S ws) after)
      then Some (take (S i) value, drop ws after)
      else
        let before := take i value in
        let group := trimEnd before in
        if negb (String.eqb group "")
           && Nat.ltb (String.length group) (String.length before)
           && no_terminator after
        then Some (group, drop i value)
        else None
  end.

(** Lines 923-938: the type of a value. *)
Definition value_type (trimmed : string) : token_type :=
  if String.eqb trimmed "" || String.eqb trimmed "|" || String.eqb trimmed ">"
     || String.eqb trimmed "|-" || String.eqb trimmed ">-" then TValueMultiline
  else if String.eqb trimmed "true" || String.eqb trimmed "false"
          || String.eqb trimmed "True" || String.eqb trimmed "False" then TValueBoolean
  else if String.eqb trimmed "null" || String.eqb trimmed "Null"
          || String.eqb trimmed "~" then TValueNull
  else if is_int_literal trimmed || is_decimal_literal trimmed then TValueNumber
  else if startsWith trimmed dq || startsWith trimmed "'" then TValueQuoted
  else if startsWith trimmed "[" || startsWith trimmed "{" then TValueInline
  else TValueString.

(** [tokenizeValue(value, start)] *)
Definition tokenizeValue (value : string) (start : nat) : token :=
  let split_off :=
    match comment_match value with
    | Some (group, comment) =>
        if negb (startsWith value dq) && negb (startsWith value "'")
        then Some (group, comment) else None
    | None => None
    end in
  let actualValue := match split_off with Some (group, _) => group | None => value end in
  mkToken (value_type (trim actualValue)) actualValue start
          (start + String.length actualValue)
          match split_off with
          | Some (_, comment) =>
              Some (mkComment comment
                      (start + match indexOf value comment with Some i => i | None => 0 end)
                      (start + String.length value))
          | None => None
          end.

Definition plain (type : token_type) (value : string) (start : nat) : token :=
  mkToken type value start (start + String.length value) None.

(** Lines 880-910: a key with its colon and value, or a value alone, from
    position [pos] of the line. *)
Definition key_or_value (remaining : string) (pos : nat) : list token :=
  match indexOf remaining ":" with
  | Some (S m) =>
      let key := take (S m) remaining in
      let after := drop (S (S m)) remaining in
      let space := take (leading_ws after) after in
      let value := dot_star (drop (leading_ws after) after) in
      ([plain TKey key pos; plain TColon ":" (pos + String.length key)]
       ++ (if String.eqb space "" then []
           else [plain TWhitespace space (pos + String.length key + 1)])
       ++ (if String.eqb value "" then []
           else [tokenizeValue value (pos + String.length key + 1 + String.length space)]))%list
  | _ => [tokenizeValue remaining pos]
  end.

(** [tokenizeLine(line, lineNum)] *)
Definition tokenizeLine (ln : string) (lineNum : nat) : list token :=
  if String.eqb (trim ln) "" then [plain TWhitespace ln 0]
  else
    let pos := leading_ws ln in
    let lead := if Nat.ltb 0 pos then [plain TIndent (take pos ln) 0] else [] in
    let rest := drop pos ln in
    if startsWith rest "#" then (lead ++ [plain TComment rest pos])%list
    else if startsWith rest "- " then
      (lead ++ plain TListMarker "- " pos :: key_or_value (drop (pos + 2) ln) (pos + 2))%list
    else if String.eqb rest "-" then (lead ++ [plain TListMarker "-" pos])%list
    else (lead ++ key_or_value (drop pos ln) pos)%list.

Fixpoint tokenize_from (i : nat) (lines : list string) : list (list token) :=
  match lines with
  | [] => []
  | ln :: rest => tokenizeLine ln i :: tokenize_from (S i) rest
  end.

(** [tokenize(text)] *)
Definition tokenize (text : string) : list (list token) :=
  tokenize_from 0 (split newline text).

End YamlTokenizer.

(** ** The editor: validation of the text *)

Module DockerYamlEditor.

Import Js YamlParser DockerComposeValidator.

(** The fields [_validate] sets: [_parseErrors], [_errors] and [_isValid]. *)
Record validation : Type := mkValidation {
  _parseErrors : list diagnostic;
  _errors : list diagnostic;
  _isValid : bool
}.

(** [e.severity === 'error' || !e.severity] *)
Definition counts_as_error (e : diagnostic) : bool :=
  match severity e with
  | Some SevError => true
  | Some SevWarning => false
  | None => true
  end.

(** [_validate()] on the text [value] of the editor; the updates of the view
    and the event it emits are left out. *)
Definition _validate (value : string) : outcome validation :=
  parseResult <- parse value ;;
  errors <- validate value (data parseResult) ;;
  let allErrors := (parse_errors parseResult ++ errors)%list in
  Ok (mkValidation (parse_errors parseResult) errors
        (Nat.eqb (List.length (filter counts_as_error allErrors)) 0)).

(** [getErrors()] *)
Definition getErrors (v : validation) : list diagnostic :=
  (_parseErrors v ++ _errors v)%list.

End DockerYamlEditor.

(** ** Vocabulary of the properties *)

Module Spec.

Import Js YamlParser DockerComposeValidator.

(** A content line: one the line loop of [parse] does not skip. *)
Definition is_content (ln : string) : bool :=
  negb (String.eqb (trim ln) "" || startsWith (trim ln) "#").

(** The indentation unit after the lines [lines], from the unit [u]. *)
Definition unit_after (lines : list string) (u : Z) : Z :=
  fold_left (fun u ln => if is_content ln then detect_unit u (search_nonws ln) else u)
            lines u.

(** An indentation-jump diagnostic. *)
Definition is_jump (d : diagnostic) : bool :=
  startsWith (message d) "Indentation increased by ".

Definition at_line (n : nat) (d : diagnostic) : bool := Nat.eqb (line d) n.

(** A diagnostic that says a service lacks both image and build. *)
Definition is_missing_image (serviceName : string) (d : diagnostic) : bool :=
  String.eqb (message d) (missing_image_message serviceName).

(** The diagnostic for a line that is neither a list item nor a key. *)
Definition no_severity (n : nat) : diagnostic :=
  mkDiag n 1 invalid_syntax_message None None None.

(** The diagnostics of the parser: an error, or the one diagnostic that
    carries no severity. *)
Definition parser_shape (d : diagnostic) : Prop :=
  severity d = Some SevError
  \/ (severity d = None /\ message d = invalid_syntax_message).

(** A diagnostic with a severity field. *)
Definition has_severity (d : diagnostic) : Prop :=
  severity d = Some SevError \/ severity d = Some SevWarning.

(** A diagnostic that is not about a missing image, whatever the service. *)
Definition not_missing_image (d : diagnostic) : Prop :=
  forall serviceName, is_missing_image serviceName d = false.

(** What the diagnostics of the nested walk look like: warnings, on a line
    found from offset 0, none of them about a missing image. *)
Definition nested_shape (lines : list string) (d : diagnostic) : Prop :=
  severity d = Some SevWarning
  /\ (exists key, line d = findKeyLine lines key 0)
  /\ forall serviceName, is_missing_image serviceName d = false.


End Spec.

(** ** The frames of the parser, as an invariant *)

Module Frames.
Import Js YamlParser.

(** Every frame of the stack leads to a container of the tree, and the path
    of a frame extends the path of the frame below it. *)
Definition leads_to_container (d : value) (f : frame) : Prop :=
  exists c, lookup (f_obj f) d = Some c /\ is_object c = true.

Fixpoint nested (st : list frame) : Prop :=
  match st with
  | f :: ((g :: _) as rest) =>
      (exists ext, f_obj f = (f_obj g ++ ext)%list) /\ nested rest
  | _ => True
  end.

Definition well_formed (st : pstate) : Prop :=
  is_object (result st) = true
  /\ stack st <> []
  /\ Forall (leads_to_container (result st)) (stack st)
  /\ nested (stack st).

(** A run that the embedding describes returns a result with [P].  A run
    that leaves the embedding ([Unmodelled]) is not spoken of: the program
    may return there, and it may throw. *)
Definition returns_if_modelled {A : Type} (P : A -> Prop) (c : outcome A) : Prop :=
  match c with
  | Ok a => P a
  | Throws => False
  | Unmodelled => True
  end.

End Frames.

(** ** Concrete inputs *)

Module Scenario.
Import Js.
(** The text whose lines are [lines]. *)
Definition text_of (lines : list string) : string := String.concat nl lines.

(** Scenario D: the cursor is on line 4, a line of six spaces. *)
Definition scenario_D : string :=
  text_of ["services:"; "  web:"; "    deploy:"; "      "].
End Scenario.

Module Inputs.
Import Js YamlParser Scenario.

(** A quoted literal: the value of [a] is the string "true". *)
Definition quoted_literal : string := "a: 'true'".

(** A list item under a mapping. *)
Definition item_under_mapping : string := text_of ["a: 1"; "- b"].

(** A value that extends an enumerated value without a placeholder. *)
Definition extended_enum : string :=
  text_of ["services:"; "  web:"; "    image: nginx"; "    restart: nope"].


(** A line that is neither a list item nor a key. *)
Definition bare_word : string := "foo".

(** Services written as a list, and a root key named like its first index. *)
Definition listed_services : string :=
  text_of ["services:"; "  - foo: 1"; "0: x"].


(** A service with an empty [image:] line. *)
Definition empty_image : string := text_of ["services:"; "  web:"; "    image:"].

(** A service without image and build. *)
Definition no_image : string := text_of ["services:"; "  web:"; "    restart: always"].

(** A key being typed inside a service. *)
Definition typing_key : string := text_of ["services:"; "  web:"; "    re"].

(** A comparison that holds every two strings equal. *)
Definition flat_compare (a b : string) : Z := 0%Z.

(** What [getSuggestions] returns for [typing_key] at line 3, column 6. *)
Definition typing_key_suggestions : list AutocompleteEngine.suggestion :=
  match AutocompleteEngine.getSuggestions flat_compare typing_key 3 6 with
  | Ok suggestions => suggestions
  | _ => []
  end.

End Inputs.

Module MoreInputs.
Import Js YamlParser Scenario.

(** A version that is a mapping with a key named like the conversion to a
    string. *)
Definition version_mapping : string := text_of ["version:"; "  toString: 1"].

(** A plain key line. *)
Definition image_line : string := "  image: nginx".


(** A line that begins with a tab, under a key. *)
Definition tabbed : string := text_of ["a:"; String tab_char "b: 1"].



(** A text of plain keys. *)
Definition small_service : string :=
  text_of ["services:"; "  web:"; "    image: nginx"; "    ports:"; "      - 80:80"].

End MoreInputs.

Module TokenSpec.
Import YamlTokenizer.

(** The tokens follow one another: each starts where the one before ends. *)
Fixpoint contiguous (pos : nat) (ts : list token) : Prop :=
  match ts with
  | [] => True
  | t :: rest => t_start t = pos /\ contiguous (t_end t) rest
  end.

(** A token sits where it says: its value is the text of the line from its
    start to its end. *)
Definition located (ln : string) (t : token) : Prop :=
  t_end t = t_start t + String.length (t_value t)
  /\ t_value t = take (String.length (t_value t)) (drop (t_start t) ln).

(** A string that is a head of another. *)
Definition head_of (a s : string) : Prop := a = take (String.length a) s.

(** A character that is neither [#] nor a line terminator. *)
Definition plain_char (c : ascii) : bool :=
  negb (Ascii.eqb c "#"%char) && negb (is_terminator c).

(** The text the tokens spell, one value after the other. *)
Definition spell (ts : list token) : string :=
  fold_right (fun t rest => t_value t ++ rest) "" ts.

End TokenSpec.

(** ** Vocabulary of the completion engine *)

Module CompletionSpec.

Import AutocompleteEngine.

(** The entries of a stack have indents that fall strictly from the top to
    the root entry, which comes last. *)
Fixpoint descending (st : list entry) : Prop :=
  match st with
  | [] => False
  | e :: rest =>
      match rest with
      | [] => e = root_entry
      | e' :: _ => (e_indent e' < e_indent e)%Z /\ descending rest
      end
  end.

(** The indent [getContext] gives the line of the cursor. *)
Definition cursor_indent (lines : list string) (cursorLine : Z) : Z :=
  let currentLine := line_at lines (cursorLine - 1) in
  if (search_nonws currentLine <? 0)%Z then Z.of_nat (String.length currentLine)
  else search_nonws currentLine.

(** The key [a] may stand before the key [b] in a list ordered by the
    priority list [pl]: when [b] is listed, so is [a], and no later. *)
Definition ranks_before (pl : list string) (a b : string) : Prop :=
  index_in b pl 0 <> (-1)%Z ->
  index_in a pl 0 <> (-1)%Z /\ (index_in a pl 0 <= index_in b pl 0)%Z.

(** The kind of suggestion the text before the cursor calls for. *)
Definition kind_for (beforeCursor : string) : suggestion_type :=
  if includes beforeCursor ":" then ValueSuggestion else KeySuggestion.

End CompletionSpec.

(** ** Vocabulary of the validator's line search *)

Module SearchSpec.

Import DockerComposeValidator.

(** What [findKeyLine] returns from the offset [start]: the number of the
    first line from that offset on that matches the key pattern, or
    [start + 1] when no such line matches. *)
Definition first_match_from (lines : list string) (key : string) (start n : nat) : Prop :=
  (start < n
   /\ (exists ln, nth_error lines (n - 1) = Some ln /\ keyPattern key ln = true)
   /\ forall i ln', start <= i < n - 1 -> nth_error lines i = Some ln' ->
                    keyPattern key ln' = false)
  \/ (n = start + 1
      /\ forall i ln', start <= i -> nth_error lines i = Some ln' ->
                       keyPattern key ln' = false).

End SearchSpec.

(** ** Vocabulary of the parser's properties, continued *)

Module ParserSpec.

Import Js YamlParser.

Definition outcome_map {A B : Type} (f : A -> B) (o : outcome A) : outcome B :=
  match o with
  | Ok a => Ok (f a)
  | Throws => Throws
  | Unmodelled => Unmodelled
  end.

(** A diagnostic with its line set aside. *)
Definition unplace (d : diagnostic) : diagnostic :=
  mkDiag 0 (column d) (message d) (severity d) (validValues d) (validKeys d).

(** A state of the line loop with the lines of its diagnostics set aside. *)
Definition erase (st : pstate) : pstate :=
  mkState (result st) (stack st) (map unplace (errors st)) (indentUnit st) (lastIndent st).

(** What [parse] returns, with the lines of the diagnostics set aside. *)
Definition up_to_lines (o : outcome parse_result) : outcome (value * list diagnostic) :=
  outcome_map (fun r => (data r, map unplace (parse_errors r))) o.

(** The diagnostic about a tab. *)
Definition is_tab (d : diagnostic) : bool := String.eqb (message d) tab_message.

(** The scalars [valueToString] writes in a form [parseValue] reads back:
    [null], the booleans, the integers that a double holds exactly, and the
    strings that are put in quotes and hold no double quote. *)
Definition read_back (v : value) : bool :=
  match v with
  | VNull => true
  | VBool _ => true
  | VNum (NInt z) => (Z.abs z <=? 9007199254740992)%Z
  | VStr s => needs_quotes s && negb (includes s dq)
  | _ => false
  end.

(** A key that the embedding lets a line write into any container: not
    [__proto__], and none of [length], [push] or an index, which are slots
    of a list. *)
Definition plain_key (k : string) : bool :=
  negb (String.eqb k "__proto__" || String.eqb k "length" || String.eqb k "push"
        || is_array_index k).

(** What stands before the first colon of [s], trimmed. *)
Definition key_before_colon (s : string) : option string :=
  match indexOf s ":" with
  | Some i => Some (trim (take i s))
  | None => None
  end.

(** A line whose keys are plain: what stands before its first colon is a
    plain key, and when the line is read as a list item, what stands before
    the first colon of the item is not [__proto__]. *)
Definition tame_line (ln : string) : bool :=
  match key_before_colon (trim ln) with
  | Some k => plain_key k
  | None => true
  end
  && match key_before_colon (trim (drop 2 (trim ln))) with
     | Some k => negb (String.eqb k "__proto__")
     | None => true
     end.

(** Does the tree hold a number that the embedding keeps as a literal? *)
Fixpoint holds_literal (v : value) : bool :=
  match v with
  | VNum (NLit _) => true
  | VArr es ps =>
      existsb holds_literal es || existsb (fun kv => holds_literal (snd kv)) ps
  | VObj ps => existsb (fun kv => holds_literal (snd kv)) ps
  | _ => false
  end.

End ParserSpec.

(** ** Vocabulary of the filter of suggestions *)

Module FragmentSpec.








End FragmentSpec.

(** ** Induction on values *)

Section ValueInduction.

Variable P : value -> Prop.
Hypothesis HNull : P VNull.
Hypothesis HBool : forall b, P (VBool b).
Hypothesis HNum : forall n, P (VNum n).
Hypothesis HStr : forall s, P (VStr s).
Hypothesis HArr : forall es ps,
  Forall P es -> Forall (fun kv => P (snd kv)) ps -> P (VArr es ps).
Hypothesis HObj : forall ps, Forall (fun kv => P (snd kv)) ps -> P (VObj ps).

Fixpoint value_induction (v : value) : P v :=
  let fix elems (l : list value) : Forall P l :=
    match l with
    | [] => Forall_nil P
    | x :: t => Forall_cons x (value_induction x) (elems t)
    end in
  let fix fields (l : list (string * value)) : Forall (fun kv => P (snd kv)) l :=
    match l with
    | [] => Forall_nil _
    | kv :: t => @Forall_cons _ (fun kv => P (snd kv)) kv t (value_induction (snd kv)) (fields t)
    end in
  match v with
  | VNull => HNull
  | VBool b => HBool b
  | VNum n => HNum n
  | VStr s => HStr s
  | VArr es ps => HArr es ps (elems es) (fields ps)
  | VObj ps => HObj ps (fields ps)
  end.

End ValueInduction.

(** * Properties *)

Import Js YamlParser.

Lemma bind_Ok {A B : Type} (c : outcome A) (k : A -> outcome B) (b : B) :
  bind c k = Ok b -> exists a, c = Ok a /\ k a = Ok b.
Proof.
  destruct c as [a| |]; simpl; intros H; try discriminate.
  exists a; split; [reflexivity | exact H].
Qed.

Ltac bind_inv H :=
  let a := fresh "a" in
  let Ha := fresh "Ha" in
  apply bind_Ok in H; destruct H as (a & Ha & H).

(** ** Strings *)

Lemma trimStart_all_ws (s : string) :
  leading_ws s = String.length s -> trimStart s = "".
Proof.
  induction s as [|c t IH]; simpl; [reflexivity|].
  destruct (is_ws c); intros H; [apply IH; lia | discriminate].
Qed.

Lemma search_nonws_content (s : string) :
  trim s <> "" -> (search_nonws s =? -1)%Z = false.
Proof.
  intros H. unfold search_nonws.
  destruct (Nat.eqb_spec (leading_ws s) (String.length s)) as [E|E].
  - exfalso. apply H. unfold trim. rewrite (trimStart_all_ws s E). reflexivity.
  - apply Z.eqb_neq. lia.
Qed.

Lemma search_nonws_nonneg (s : string) :
  (search_nonws s =? -1)%Z = false -> (0 <= search_nonws s)%Z.
Proof.
  unfold search_nonws. destruct (Nat.eqb _ _); [discriminate | lia].
Qed.

Lemma startsWith_dash (s : string) :
  startsWith s "-" = true -> String.eqb s "" = false /\ startsWith s "#" = false.
Proof.
  destruct s as [|c t]; [discriminate|].
  cbn [startsWith]. rewrite andb_true_r.
  destruct (Ascii.eqb_spec c "-"%char) as [E|E]; [subst c|discriminate].
  intros _. split; reflexivity.
Qed.

Lemma startsWith_dash_space (s : string) :
  startsWith s "- " = true -> startsWith s "-" = true.
Proof.
  destruct s as [|c t]; [discriminate|].
  cbn [startsWith]. rewrite andb_true_r.
  destruct (Ascii.eqb c "-"%char); [reflexivity | discriminate].
Qed.

(** ** The line loop of the parser *)

Import Spec.

Lemma list_item_scalars indent trimmed parent target st st' :
  list_item indent trimmed parent target st = Ok st' ->
  errors st' = errors st /\ indentUnit st' = indentUnit st
  /\ lastIndent st' = lastIndent st.
Proof.
  unfold list_item. intros H.
  repeat match type of H with
         | (if ?c then _ else _) = _ => destruct c
         | match ?x with _ => _ end = _ => destruct x
         end;
    try discriminate; injection H as <-; auto.
Qed.

Lemma bare_item_scalars indent parent target st :
  errors (bare_item indent parent target st) = errors st
  /\ indentUnit (bare_item indent parent target st) = indentUnit st
  /\ lastIndent (bare_item indent parent target st) = lastIndent st.
Proof.
  unfold bare_item. destruct (isArray target); auto.
Qed.

Lemma key_value_scalars lineNum indent trimmed rest parent st st' :
  key_value lineNum indent trimmed rest parent st = Ok st' ->
  indentUnit st' = indentUnit st /\ lastIndent st' = lastIndent st
  /\ (errors st' = errors st
      \/ (startsWith trimmed "-" = false
          /\ errors st' = (errors st ++ [no_severity lineNum])%list)).
Proof.
  unfold key_value. intros H.
  destruct (indexOf trimmed ":") as [colonIdx|].
  - destruct (Nat.ltb 0 colonIdx); [|injection H as <-; auto].
    destruct (lookahead rest) as [nextIndent nextIsArray].
    repeat match type of H with
           | (if ?c then _ else _) = _ => destruct c
           | bind _ _ = _ => bind_inv H
           end;
      try discriminate; injection H as <-; auto.
  - destruct (startsWith trimmed "-") eqn:E; injection H as <-; simpl; auto.
Qed.

(** What one line does to the scalar part of the state. *)
Lemma parse_line_scalars lineNum ln rest st st' :
  parse_line lineNum ln rest st = Ok st' ->
  (is_content ln = false /\ st' = st)
  \/ (is_content ln = true
      /\ indentUnit st' = detect_unit (indentUnit st) (search_nonws ln)
      /\ lastIndent st' = search_nonws ln
      /\ exists extra,
          errors st'
          = (errors st ++ tab_errors lineNum ln
             ++ indent_errors lineNum (detect_unit (indentUnit st) (search_nonws ln))
                  (lastIndent st) (search_nonws ln)
             ++ extra)%list
          /\ (extra = [] \/ extra = [err lineNum 1 list_parent_message]
              \/ extra = [no_severity lineNum])).
Proof.
  unfold parse_line, is_content. intros H.
  destruct (String.eqb (trim ln) "" || startsWith (trim ln) "#") eqn:Eskip.
  { left. injection H as <-. auto. }
  right. split; [reflexivity|].
  assert (Hne : trim ln <> "").
  { intros E. rewrite E in Eskip. discriminate. }
  rewrite (search_nonws_content ln Hne) in H.
  destruct (lookup _ (result st)) as [target|]; [|discriminate].
  set (unit := detect_unit (indentUnit st) (search_nonws ln)) in *.
  set (base := (errors st ++ tab_errors lineNum ln
                ++ indent_errors lineNum unit (lastIndent st) (search_nonws ln))%list) in *.
  assert (Hbase : forall extra,
            (base ++ extra)%list
            = (errors st ++ tab_errors lineNum ln
               ++ indent_errors lineNum unit (lastIndent st) (search_nonws ln)
               ++ extra)%list).
  { intros extra. unfold base. rewrite <- !app_assoc. reflexivity. }
  destruct (startsWith (trim ln) "-" && negb (isArray target)) eqn:Emis.
  - (* a dash under a container that is no array *)
    apply andb_prop in Emis. destruct Emis as [Hdash Harr].
    destruct (startsWith (trim ln) "- ").
    + apply list_item_scalars in H. cbn [errors indentUnit lastIndent] in H. destruct H as (He & Hu & Hl).
      repeat split; auto. exists [err lineNum 1 list_parent_message].
      rewrite <- Hbase, He, ?app_nil_r. auto.
    + destruct (String.eqb (trim ln) "-").
      * injection H as <-.
        destruct (bare_item_scalars (search_nonws ln)
                    (top (pop_frames (search_nonws ln) (stack st))) target
                    (mkState (result st) (pop_frames (search_nonws ln) (stack st))
                       (base ++ [err lineNum 1 list_parent_message])%list unit
                       (search_nonws ln))) as (He & Hu & Hl).
        cbn [errors indentUnit lastIndent] in *. repeat split; auto.
        exists [err lineNum 1 list_parent_message]. rewrite <- Hbase, He, ?app_nil_r. auto.
      * apply key_value_scalars in H. cbn [errors indentUnit lastIndent] in H. destruct H as (Hu & Hl & He).
        repeat split; auto. exists [err lineNum 1 list_parent_message].
        destruct He as [He|[Hnd _]]; [|congruence].
        rewrite <- Hbase, He, ?app_nil_r. auto.
  - destruct (startsWith (trim ln) "- ").
    + apply list_item_scalars in H. cbn [errors indentUnit lastIndent] in H. destruct H as (He & Hu & Hl).
      repeat split; auto. exists []. rewrite <- Hbase, He, ?app_nil_r. auto.
    + destruct (String.eqb (trim ln) "-").
      * injection H as <-.
        destruct (bare_item_scalars (search_nonws ln)
                    (top (pop_frames (search_nonws ln) (stack st))) target
                    (mkState (result st) (pop_frames (search_nonws ln) (stack st))
                       base unit (search_nonws ln))) as (He & Hu & Hl).
        cbn [errors indentUnit lastIndent] in *. repeat split; auto.
        exists []. rewrite <- Hbase, He, ?app_nil_r. auto.
      * apply key_value_scalars in H. cbn [errors indentUnit lastIndent] in H. destruct H as (Hu & Hl & He).
        repeat split; auto.
        destruct He as [He|[_ He]].
        -- exists []. rewrite <- Hbase, He, ?app_nil_r. auto.
        -- exists [no_severity lineNum]. rewrite <- Hbase, He, ?app_nil_r. auto.
Qed.

Lemma tab_errors_spec lineNum ln d :
  In d (tab_errors lineNum ln) ->
  line d = lineNum /\ severity d = Some SevError /\ is_jump d = false.
Proof.
  unfold tab_errors. destruct (indexOf ln _); simpl; [|tauto].
  intros [<-|[]]. auto.
Qed.



Lemma indent_errors_spec lineNum unit last indent d :
  In d (indent_errors lineNum unit last indent) ->
  line d = lineNum /\ severity d = Some SevError.
Proof.
  unfold indent_errors.
  destruct ((0 <? unit)%Z && (0 <? indent)%Z); [|intros []].
  intros H. apply in_app_or in H.
  destruct H as [H|H];
    [destruct (negb (Z.rem indent unit =? 0)%Z)
    |destruct ((last + unit <? indent)%Z && (0 <=? last)%Z)];
    simpl in H; try tauto; destruct H as [<-|[]]; auto.
Qed.

Lemma parse_line_new lineNum ln rest st st' :
  parse_line lineNum ln rest st = Ok st' ->
  exists new, errors st' = (errors st ++ new)%list
              /\ Forall (fun d => line d = lineNum /\ parser_shape d) new.
Proof.
  intros H. apply parse_line_scalars in H.
  destruct H as [[_ ->]|(_ & _ & _ & extra & He & Hx)].
  - exists []. rewrite app_nil_r. auto.
  - eexists. split; [exact He|].
    apply Forall_app; split; [|apply Forall_app; split].
    + apply Forall_forall. intros d Hd. apply tab_errors_spec in Hd.
      unfold parser_shape. tauto.
    + apply Forall_forall. intros d Hd. apply indent_errors_spec in Hd.
      unfold parser_shape. tauto.
    + destruct Hx as [->|[->| ->]].
      * constructor.
      * constructor; [|constructor]. split; [reflexivity|]. left. reflexivity.
      * constructor; [|constructor]. split; [reflexivity|]. right. split; reflexivity.
Qed.

Lemma parse_lines_new lines : forall lineNum st st',
  parse_lines lineNum lines st = Ok st' ->
  exists new, errors st' = (errors st ++ new)%list
              /\ Forall (fun d => lineNum <= line d < lineNum + List.length lines
                                  /\ parser_shape d) new.
Proof.
  induction lines as [|ln rest IH]; intros lineNum st st' H.
  - injection H as <-. exists []. rewrite app_nil_r. auto.
  - cbn [parse_lines] in H. bind_inv H.
    apply parse_line_new in Ha. destruct Ha as (new1 & E1 & F1).
    apply IH in H. destruct H as (new2 & E2 & F2).
    exists (new1 ++ new2)%list. split.
    + rewrite E2, E1, app_assoc. reflexivity.
    + apply Forall_app; split.
      * eapply Forall_impl; [|exact F1]. simpl. intros d [-> Hs]. split; [lia|exact Hs].
      * eapply Forall_impl; [|exact F2]. simpl. intros d [Hl Hs]. split; [lia|exact Hs].
Qed.


(** The state after a prefix of the lines. *)
Lemma parse_lines_prefix pre : forall lineNum tail st st',
  parse_lines lineNum (pre ++ tail) st = Ok st' ->
  exists st1 new,
    parse_lines (lineNum + List.length pre) tail st1 = Ok st'
    /\ indentUnit st1 = unit_after pre (indentUnit st)
    /\ errors st1 = (errors st ++ new)%list
    /\ Forall (fun d => line d < lineNum + List.length pre) new.
Proof.
  induction pre as [|ln pre IH]; intros lineNum tail st st' H.
  - exists st, []. simpl. rewrite Nat.add_0_r, app_nil_r. auto.
  - cbn [app parse_lines] in H. bind_inv H.
    apply IH in H. destruct H as (st1 & new & Hrun & Hu & He & F).
    pose proof (parse_line_new _ _ _ _ _ Ha) as (new0 & He0 & F0).
    apply parse_line_scalars in Ha.
    exists st1, (new0 ++ new)%list. repeat split.
    + rewrite <- Hrun. f_equal. simpl. lia.
    + rewrite Hu. cbn [unit_after fold_left].
      destruct Ha as [[-> ->]|(-> & -> & _)]; reflexivity.
    + rewrite He, He0, app_assoc. reflexivity.
    + apply Forall_app; split.
      * eapply Forall_impl; [|exact F0]. simpl. intros d [-> _]. lia.
      * eapply Forall_impl; [|exact F]. simpl. intros d Hd. lia.
Qed.

(** ** The frames of the parser *)

Import Frames.

Lemma lookup_app p : forall r d,
  lookup (p ++ r) d = match lookup p d with Some c => lookup r c | None => None end.
Proof.
  induction p as [|s p IH]; intros r d; [reflexivity|].
  cbn [app lookup]. destruct s as [k|i].
  - destruct d; try reflexivity; destruct (assoc k _); auto.
  - destruct d; try reflexivity. destruct (nth_error _ i); auto.
Qed.

Lemma assoc_map_assoc {A : Type} (k : string) (f : A -> A) (l : list (string * A)) :
  assoc k (map_assoc k f l) = option_map f (assoc k l).
Proof.
  induction l as [|[k' v] l IH]; [reflexivity|]. cbn [map_assoc assoc].
  destruct (String.eqb k k') eqn:E; cbn [assoc]; rewrite E; [reflexivity | exact IH].
Qed.

Lemma nth_error_map_nth {A : Type} (f : A -> A) (l : list A) : forall i,
  nth_error (map_nth i f l) i = option_map f (nth_error l i).
Proof.
  induction l as [|x l IH]; intros [|i]; try reflexivity. cbn [map_nth nth_error]. apply IH.
Qed.

Lemma is_object_update p g d :
  is_object d = true -> (forall t, is_object t = true -> is_object (g t) = true) ->
  is_object (update p g d) = true.
Proof.
  intros Hd Hg. destruct p as [|[k|i] p]; cbn [update]; [apply Hg, Hd | |];
    destruct d; try discriminate; reflexivity.
Qed.

(** Replacing a container by a container keeps every shallower frame on a
    container. *)
Lemma lookup_update_prefix (g : value -> value) q : forall ext d c,
  (forall t, is_object t = true -> is_object (g t) = true) ->
  lookup q d = Some c -> is_object c = true ->
  exists c', lookup q (update (q ++ ext) g d) = Some c' /\ is_object c' = true.
Proof.
  induction q as [|s q IH]; intros ext d c Hg Hl Hc.
  - injection Hl as <-. eexists. split; [reflexivity|]. apply is_object_update; assumption.
  - cbn [app]. destruct s as [k|i]; cbn [lookup update] in *.
    + destruct d; try discriminate;
        (destruct (assoc k props) as [c1|] eqn:Ea; [|discriminate]);
        cbn [lookup]; rewrite assoc_map_assoc, Ea; cbn [option_map];
        eapply IH; eassumption.
    + destruct d; try discriminate.
      destruct (nth_error elems i) as [c1|] eqn:Ea; [|discriminate].
      cbn [lookup]. rewrite nth_error_map_nth, Ea. cbn [option_map].
      eapply IH; eassumption.
Qed.

Lemma lookup_update_same (g : value -> value) p : forall d t,
  lookup p d = Some t -> lookup p (update p g d) = Some (g t).
Proof.
  induction p as [|s p IH]; intros d t Hl.
  - injection Hl as <-. reflexivity.
  - destruct s as [k|i]; cbn [lookup update] in *.
    + destruct d; try discriminate;
        (destruct (assoc k props) as [c1|] eqn:Ea; [|discriminate]);
        cbn [lookup]; rewrite assoc_map_assoc, Ea; cbn [option_map]; apply IH, Hl.
    + destruct d; try discriminate.
      destruct (nth_error elems i) as [c1|] eqn:Ea; [|discriminate].
      cbn [lookup]. rewrite nth_error_map_nth, Ea. cbn [option_map]. apply IH, Hl.
Qed.

Lemma nested_prefix_of_top f st :
  nested (f :: st) -> Forall (fun g => exists ext, f_obj f = (f_obj g ++ ext)%list) (f :: st).
Proof.
  revert f. induction st as [|g st IH]; intros f Hn.
  - constructor; [|constructor]. exists []. rewrite app_nil_r. reflexivity.
  - destruct Hn as [[ext He] Hn]. constructor.
    + exists []. rewrite app_nil_r. reflexivity.
    + specialize (IH g Hn). eapply Forall_impl; [|exact IH].
      cbn beta. intros h [ext' He']. exists (ext' ++ ext)%list.
      rewrite He, He', app_assoc. reflexivity.
Qed.

Lemma pop_frames_sublist indent st :
  exists dropped, st = (dropped ++ pop_frames indent st)%list.
Proof.
  induction st as [|f st IH]; [exists []; reflexivity|].
  cbn [pop_frames]. destruct st as [|g st]; [exists []; reflexivity|].
  destruct (indent <=? f_indent f)%Z; [|exists []; reflexivity].
  destruct IH as [dropped IH]. exists (f :: dropped). cbn [app]. rewrite <- IH. reflexivity.
Qed.

Lemma nested_tail pre st : nested (pre ++ st) -> nested st.
Proof.
  induction pre as [|f pre IH]; [auto|]. cbn [app]. intros H.
  apply IH. destruct (pre ++ st)%list; [exact I | apply H].
Qed.

Lemma pop_frames_well_formed indent d st :
  Forall (leads_to_container d) st -> nested st ->
  Forall (leads_to_container d) (pop_frames indent st) /\ nested (pop_frames indent st).
Proof.
  intros F N. destruct (pop_frames_sublist indent st) as [dropped E].
  rewrite E in F, N. split.
  - apply Forall_app in F. apply F.
  - eapply nested_tail. exact N.
Qed.

(** The state after a write into the container on top of the stack. *)
Lemma write_well_formed (g : value -> value) d st :
  is_object d = true ->
  st <> [] ->
  Forall (leads_to_container d) st -> nested st ->
  (forall t, is_object t = true -> is_object (g t) = true) ->
  is_object (update (f_obj (top st)) g d) = true
  /\ Forall (leads_to_container (update (f_obj (top st)) g d)) st.
Proof.
  intros Hd Hne F N Hg. split; [apply is_object_update; assumption|].
  destruct st as [|f st]; [contradiction|]. cbn [top hd].
  pose proof (nested_prefix_of_top f st N) as P.
  apply Forall_forall. intros h Hh.
  rewrite Forall_forall in F, P.
  destruct (F h Hh) as (c & Hl & Hc). destruct (P h Hh) as [ext He].
  rewrite He. eapply lookup_update_prefix; eassumption.
Qed.

Lemma assoc_replace {A : Type} (k : string) (v : A) (l : list (string * A)) :
  has_key k l = true -> assoc k (replace_assoc k v l) = Some v.
Proof.
  unfold has_key. induction l as [|[k' v'] l IH]; [discriminate|].
  cbn [assoc replace_assoc]. destruct (String.eqb k k') eqn:E; cbn [assoc]; rewrite E; auto.
Qed.

Lemma assoc_insert_index {A : Type} (k : string) (v : A) (l : list (string * A)) :
  has_key k l = false -> assoc k (insert_index k v l) = Some v.
Proof.
  unfold has_key. induction l as [|[k' v'] l IH]; intros H.
  - cbn [insert_index assoc]. rewrite String.eqb_refl. reflexivity.
  - cbn [assoc] in H. destruct (String.eqb k k') eqn:E; [discriminate|].
    cbn [insert_index]. destruct (_ && _); cbn [assoc].
    + rewrite E. apply IH, H.
    + rewrite String.eqb_refl. reflexivity.
Qed.

Lemma assoc_app_new {A : Type} (k : string) (v : A) (l : list (string * A)) :
  has_key k l = false -> assoc k (l ++ [(k, v)]) = Some v.
Proof.
  unfold has_key. induction l as [|[k' v'] l IH]; intros H; cbn [app assoc].
  - rewrite String.eqb_refl. reflexivity.
  - cbn [assoc] in H. destruct (String.eqb k k'); [discriminate | apply IH, H].
Qed.

Lemma assoc_set_own {A : Type} (k : string) (v : A) (l : list (string * A)) :
  assoc k (set_own k v l) = Some v.
Proof.
  unfold set_own. destruct (has_key k l) eqn:E; [apply assoc_replace, E|].
  destruct (is_array_index k); [apply assoc_insert_index, E | apply assoc_app_new, E].
Qed.

Lemma set_prop_spec t key v t' :
  set_prop t key v = Ok t' ->
  is_object t' = true /\ lookup [SKey key] t' = Some v.
Proof.
  unfold set_prop. destruct t; try discriminate.
  - destruct (_ || _); [discriminate|]. intros H. injection H as <-.
    cbn [is_object lookup]. rewrite assoc_set_own. auto.
  - destruct (String.eqb key "__proto__"); [discriminate|]. intros H. injection H as <-.
    cbn [is_object lookup]. rewrite assoc_set_own. auto.
Qed.

Lemma set_prop_no_throw t key v :
  is_object t = true -> set_prop t key v <> Throws.
Proof.
  unfold set_prop. destruct t; try discriminate; intros _.
  - destruct (_ || _); discriminate.
  - destruct (String.eqb key "__proto__"); discriminate.
Qed.

Lemma pop_frames_nonempty indent st : st <> [] -> pop_frames indent st <> [].
Proof.
  induction st as [|f st IH]; [auto|]. intros _. cbn [pop_frames].
  destruct st as [|g st]; [discriminate|].
  destruct (indent <=? f_indent f)%Z; [apply IH; discriminate | discriminate].
Qed.

Lemma top_leads d st :
  st <> [] -> Forall (leads_to_container d) st -> leads_to_container d (top st).
Proof.
  destruct st as [|f st]; [contradiction|]. intros _ F. inversion F; assumption.
Qed.

Lemma push_frame_well_formed d st indent ext c :
  st <> [] -> Forall (leads_to_container d) st -> nested st ->
  lookup (f_obj (top st) ++ ext) d = Some c -> is_object c = true ->
  Forall (leads_to_container d) (mkFrame indent (f_obj (top st) ++ ext) :: st)
  /\ nested (mkFrame indent (f_obj (top st) ++ ext) :: st).
Proof.
  intros Hne F N Hl Hc. split.
  - constructor; [|exact F]. exists c. split; assumption.
  - destruct st as [|f st]; [contradiction|]. cbn [nested top hd f_obj].
    split; [exists ext; reflexivity | exact N].
Qed.

Lemma is_object_push x t : is_object t = true -> is_object (push t x) = true.
Proof. destruct t; auto. Qed.

Lemma lookup_appended p d es ps x r :
  lookup p d = Some (VArr es ps) ->
  lookup (p ++ SIdx (List.length es) :: r) (append p x d) = lookup r x.
Proof.
  intros Hl. unfold append. rewrite lookup_app, (lookup_update_same _ _ _ _ Hl).
  cbn [push lookup]. rewrite nth_error_app2 by lia. rewrite Nat.sub_diag. reflexivity.
Qed.

(** Pushing an item, and a frame for it when [ext] leads into it. *)
Lemma append_well_formed d st x :
  is_object d = true -> st <> [] ->
  Forall (leads_to_container d) st -> nested st ->
  is_object (append (f_obj (top st)) x d) = true
  /\ Forall (leads_to_container (append (f_obj (top st)) x d)) st.
Proof.
  intros Hd Hne F N. unfold append. apply write_well_formed; try assumption.
  intros t. apply is_object_push.
Qed.

Lemma assign_well_formed d st key v d' :
  is_object d = true -> st <> [] ->
  Forall (leads_to_container d) st -> nested st ->
  assign (f_obj (top st)) key v d = Ok d' ->
  is_object d' = true
  /\ Forall (leads_to_container d') st
  /\ lookup (f_obj (top st) ++ [SKey key]) d' = Some v.
Proof.
  intros Hd Hne F N H. unfold assign in H.
  destruct (lookup (f_obj (top st)) d) as [target|] eqn:Hl; [|discriminate].
  bind_inv H. injection H as <-. rename a into target'.
  destruct (set_prop_spec _ _ _ _ Ha) as [Ho Hk].
  destruct (write_well_formed (fun _ => target') d st Hd Hne F N (fun _ _ => Ho)) as [H1 H2].
  repeat split; [exact H1 | exact H2 |].
  rewrite lookup_app, (lookup_update_same _ _ _ _ Hl). exact Hk.
Qed.

Lemma assign_no_throw d st key v :
  st <> [] -> Forall (leads_to_container d) st ->
  assign (f_obj (top st)) key v d <> Throws.
Proof.
  intros Hne F. unfold assign.
  destruct (top_leads d st Hne F) as (c & Hl & Hc). rewrite Hl.
  pose proof (set_prop_no_throw c key v Hc) as Hs.
  destruct (set_prop c key v); [discriminate | contradiction | discriminate].
Qed.

Ltac wf_split :=
  unfold well_formed; cbn [result stack]; repeat split; try assumption; try discriminate.

Lemma list_item_well_formed indent trimmed st target :
  well_formed st ->
  lookup (f_obj (top (stack st))) (result st) = Some target ->
  returns_if_modelled well_formed (list_item indent trimmed (top (stack st)) target st).
Proof.
  intros (Hd & Hne & F & N) Hl. unfold list_item.
  destruct (isArray target) eqn:Harr; cbn [negb]; [|wf_split].
  destruct target as [| | | |es ps|]; try discriminate. cbn [array_length].
  destruct (append_well_formed (result st) (stack st) (VObj []) Hd Hne F N) as [A1 A2].
  destruct (String.eqb _ ""); cbn [returns_if_modelled].
  { destruct (push_frame_well_formed _ (stack st) indent [SIdx (List.length es)] (VObj [])
                Hne A2 N) as [B1 B2];
      [apply (lookup_appended _ _ _ _ _ [] Hl) | reflexivity |].
    wf_split. }
  destruct (negb _ && _); cbn [returns_if_modelled].
  2:{ destruct (append_well_formed (result st) (stack st)
                  (parseValue (trim (drop 2 trimmed))) Hd Hne F N) as [C1 C2].
      wf_split. }
  destruct (indexOf _ ":") as [colonIdx|]; cbn [returns_if_modelled]; [|wf_split].
  set (key := trim (take colonIdx (trim (drop 2 trimmed)))).
  set (val := trim (drop (colonIdx + 1) (trim (drop 2 trimmed)))).
  destruct (String.eqb key "__proto__"); cbn [returns_if_modelled]; [exact I|].
  destruct (String.eqb val ""); cbn [returns_if_modelled].
  - destruct (append_well_formed (result st) (stack st) (VObj [(key, VObj [])])
                Hd Hne F N) as [C1 C2].
    destruct (push_frame_well_formed _ (stack st) indent
                [SIdx (List.length es); SKey key] (VObj []) Hne C2 N) as [B1 B2].
    + rewrite (lookup_appended _ _ _ _ _ [SKey key] Hl). cbn [lookup assoc].
      rewrite String.eqb_refl. reflexivity.
    + reflexivity.
    + wf_split.
  - destruct (append_well_formed (result st) (stack st) (VObj [(key, parseValue val)])
                Hd Hne F N) as [C1 C2].
    wf_split.
Qed.

Lemma bare_item_well_formed indent st target :
  well_formed st ->
  lookup (f_obj (top (stack st))) (result st) = Some target ->
  well_formed (bare_item indent (top (stack st)) target st).
Proof.
  intros (Hd & Hne & F & N) Hl. unfold bare_item.
  destruct (isArray target) eqn:Harr; [|wf_split].
  destruct target as [| | | |es ps|]; try discriminate. cbn [array_length].
  destruct (append_well_formed (result st) (stack st) (VObj []) Hd Hne F N) as [A1 A2].
  destruct (push_frame_well_formed _ (stack st) indent [SIdx (List.length es)] (VObj [])
              Hne A2 N) as [B1 B2];
    [apply (lookup_appended _ _ _ _ _ [] Hl) | reflexivity |].
  wf_split.
Qed.

Lemma key_value_well_formed lineNum indent trimmed rest st :
  well_formed st ->
  returns_if_modelled well_formed (key_value lineNum indent trimmed rest (top (stack st)) st).
Proof.
  intros (Hd & Hne & F & N). unfold key_value.
  destruct (indexOf trimmed ":") as [colonIdx|].
  2:{ destruct (negb _); cbn [returns_if_modelled]; wf_split. }
  destruct (Nat.ltb 0 colonIdx); [|cbn [returns_if_modelled]; wf_split].
  destruct (lookahead rest) as [nextIndent nextIsArray].
  set (key := trim (take colonIdx trimmed)).
  assert (Hassign : forall v (k : value -> outcome pstate),
            (forall d', is_object d' = true ->
                        Forall (leads_to_container d') (stack st) ->
                        lookup (f_obj (top (stack st)) ++ [SKey key]) d' = Some v ->
                        returns_if_modelled well_formed (k d')) ->
            returns_if_modelled well_formed (bind (assign (f_obj (top (stack st))) key v (result st)) k)).
  { intros v k Hk.
    pose proof (assign_no_throw (result st) (stack st) key v Hne F) as Hnt.
    destruct (assign _ key v (result st)) as [d'| |] eqn:Ea; cbn [bind returns_if_modelled];
      [|contradiction|exact I].
    destruct (assign_well_formed _ _ _ _ _ Hd Hne F N Ea) as (H1 & H2 & H3).
    apply Hk; assumption. }
  destruct (is_block_marker _).
  - destruct (indent <? nextIndent)%Z.
    + apply Hassign. intros d' H1 H2 H3. cbn [returns_if_modelled].
      destruct (push_frame_well_formed d' (stack st) indent [SKey key] _ Hne H2 N H3)
        as [B1 B2]; [destruct nextIsArray; reflexivity|].
      wf_split.
    + apply Hassign. intros d' H1 H2 H3. cbn [returns_if_modelled]. wf_split.
  - apply Hassign. intros d' H1 H2 H3. cbn [returns_if_modelled]. wf_split.
Qed.

(** One line keeps the frames well formed, on every run the embedding
    describes. *)
Lemma parse_line_well_formed lineNum ln rest st :
  well_formed st -> returns_if_modelled well_formed (parse_line lineNum ln rest st).
Proof.
  intros Hwf. unfold parse_line.
  destruct (_ || _); [exact Hwf|].
  destruct (search_nonws ln =? -1)%Z; [exact Hwf|].
  destruct Hwf as (Hd & Hne & F & N).
  destruct (pop_frames_well_formed (search_nonws ln) _ _ F N) as [F1 N1].
  pose proof (pop_frames_nonempty (search_nonws ln) _ Hne) as Hne1.
  destruct (top_leads _ _ Hne1 F1) as (target & Hl & Hobj). rewrite Hl.
  match goal with
  | |- returns_if_modelled _ (if _ then list_item _ _ _ _ ?s else _) =>
      assert (Hwf2 : well_formed s) by (wf_split);
      set (st2 := s) in *
  end.
  destruct (startsWith (trim ln) "- ").
  - apply (list_item_well_formed _ _ st2 target Hwf2). exact Hl.
  - destruct (String.eqb (trim ln) "-").
    + apply (bare_item_well_formed _ st2 target Hwf2). exact Hl.
    + apply (key_value_well_formed _ _ _ _ st2 Hwf2).
Qed.

Lemma parse_lines_well_formed lines : forall lineNum st,
  well_formed st -> returns_if_modelled well_formed (parse_lines lineNum lines st).
Proof.
  induction lines as [|ln rest IH]; intros lineNum st Hwf; [exact Hwf|].
  cbn [parse_lines].
  pose proof (parse_line_well_formed lineNum ln rest st Hwf) as H.
  destruct (parse_line lineNum ln rest st) as [st'| |]; cbn [bind returns_if_modelled] in *;
    [apply IH; exact H | contradiction | exact I].
Qed.

Lemma initial_well_formed : well_formed initial.
Proof.
  unfold well_formed, initial. cbn [result stack]. repeat split.
  - discriminate.
  - constructor; [|constructor]. exists (VObj []). split; reflexivity.
Qed.

(** At a well-formed state every line finds its enclosing container. *)
Lemma enclosing_container_exists indent st :
  well_formed st ->
  exists target,
    lookup (f_obj (top (pop_frames indent (stack st)))) (result st) = Some target
    /\ is_object target = true.
Proof.
  intros (Hd & Hne & F & N).
  destruct (pop_frames_well_formed indent _ _ F N) as [F1 _].
  apply (top_leads _ _ (pop_frames_nonempty indent _ Hne) F1).
Qed.

(** ** The indentation law *)


Lemma filter_none {A : Type} (f : A -> bool) (l : list A) :
  Forall (fun x => f x = false) l -> filter f l = [].
Proof.
  induction 1 as [|x l Hx _ IH]; simpl; [reflexivity|]. rewrite Hx. exact IH.
Qed.


(** ** The validator *)

Import DockerComposeValidator Schema.

Lemma each_Forall {A : Type} (P : diagnostic -> Prop)
  (f : string -> A -> outcome (list diagnostic)) (l : list (string * A)) :
  (forall k v ds, In (k, v) l -> f k v = Ok ds -> Forall P ds) ->
  forall ds, each f l = Ok ds -> Forall P ds.
Proof.
  induction l as [|[k v] l IH]; intros Hf ds H.
  - injection H as <-. constructor.
  - cbn [each] in H. bind_inv H. bind_inv H. injection H as <-.
    apply Forall_app; split.
    + apply (Hf k v); [left; reflexivity | assumption].
    + apply IH; [|assumption]. intros k' v' ds' Hin. apply Hf. right. exact Hin.
Qed.

Lemma enum_diagnostics_shape config key vals lines :
  Forall (nested_shape lines) (enum_diagnostics config key vals lines).
Proof.
  unfold enum_diagnostics. destruct (_ && _); constructor; [|constructor].
  split; [reflexivity|]. split; [exists key; reflexivity|]. intros n. reflexivity.
Qed.

Lemma validateNestedConfig_shape lines config :
  forall key schema context ds,
    validateNestedConfig config key schema lines context = Ok ds ->
    Forall (nested_shape lines) ds.
Proof.
  induction config as [|b|n|s|es ps _ _|ps IH] using value_induction;
    intros key schema context ds H; cbn [validateNestedConfig isArray] in H.
  - injection H as <-. constructor.
  - destruct (mem key freeFormKeys); [injection H as <-; constructor|].
    destruct (values schema), (children schema); injection H as <-; constructor.
  - destruct (mem key freeFormKeys); [injection H as <-; constructor|].
    destruct (values schema), (children schema); injection H as <-; constructor.
  - destruct (mem key freeFormKeys); [injection H as <-; constructor|].
    destruct (values schema), (children schema); injection H as <-;
      try constructor; apply enum_diagnostics_shape.
  - destruct (mem key freeFormKeys); injection H as <-; constructor.
  - destruct (mem key freeFormKeys); [injection H as <-; constructor|].
    destruct (children schema) as [cs|].
    2:{ destruct (values schema); injection H as <-; constructor. }
    bind_inv H. injection H as <-.
    apply Forall_app; split.
    { destruct (values schema); constructor. }
    revert a Ha.
    induction IH as [|[subKey sub] ps Hsub _ IHps]; intros a Ha.
    + injection Ha as <-. constructor.
    + bind_inv Ha. bind_inv Ha. injection Ha as <-.
      apply Forall_app; split; [|apply IHps; assumption].
      destruct (startsWith subKey "x-"); [injection Ha0 as <-; constructor|].
      destruct (mem subKey freeFormKeys); [injection Ha0 as <-; constructor|].
      bind_inv Ha0.
      destruct a as [subSchema|]; [|destruct (assoc "*" cs) as [subSchema|]].
      * eapply Hsub. exact Ha0.
      * eapply Hsub. exact Ha0.
      * injection Ha0 as <-. constructor; [|constructor].
        split; [reflexivity|]. split; [exists subKey; reflexivity|].
        intros n. reflexivity.
Qed.

Lemma nested_shape_weaken lines d :
  nested_shape lines d -> has_severity d /\ not_missing_image d.
Proof. intros (Hs & _ & Hm). split; [right; exact Hs | exact Hm]. Qed.

Lemma service_key_shape serviceName serviceSchema lines key v ds :
  service_key serviceName serviceSchema lines key v = Ok ds ->
  Forall (fun d => has_severity d /\ not_missing_image d) ds.
Proof.
  unfold service_key. intros H.
  destruct (startsWith key "x-"); [injection H as <-; constructor|].
  bind_inv H. destruct a as [sch|].
  - destruct (negb (isArray v) && negb (mem key freeFormKeys)).
    + apply validateNestedConfig_shape in H.
      eapply Forall_impl; [|exact H]. apply nested_shape_weaken.
    + injection H as <-. constructor.
  - injection H as <-. constructor; [|constructor].
    split; [left; reflexivity|]. intros n. reflexivity.
Qed.

Lemma required_fields_cases serviceName serviceConfig lines ds :
  required_fields serviceName serviceConfig lines = Ok ds ->
  ds = [] \/ ds = [diag (findKeyLine lines serviceName 0)
                        (missing_image_message serviceName) SevError None None].
Proof.
  unfold required_fields. intros H. bind_inv H.
  destruct a; [injection H as <-; auto|]. bind_inv H.
  destruct a; injection H as <-; auto.
Qed.

Lemma required_fields_missing serviceName serviceConfig lines :
  truthy_opt (get serviceConfig "image") = Ok false ->
  truthy_opt (get serviceConfig "build") = Ok false ->
  required_fields serviceName serviceConfig lines
  = Ok [diag (findKeyLine lines serviceName 0)
             (missing_image_message serviceName) SevError None None].
Proof. unfold required_fields. intros -> ->. reflexivity. Qed.

Lemma top_level_key_shape lines key v ds :
  top_level_key lines key v = Ok ds ->
  Forall (fun d => has_severity d /\ not_missing_image d) ds.
Proof.
  unfold top_level_key. intros H.
  destruct (startsWith key "x-"); [injection H as <-; constructor|].
  bind_inv H. destruct a; [injection H as <-; constructor|].
  destruct (mem key serviceOnlyKeys); [|destruct (mem key deployOnlyKeys)];
    injection H as <-; (constructor; [|constructor]);
    (split; [left; reflexivity | intros n; reflexivity]).
Qed.

Lemma version_diagnostics_shape parsedData lines ds :
  version_diagnostics parsedData lines = Ok ds ->
  Forall (fun d => has_severity d /\ not_missing_image d) ds.
Proof.
  unfold version_diagnostics. intros H. bind_inv H.
  destruct a; [|injection H as <-; constructor].
  destruct (get parsedData "version"); [|injection H as <-; constructor].
  bind_inv H. destruct (negb _); injection H as <-; constructor; [|constructor].
  split; [right; reflexivity | intros n; reflexivity].
Qed.

Lemma section_key_shape sectionName itemName cs lines key v ds :
  section_key sectionName itemName cs lines key v = Ok ds ->
  Forall (fun d => has_severity d /\ not_missing_image d) ds.
Proof.
  unfold section_key. intros H.
  repeat match type of H with
         | (if ?c then _ else _) = _ => destruct c; [injection H as <-; constructor|]
         end.
  destruct (Nat.ltb 0 (List.length cs)); [|injection H as <-; constructor].
  bind_inv H. destruct a; injection H as <-; constructor; [|constructor].
  split; [left; reflexivity | intros n; reflexivity].
Qed.

Lemma section_diagnostics_shape parsedData lines sectionName ds :
  section_diagnostics parsedData lines sectionName = Ok ds ->
  Forall (fun d => has_severity d /\ not_missing_image d) ds.
Proof.
  unfold section_diagnostics, validateSection. intros H.
  destruct (get parsedData sectionName) as [section|]; [|injection H as <-; constructor].
  destruct (is_object section); [|injection H as <-; constructor].
  revert ds H. apply each_Forall. intros itemName itemConfig ds _ H.
  destruct (negb (is_object itemConfig)); [injection H as <-; constructor|].
  revert ds H. apply each_Forall. intros key v ds _ H.
  eapply section_key_shape. exact H.
Qed.

Lemma one_service_severity serviceSchema lines serviceName serviceConfig ds :
  one_service serviceSchema lines serviceName serviceConfig = Ok ds ->
  Forall has_severity ds.
Proof.
  unfold one_service. intros H.
  destruct (negb (is_object serviceConfig)); [injection H as <-; constructor|].
  bind_inv H. bind_inv H. injection H as <-.
  apply Forall_app; split.
  - apply required_fields_cases in Ha. destruct Ha as [->| ->]; constructor; [|constructor].
    left. reflexivity.
  - revert a0 Ha0. apply each_Forall. intros key v ds _ H.
    apply service_key_shape in H. eapply Forall_impl; [|exact H]. cbn beta. tauto.
Qed.

(** The parts [validate] puts together. *)
Lemma validate_parts text props ds :
  props <> [] ->
  validate text (VObj props) = Ok ds ->
  exists top version services rest,
    each (top_level_key (split newline text)) props = Ok top
    /\ version_diagnostics (VObj props) (split newline text) = Ok version
    /\ match get (VObj props) "services" with
       | Some s => if is_object s then validateServices s (split newline text) else Ok []
       | None => Ok []
       end = Ok services
    /\ Forall (fun d => has_severity d /\ not_missing_image d) rest
    /\ ds = (top ++ version ++ services ++ rest)%list.
Proof.
  intros Hne H. unfold validate in H. cbn [truthy bind negb orb keys entries] in H.
  destruct props as [|kv props]; [contradiction|].
  cbn [map List.length Nat.eqb] in H.
  bind_inv H. rename a into top. bind_inv H. rename a into version.
  bind_inv H. rename a into services.
  bind_inv H. bind_inv H. bind_inv H. bind_inv H. injection H as <-.
  exists top, version, services, (a ++ a0 ++ a1 ++ a2)%list.
  repeat split; try assumption.
  repeat (apply Forall_app; split); eapply section_diagnostics_shape; eassumption.
Qed.

Lemma length_append (a b : string) :
  String.length (a ++ b) = String.length a + String.length b.
Proof. induction a as [|c a IH]; simpl; [reflexivity | rewrite IH; reflexivity]. Qed.









Lemma get_nonempty props k v : get (VObj props) k = Some v -> props <> [].
Proof. intros H ->. discriminate. Qed.


Lemma find_line_spec key lines : forall i,
  match find_line key lines i with
  | Some n =>
      i < n /\ exists ln, nth_error lines (n - 1 - i) = Some ln
                          /\ keyPattern key ln = true
                          /\ forall j ln', j < n - 1 - i -> nth_error lines j = Some ln' ->
                                           keyPattern key ln' = false
  | None => forall ln, In ln lines -> keyPattern key ln = false
  end.
Proof.
  induction lines as [|ln rest IH]; intros i; cbn [find_line].
  - intros ln [].
  - destruct (keyPattern key ln) eqn:E.
    + split; [lia|]. exists ln. replace (i + 1 - 1 - i) with 0 by lia.
      repeat split; [exact E|]. intros j ln' Hj. lia.
    + specialize (IH (S i)). destruct (find_line key rest (S i)) as [n|].
      * destruct IH as (Hlt & ln0 & Hn & Hm & Hbefore). split; [lia|].
        exists ln0. replace (n - 1 - i) with (S (n - 1 - S i)) by lia.
        repeat split; [exact Hn | exact Hm |].
        intros [|j] ln' Hj Hnth.
        -- injection Hnth as <-. exact E.
        -- apply (Hbefore j); [lia | exact Hnth].
      * intros ln' [<-|Hin]; [exact E | apply IH; exact Hin].
Qed.



Lemma each_In {A : Type} (f : string -> A -> outcome (list diagnostic))
  (l : list (string * A)) (k : string) (v : A) : forall ds,
  each f l = Ok ds -> In (k, v) l ->
  exists dk, f k v = Ok dk /\ forall d, In d dk -> In d ds.
Proof.
  induction l as [|[k' v'] l IH]; intros ds H Hin; [destruct Hin|].
  cbn [each] in H. bind_inv H. bind_inv H. injection H as <-.
  destruct Hin as [E|Hin].
  - injection E as -> ->. exists a. split; [exact Ha|].
    intros d Hd. apply in_or_app. left. exact Hd.
  - destruct (IH a0 Ha0 Hin) as (dk & Hk & Hsub). exists dk. split; [exact Hk|].
    intros d Hd. apply in_or_app. right. apply Hsub. exact Hd.
Qed.

(** C10. The required-field check tests the values of [image] and [build]
    for truthiness: for every service entry that is an object, holds an
    [image] key whose value is [null] and has no truthy [build], [validate]
    emits the error that the service must have image or build. *)
Theorem null_image_counts_as_missing :
  forall (text : string) (props : list (string * value)) (services : value)
         (serviceName : string) (serviceConfig : value) (ds : list diagnostic),
    get (VObj props) "services" = Some services ->
    is_object services = true ->
    In (serviceName, serviceConfig) (entries services) ->
    is_object serviceConfig = true ->
    get serviceConfig "image" = Some VNull ->
    truthy_opt (get serviceConfig "build") = Ok false ->
    validate text (VObj props) = Ok ds ->
    In (diag (findKeyLine (split newline text) serviceName 0)
             (missing_image_message serviceName) SevError None None) ds.
Proof.
  intros text props services serviceName serviceConfig ds
    Hget Hobj Hin Hcfg Himg Hbld H.
  apply validate_parts in H; [|eapply get_nonempty; exact Hget].
  destruct H as (top & version & svc & rest & _ & _ & Hsvc & _ & ->).
  rewrite Hget, Hobj in Hsvc. unfold validateServices in Hsvc.
  destruct (each_In _ _ _ _ _ Hsvc Hin) as (dk & Hk & Hsub).
  apply in_or_app. right. apply in_or_app. right. apply in_or_app. left.
  apply Hsub. unfold one_service in Hk. rewrite Hcfg in Hk. cbn [negb] in Hk.
  rewrite required_fields_missing in Hk; [|rewrite Himg; reflexivity|exact Hbld].
  cbn [bind] in Hk. bind_inv Hk. injection Hk as <-. left. reflexivity.
Qed.

Lemma validate_severity text tree ds :
  validate text tree = Ok ds -> Forall has_severity ds.
Proof.
  unfold validate. intros H. bind_inv H.
  destruct (negb a || _); [injection H as <-; constructor|].
  bind_inv H. bind_inv H. bind_inv H. bind_inv H. bind_inv H. bind_inv H. bind_inv H.
  injection H as <-.
  assert (Hw : forall l, Forall (fun d => has_severity d /\ not_missing_image d) l ->
                         Forall has_severity l).
  { intros l F. eapply Forall_impl; [|exact F]. cbn beta. tauto. }
  repeat (apply Forall_app; split).
  - apply Hw. revert a0 Ha0. apply each_Forall. intros k v ds' _ Hk.
    eapply top_level_key_shape. exact Hk.
  - apply Hw. eapply version_diagnostics_shape. eassumption.
  - destruct (get tree "services") as [s|]; [|injection Ha2 as <-; constructor].
    destruct (is_object s); [|injection Ha2 as <-; constructor].
    revert a2 Ha2. apply each_Forall. intros k v ds' _ Hk.
    eapply one_service_severity. exact Hk.
  - apply Hw. eapply section_diagnostics_shape. eassumption.
  - apply Hw. eapply section_diagnostics_shape. eassumption.
  - apply Hw. eapply section_diagnostics_shape. eassumption.
  - apply Hw. eapply section_diagnostics_shape. eassumption.
Qed.

(** X3. Severities in general: every diagnostic of [validate] carries the
    severity [error] or [warning]; every diagnostic of [parse] carries the
    severity [error], except the diagnostic for a line that is neither a list
    item nor a key, which carries the message of invalid syntax and no
    severity field. *)
Lemma diagnostics_severity :
  forall (text : string),
    (forall r, parse text = Ok r -> Forall parser_shape (parse_errors r))
    /\ (forall tree ds, validate text tree = Ok ds -> Forall has_severity ds).
Proof.
  intros text. split.
  - intros r H. unfold parse in H. bind_inv H. injection H as <-.
    apply parse_lines_new in Ha. destruct Ha as (new & He & F).
    cbn [parse_errors]. rewrite He. cbn [initial errors app].
    eapply Forall_impl; [|exact F]. cbn beta. tauto.
  - intros tree ds. apply validate_severity.
Qed.

Lemma mem_In s l : mem s l = true <-> In s l.
Proof.
  unfold mem. rewrite existsb_exists. split.
  - intros (x & Hx & E). apply String.eqb_eq in E. subst. exact Hx.
  - intros H. exists s. split; [exact H | apply String.eqb_refl].
Qed.

(** X11. Enumerated values in general: for a key that declares them (and is not
    a free-form key) and a string value, the nested validation emits a
    warning if and only if the string equals no entry and begins with no
    entry cut at its first bracket; an entry without a bracket is cut
    nowhere, so it too admits every string that begins with it. *)
Lemma enum_warning_iff_no_prefix :
  forall (s key : string) (schema : SchemaNode) (vals lines : list string)
         (context : string),
    values schema = Some vals ->
    mem key freeFormKeys = false ->
    exists ds,
      validateNestedConfig (VStr s) key schema lines context = Ok ds
      /\ (ds = [] \/ ds = [diag (findKeyLine lines key 0) (invalid_value_message s key)
                                SevWarning (Some vals) None])
      /\ (ds <> [] <->
          (~ In s vals
           /\ forall v, In v vals -> startsWith s (before_bracket v) = false)).
Proof.
  intros s key schema vals lines context Hvals Hfree.
  exists (enum_diagnostics s key vals lines). split; [|split].
  - cbn [validateNestedConfig isArray]. rewrite Hfree, Hvals.
    destruct (children schema); reflexivity.
  - unfold enum_diagnostics. destruct (_ && _); auto.
  - unfold enum_diagnostics.
    destruct (mem s vals) eqn:Em; cbn [negb andb].
    + split; [intros H; exfalso; apply H; reflexivity|].
      intros [Hn _]. exfalso. apply Hn, mem_In, Em.
    + destruct (existsb _ vals) eqn:Ex; cbn [negb].
      * split; [intros H; exfalso; apply H; reflexivity|].
        intros [_ Hall]. apply existsb_exists in Ex. destruct Ex as (v & Hv & Hp).
        rewrite (Hall v Hv) in Hp. discriminate.
      * split; [|intros _; discriminate]. intros _. split.
        -- intros Hin. apply mem_In in Hin. congruence.
        -- intros v Hv. destruct (startsWith s (before_bracket v)) eqn:Ep; [|reflexivity].
           assert (existsb (fun v => startsWith s (before_bracket v)) vals = true).
           { apply existsb_exists. exists v. auto. }
           congruence.
Qed.

(** C2, amended.  For every content line that is a list item (a dash and a
    space, or a dash alone) whose enclosing container on the frame stack is
    not an array, the line loop records the error that the parent is not a
    list and drops the item: the tree is left as it was and no frame is
    pushed; the error stays among the diagnostics of every run that goes on
    from there. *)
Theorem list_item_outside_array_is_dropped :
  forall (lineNum : nat) (ln : string) (rest : list string) (st : pstate)
         (target : value),
    startsWith (trim ln) "- " = true \/ trim ln = "-" ->
    lookup (f_obj (top (pop_frames (search_nonws ln) (stack st)))) (result st)
    = Some target ->
    isArray target = false ->
    exists st',
      parse_line lineNum ln rest st = Ok st'
      /\ result st' = result st
      /\ stack st' = pop_frames (search_nonws ln) (stack st)
      /\ errors st'
         = (errors st ++ tab_errors lineNum ln
            ++ indent_errors lineNum (detect_unit (indentUnit st) (search_nonws ln))
                 (lastIndent st) (search_nonws ln)
            ++ [err lineNum 1 list_parent_message])%list
      /\ forall final,
          parse_lines (S lineNum) rest st' = Ok final ->
          In (err lineNum 1 list_parent_message) (errors final).
Proof.
  intros lineNum ln rest st target Hitem Hlook Harr.
  assert (Hlater : forall st' before,
            errors st' = (before ++ [err lineNum 1 list_parent_message])%list ->
            forall final, parse_lines (S lineNum) rest st' = Ok final ->
                          In (err lineNum 1 list_parent_message) (errors final)).
  { intros st' before He final Hrun. apply parse_lines_new in Hrun.
    destruct Hrun as (new & Hn & _). rewrite Hn, He.
    apply in_or_app. left. apply in_or_app. right. left. reflexivity. }
  assert (Hdash : startsWith (trim ln) "-" = true).
  { destruct Hitem as [H | ->]; [apply startsWith_dash_space, H | reflexivity]. }
  destruct (startsWith_dash _ Hdash) as [Hne Hcomment].
  unfold parse_line. rewrite Hne, Hcomment. cbn [orb].
  rewrite search_nonws_content.
  2:{ intros E. rewrite E in Hne. discriminate. }
  rewrite Hlook, Hdash, Harr. cbn [negb andb].
  destruct Hitem as [H|E].
  - rewrite H. unfold list_item. rewrite Harr. cbn [negb].
    eexists. split; [reflexivity|]. cbn [result stack errors].
    rewrite <- !app_assoc. repeat split.
    eapply Hlater. cbn [errors]. rewrite !app_assoc. reflexivity.
  - rewrite E. cbn [startsWith String.eqb Ascii.eqb Bool.eqb andb].
    unfold bare_item. rewrite Harr.
    eexists. split; [reflexivity|]. cbn [result stack errors].
    rewrite <- !app_assoc. repeat split.
    eapply Hlater. cbn [errors]. rewrite !app_assoc. reflexivity.
Qed.

(** ** The completion engine *)

Import AutocompleteEngine Scenario.






Lemma In_firstn {A : Type} (n : nat) (l : list A) (x : A) :
  In x (firstn n l) -> In x l.
Proof.
  intros H. rewrite <- (firstn_skipn n l). apply in_or_app. left. exact H.
Qed.


(** ** The fragment and the match, as the specification words them *)

Import FragmentSpec.









(** C8. In scenario D the context resolved at the cursor line is the path
    services, web, deploy, and the key suggestions for that context begin
    with mode, replicas, placement, resources, in that order. *)
Theorem scenario_D_context_and_ranking :
  forall (localeCompare : string -> string -> Z),
    (ctx <- getContext (split newline scenario_D) 4 ;; Ok (path ctx))
    = Ok ["services"; "web"; "deploy"]
    /\ (ctx <- getContext (split newline scenario_D) 4 ;;
        suggestions <- getKeySuggestions localeCompare ctx ;;
        Ok (firstn 4 (map label suggestions)))
       = Ok ["mode"; "replicas"; "placement"; "resources"].
Proof.
  intros localeCompare. split; vm_compute; reflexivity.
Qed.

(** ** The properties at concrete inputs *)

Import Inputs.

(** C1. The round trip through [stringify] and [parse] does not return the
    tree of a clean parse when a string scalar spells a literal: the string
    "true" is written without quotes and read back as the boolean. *)
Theorem roundtrip_changes_quoted_literal :
  parse quoted_literal = Ok (mkResult (VObj [("a", VStr "true")]) [])
  /\ stringify (VObj [("a", VStr "true")]) 0 = Ok ("a: true" ++ nl)
  /\ parse ("a: true" ++ nl) = Ok (mkResult (VObj [("a", VBool true)]) [])
  /\ VObj [("a", VBool true)] <> VObj [("a", VStr "true")].
Proof.
  repeat split; try (vm_compute; reflexivity). discriminate.
Qed.

(** C2, as stated, fails: the item of line 2 is reported and dropped, and
    the tree is the tree of line 1 alone. *)
Lemma list_item_under_mapping_dropped :
  parse item_under_mapping
  = Ok (mkResult (VObj [("a", VNum (NInt 1))]) [err 2 1 list_parent_message])
  /\ parse "a: 1" = Ok (mkResult (VObj [("a", VNum (NInt 1))]) []).
Proof. split; vm_compute; reflexivity. Qed.

Lemma list_item_outside_array_witness :
  exists st',
    parse_line 2 "- b" [] (mkState (VObj [("a", VNum (NInt 1))]) [root_frame] [] 0 0)
    = Ok st'
    /\ result st' = VObj [("a", VNum (NInt 1))]
    /\ stack st' = [root_frame]
    /\ errors st' = [err 2 1 list_parent_message]
    /\ forall final,
        parse_lines 3 [] st' = Ok final ->
        In (err 2 1 list_parent_message) (errors final).
Proof.
  apply (list_item_outside_array_is_dropped 2 "- b" []
           (mkState (VObj [("a", VNum (NInt 1))]) [root_frame] [] 0 0)
           (VObj [("a", VNum (NInt 1))])).
  - left. reflexivity.
  - reflexivity.
  - reflexivity.
Defined.

(** C3.  The key [restart] has no entry with a placeholder and the string
    "nope" equals none of its entries, yet the nested validation emits no
    warning for it, because "nope" begins with the entry "no". *)
Theorem plain_enum_entry_admits_prefix :
  values (static (children_of (wildcard_of "services")) "restart")
  = Some ["no"; "always"; "on-failure"; "unless-stopped"]
  /\ validateNestedConfig (VStr "nope") "restart"
       (static (children_of (wildcard_of "services")) "restart")
       (split newline extended_enum) "web" = Ok []
  /\ (r <- parse extended_enum ;; validate extended_enum (data r)) = Ok [].
Proof. repeat split; vm_compute; reflexivity. Qed.

Example enum_warning_example :
  exists ds,
    validateNestedConfig (VStr "never") "restart"
      (static (children_of (wildcard_of "services")) "restart") ["    restart: never"] "web"
    = Ok ds
    /\ (ds = [] \/ ds = [diag 1 (invalid_value_message "never" "restart") SevWarning
                              (Some ["no"; "always"; "on-failure"; "unless-stopped"]) None])
    /\ (ds <> [] <->
        (~ In "never" ["no"; "always"; "on-failure"; "unless-stopped"]
         /\ forall v, In v ["no"; "always"; "on-failure"; "unless-stopped"] ->
                      startsWith "never" (before_bracket v) = false)).
Proof.
  apply (enum_warning_iff_no_prefix "never" "restart"
           (static (children_of (wildcard_of "services")) "restart")
           ["no"; "always"; "on-failure"; "unless-stopped"] ["    restart: never"] "web").
  - reflexivity.
  - reflexivity.
Defined.



(** C5.  On a line that is neither a list item nor a key, [parse] emits a
    diagnostic without a severity field, where every other diagnostic of the
    parser and of the validator carries one. *)
Theorem invalid_syntax_has_no_severity :
  parse bare_word = Ok (mkResult (VObj []) [mkDiag 1 1 "Invalid YAML syntax" None None None])
  /\ severity (mkDiag 1 1 "Invalid YAML syntax" None None None) = None.
Proof. split; [vm_compute; reflexivity | reflexivity]. Qed.

Example diagnostics_severity_example :
  Forall parser_shape [err 2 1 list_parent_message]
  /\ Forall has_severity [diag 2 (missing_image_message "web") SevError None None].
Proof.
  split.
  - apply (proj1 (diagnostics_severity item_under_mapping)
             (mkResult (VObj [("a", VNum (NInt 1))]) [err 2 1 list_parent_message])).
    vm_compute. reflexivity.
  - apply (proj2 (diagnostics_severity no_image)
             (VObj [("services", VObj [("web", VObj [("restart", VStr "always")])])])).
    vm_compute. reflexivity.
Defined.

(** C6. The text has three lines, and [validate] places the diagnostic for
    the unknown key [foo] on line 4: the service is entry 0 of a list, its
    name is found on line 3, and the search for the key starts after it and
    falls back to the line after the start. *)
Theorem unknown_key_line_beyond_text :
  exists r ds,
    parse listed_services = Ok r
    /\ validate listed_services (data r) = Ok ds
    /\ List.length (split newline listed_services) = 3
    /\ exists d, In d ds /\ line d = 4
                 /\ message d = unknown_service_key_message "foo" "0".
Proof.
  eexists. eexists. split; [vm_compute; reflexivity|].
  split; [vm_compute; reflexivity|]. split; [reflexivity|].
  eexists. split; [right; right; left; reflexivity|]. split; reflexivity.
Qed.

(** X2. The diagnostics of the parser stay within the lines of the text. *)
Lemma parse_diagnostics_within_text text r :
  parse text = Ok r ->
  Forall (fun d => 1 <= line d <= List.length (split newline text)) (parse_errors r).
Proof.
  intros H. unfold parse in H. bind_inv H. injection H as <-.
  apply parse_lines_new in Ha. destruct Ha as (new & He & F).
  cbn [parse_errors]. rewrite He. cbn [initial errors app].
  eapply Forall_impl; [|exact F]. cbn beta. intros d [Hd _]. lia.
Qed.


Import MoreInputs.


Lemma null_image_witness :
  In (diag 2 (missing_image_message "web") SevError None None)
     [diag 2 (missing_image_message "web") SevError None None].
Proof.
  apply (null_image_counts_as_missing empty_image
           [("services", VObj [("web", VObj [("image", VNull)])])]
           (VObj [("web", VObj [("image", VNull)])])
           "web" (VObj [("image", VNull)])).
  - reflexivity.
  - reflexivity.
  - left. reflexivity.
  - reflexivity.
  - reflexivity.
  - reflexivity.
  - vm_compute. reflexivity.
Defined.

(** The line [image:] with nothing after the colon and nothing deeper below
    it gives the key the value [null]. *)
Lemma empty_image_parses_to_null :
  parse empty_image
  = Ok (mkResult (VObj [("services", VObj [("web", VObj [("image", VNull)])])]) []).
Proof. vm_compute. reflexivity. Qed.

Import MoreInputs.

(** ** The tokenizer *)

Import YamlTokenizer TokenSpec.

Lemma take_drop (n : nat) (s : string) : take n s ++ drop n s = s.
Proof.
  revert s. induction n as [|n IH]; intros [|c t]; try reflexivity.
  simpl. rewrite IH. reflexivity.
Qed.

Lemma drop_drop (a b : nat) (s : string) : drop b (drop a s) = drop (a + b) s.
Proof.
  revert s. induction a as [|a IH]; intros s; [reflexivity|].
  destruct s as [|c t]; cbn [drop Nat.add]; [destruct b; reflexivity | apply IH].
Qed.

Lemma take_length_append (a b : string) : take (String.length a) (a ++ b) = a.
Proof. induction a as [|c a IH]; cbn; [destruct b; reflexivity | rewrite IH; reflexivity]. Qed.

Lemma drop_length_append (a b : string) : drop (String.length a) (a ++ b) = b.
Proof. induction a as [|c a IH]; cbn; [reflexivity | exact IH]. Qed.

Lemma length_take_le (n : nat) (s : string) : String.length (take n s) <= n.
Proof.
  revert s. induction n as [|n IH]; intros [|c t]; cbn; try lia.
  specialize (IH t). lia.
Qed.

Lemma length_take (n : nat) (s : string) :
  n <= String.length s -> String.length (take n s) = n.
Proof.
  revert s. induction n as [|n IH]; intros [|c t]; cbn; try lia.
  intros H. rewrite IH; lia.
Qed.

Lemma length_drop (n : nat) (s : string) :
  String.length (drop n s) = String.length s - n.
Proof. revert s. induction n as [|n IH]; intros [|c t]; cbn; try lia. apply IH. Qed.

Lemma take_take (a b : nat) (s : string) : a <= b -> take a (take b s) = take a s.
Proof.
  revert b s. induction a as [|a IH]; intros b s H; [destruct (take b s); reflexivity|].
  destruct b as [|b]; [lia|]. destruct s as [|c t]; [reflexivity|].
  cbn [take]. rewrite IH by lia. reflexivity.
Qed.

Lemma head_of_take n s : head_of (take n s) s.
Proof.
  unfold head_of. revert s. induction n as [|n IH]; intros [|c t]; try reflexivity.
  cbn. f_equal. apply IH.
Qed.

Lemma head_of_length a s : head_of a s -> String.length a <= String.length s.
Proof.
  unfold head_of. revert s. induction a as [|c a IH]; intros s H; cbn; [lia|].
  destruct s as [|c' s]; [discriminate|]. cbn in H. injection H as _ H.
  apply IH in H. cbn. lia.
Qed.

Lemma head_of_trans a b s : head_of a b -> head_of b s -> head_of a s.
Proof.
  unfold head_of. intros Ha Hb. rewrite Ha at 1. rewrite Hb at 1.
  apply take_take. apply head_of_length. exact Ha.
Qed.

Lemma head_of_append a b : head_of a (a ++ b).
Proof. unfold head_of. symmetry. apply take_length_append. Qed.

Lemma leading_ws_le (s : string) : leading_ws s <= String.length s.
Proof. induction s as [|c t IH]; cbn; [lia|]. destruct (is_ws c); lia. Qed.

Lemma startsWith_take (s p : string) :
  startsWith s p = true -> take (String.length p) s = p.
Proof.
  revert s. induction p as [|a p IH]; intros s H; [destruct s; reflexivity|].
  destruct s as [|b s]; [discriminate|]. cbn [startsWith] in H.
  apply andb_prop in H. destruct H as [Hc Hp].
  apply Ascii.eqb_eq in Hc. subst b. cbn. rewrite IH by assumption. reflexivity.
Qed.

Lemma startsWith_head_of (s p : string) : startsWith s p = true -> head_of p s.
Proof. intros H. unfold head_of. symmetry. apply startsWith_take, H. Qed.

Lemma indexOf_from_spec (sub : string) (s : string) : forall i0 i,
  indexOf_from sub s i0 = Some i ->
  i0 <= i /\ i - i0 <= String.length s /\ startsWith (drop (i - i0) s) sub = true.
Proof.
  induction s as [|c t IH]; intros i0 i H; cbn [indexOf_from] in H.
  - destruct (startsWith "" sub) eqn:E; [|discriminate]. injection H as <-.
    rewrite Nat.sub_diag. repeat split; [lia | cbn; lia | exact E].
  - destruct (startsWith (String c t) sub) eqn:E.
    + injection H as <-. rewrite Nat.sub_diag. repeat split; [lia | cbn; lia | exact E].
    + apply IH in H. destruct H as (H1 & H2 & H3).
      replace (i - i0) with (S (i - S i0)) by lia. cbn [drop String.length].
      repeat split; [lia | lia | exact H3].
Qed.

Lemma indexOf_spec (s sub : string) (i : nat) :
  indexOf s sub = Some i ->
  i <= String.length s /\ startsWith (drop i s) sub = true.
Proof.
  unfold indexOf. intros H. apply indexOf_from_spec in H.
  rewrite Nat.sub_0_r in H. tauto.
Qed.

Lemma head_of_trimEnd (s : string) : head_of (trimEnd s) s.
Proof.
  unfold head_of. induction s as [|c t IH]; [reflexivity|].
  cbn [trimEnd]. destruct (trimEnd t) as [|c' t'] eqn:E.
  - destruct (is_ws c); [reflexivity|]. cbn. destruct t; reflexivity.
  - cbn [String.length take]. f_equal. exact IH.
Qed.

Lemma head_of_dot_star (s : string) : head_of (dot_star s) s.
Proof.
  unfold head_of. induction s as [|c t IH]; [reflexivity|].
  cbn [dot_star]. destruct (is_terminator c); [reflexivity|].
  cbn [String.length take]. f_equal. exact IH.
Qed.

Lemma head_of_refl (s : string) : head_of s s.
Proof.
  unfold head_of. induction s as [|c t IH]; [reflexivity|]. cbn. f_equal. exact IH.
Qed.

(** The value a value token keeps is a head of the value it was given. *)
Lemma tokenizeValue_spec (value : string) (start : nat) :
  t_start (tokenizeValue value start) = start
  /\ t_end (tokenizeValue value start)
     = start + String.length (t_value (tokenizeValue value start))
  /\ head_of (t_value (tokenizeValue value start)) value.
Proof.
  unfold tokenizeValue. cbn [t_start t_end t_value].
  repeat split.
  destruct (comment_match value) as [[group comment]|] eqn:E; [|apply head_of_refl].
  destruct (negb _ && negb _); [|apply head_of_refl].
  unfold comment_match in E.
  destruct (indexOf value "#") as [i|]; [|discriminate].
  destruct (_ && _ && _) in E.
  - injection E as <- _. exact (head_of_take (S i) value).
  - destruct (_ && _ && _) in E; [|discriminate]. injection E as <- _.
    eapply head_of_trans; [apply head_of_trimEnd | apply head_of_take].
Qed.

Lemma located_here (ln : string) (t : token) (pos : nat) :
  t_start t = pos ->
  t_end t = pos + String.length (t_value t) ->
  head_of (t_value t) (drop pos ln) ->
  located ln t.
Proof. intros Hs He Hh. unfold located. rewrite Hs. split; assumption. Qed.

Lemma located_plain ln type value pos :
  head_of value (drop pos ln) -> located ln (plain type value pos).
Proof. intros H. apply located_here with (pos := pos); auto. Qed.

Lemma located_value ln value pos :
  head_of value (drop pos ln) -> located ln (tokenizeValue value pos).
Proof.
  intros H. destruct (tokenizeValue_spec value pos) as (Hs & He & Hh).
  apply located_here with (pos := pos); [exact Hs | exact He |].
  eapply head_of_trans; eassumption.
Qed.

Lemma key_or_value_chain ln pos :
  contiguous pos (key_or_value (drop pos ln) pos)
  /\ Forall (located ln) (key_or_value (drop pos ln) pos).
Proof.
  unfold key_or_value.
  destruct (indexOf (drop pos ln) ":") as [[|m]|] eqn:E.
  1,3: destruct (tokenizeValue_spec (drop pos ln) pos) as (Hs & _);
       (split; [cbn [contiguous]; auto | constructor; [|constructor]]);
       apply located_value, head_of_refl.
  apply indexOf_spec in E. destruct E as [Hlen Hcolon].
  set (remaining := drop pos ln) in *.
  set (key := take (S m) remaining).
  set (after := drop (S (S m)) remaining).
  set (space := take (leading_ws after) after).
  set (value := dot_star (drop (leading_ws after) after)).
  assert (Hk : String.length key = S m) by (apply length_take; exact Hlen).
  assert (Hsp : String.length space = leading_ws after)
    by (apply length_take, leading_ws_le).
  assert (Hafter : after = drop (pos + String.length key + 1) ln).
  { unfold after, remaining. rewrite drop_drop. f_equal. lia. }
  assert (Hcol : head_of ":" (drop (pos + String.length key) ln)).
  { rewrite Hk, <- drop_drop. apply startsWith_head_of, Hcolon. }
  assert (Hspace : head_of space (drop (pos + String.length key + 1) ln)).
  { rewrite <- Hafter. apply head_of_take. }
  assert (Hvalue : head_of value (drop (pos + String.length key + 1 + String.length space) ln)).
  { rewrite <- drop_drop, <- Hafter, Hsp. apply head_of_dot_star. }
  destruct (tokenizeValue_spec value (pos + String.length key + 1 + String.length space))
    as (Hvs & _).
  split.
  - cbn [app contiguous plain t_start t_end String.length].
    split; [reflexivity|]. split; [reflexivity|].
    destruct (String.eqb_spec space "") as [Es|Es]; cbn [app contiguous].
    + destruct (String.eqb value ""); cbn [contiguous]; [exact I|].
      split; [|exact I]. rewrite Hvs, Es. cbn. lia.
    + split; [cbn; lia|]. destruct (String.eqb value ""); cbn [contiguous]; [exact I|].
      split; [|exact I]. rewrite Hvs. cbn [plain t_end t_value]. lia.
  - constructor; [apply located_plain, head_of_take|].
    constructor; [apply located_plain, Hcol|].
    apply Forall_app; split.
    + destruct (String.eqb space ""); constructor; [|constructor].
      apply located_plain, Hspace.
    + destruct (String.eqb value ""); constructor; [|constructor].
      apply located_value, Hvalue.
Qed.

(** X21. The tokens of a line follow one another from position 0, and each
    holds the text of the line between its start and its end. *)
Theorem tokens_contiguous_and_located :
  forall (ln : string) (lineNum : nat),
    contiguous 0 (tokenizeLine ln lineNum)
    /\ Forall (located ln) (tokenizeLine ln lineNum).
Proof.
  intros ln lineNum. unfold tokenizeLine.
  destruct (String.eqb (trim ln) "").
  { split; [cbn; auto|]. constructor; [|constructor].
    apply located_plain, head_of_refl. }
  set (pos := leading_ws ln).
  assert (Hpos : String.length (take pos ln) = pos) by (apply length_take, leading_ws_le).
  assert (Hlead : forall rest,
            contiguous pos rest -> Forall (located ln) rest ->
            contiguous 0 ((if Nat.ltb 0 pos then [plain TIndent (take pos ln) 0] else []) ++ rest)
            /\ Forall (located ln)
                 ((if Nat.ltb 0 pos then [plain TIndent (take pos ln) 0] else []) ++ rest)).
  { intros rest Hc Hl. destruct (Nat.ltb_spec 0 pos) as [Hp|Hp]; cbn [app].
    - split; [cbn [contiguous plain t_start t_end t_value]; rewrite Hpos; auto|].
      constructor; [apply located_plain, head_of_take | exact Hl].
    - replace pos with 0 in Hc by lia. split; assumption. }
  destruct (startsWith (drop pos ln) "#").
  { apply Hlead; [cbn; auto|]. constructor; [|constructor].
    apply located_plain, head_of_refl. }
  destruct (startsWith (drop pos ln) "- ") eqn:Edash.
  { destruct (key_or_value_chain ln (pos + 2)) as [Hc Hl].
    apply Hlead.
    - cbn [contiguous plain t_start t_end t_value String.length]. split; [reflexivity|].
      exact Hc.
    - constructor; [|exact Hl]. apply located_plain, startsWith_head_of, Edash. }
  destruct (String.eqb_spec (drop pos ln) "-") as [E|E].
  { apply Hlead; [cbn; auto|]. constructor; [|constructor].
    apply located_plain. rewrite E. apply head_of_refl. }
  destruct (key_or_value_chain ln pos) as [Hc Hl]. apply Hlead; assumption.
Qed.

Lemma append_empty_r (s : string) : s ++ "" = s.
Proof. induction s as [|c t IH]; cbn; [reflexivity | rewrite IH; reflexivity]. Qed.

Lemma append_assoc (a b c : string) : (a ++ b) ++ c = a ++ (b ++ c).
Proof. induction a as [|x a IH]; cbn; [reflexivity | rewrite IH; reflexivity]. Qed.

Lemma spell_app (a b : list token) : spell (a ++ b) = spell a ++ spell b.
Proof.
  induction a as [|t a IH]; cbn; [reflexivity|].
  unfold spell in IH. rewrite IH, append_assoc. reflexivity.
Qed.

Lemma spell_cons (t : token) (l : list token) : spell (t :: l) = t_value t ++ spell l.
Proof. reflexivity. Qed.

Lemma all_chars_drop (p : ascii -> bool) (n : nat) (s : string) :
  all_chars p s = true -> all_chars p (drop n s) = true.
Proof.
  revert s. induction n as [|n IH]; intros [|c t] H; cbn; auto.
  cbn in H. apply andb_prop in H. apply IH, H.
Qed.

Lemma all_chars_take (p : ascii -> bool) (n : nat) (s : string) :
  all_chars p s = true -> all_chars p (take n s) = true.
Proof.
  revert s. induction n as [|n IH]; intros [|c t] H; cbn; auto.
  cbn in H. apply andb_prop in H. destruct H as [Hc Ht]. rewrite Hc. apply IH, Ht.
Qed.

Lemma plain_no_hash (s : string) :
  all_chars plain_char s = true -> forall i, indexOf_from "#" s i = None.
Proof.
  induction s as [|c t IH]; intros H i; [reflexivity|].
  cbn in H. apply andb_prop in H. destruct H as [Hc Ht].
  cbn [indexOf_from startsWith]. unfold plain_char in Hc.
  apply andb_prop in Hc. destruct Hc as [Hc _]. apply negb_true_iff in Hc.
  rewrite Hc. cbn [andb]. apply IH, Ht.
Qed.

Lemma plain_dot_star (s : string) : all_chars plain_char s = true -> dot_star s = s.
Proof.
  induction s as [|c t IH]; intros H; [reflexivity|].
  cbn in H. apply andb_prop in H. destruct H as [Hc Ht].
  unfold plain_char in Hc. apply andb_prop in Hc. destruct Hc as [_ Hc].
  apply negb_true_iff in Hc. cbn [dot_star]. rewrite Hc, IH by assumption. reflexivity.
Qed.

Lemma plain_tokenizeValue (value : string) (start : nat) :
  all_chars plain_char value = true ->
  t_value (tokenizeValue value start) = value.
Proof.
  intros H. unfold tokenizeValue, comment_match, indexOf.
  rewrite (plain_no_hash value H). reflexivity.
Qed.

Lemma startsWith_split (s p : string) :
  startsWith s p = true -> s = p ++ drop (String.length p) s.
Proof.
  intros H. rewrite <- (take_drop (String.length p) s) at 1.
  rewrite (startsWith_take s p H). reflexivity.
Qed.

Lemma key_or_value_spell (remaining : string) (pos : nat) :
  all_chars plain_char remaining = true ->
  spell (key_or_value remaining pos) = remaining.
Proof.
  intros H. unfold key_or_value.
  destruct (indexOf remaining ":") as [[|m]|] eqn:E.
  1,3: cbn [spell fold_right]; rewrite plain_tokenizeValue by assumption;
       apply append_empty_r.
  apply indexOf_spec in E. destruct E as [_ Hcolon].
  cbv zeta. set (after := drop (S (S m)) remaining).
  assert (Hafter : all_chars plain_char after = true) by (apply all_chars_drop, H).
  rewrite plain_dot_star by (apply all_chars_drop, Hafter).
  cbn [app]. rewrite !spell_cons, spell_app. cbn [plain t_value].
  assert (Hs : spell (if String.eqb (take (leading_ws after) after) "" then []
                      else [plain TWhitespace (take (leading_ws after) after)
                              (pos + String.length (take (S m) remaining) + 1)])
               = take (leading_ws after) after).
  { destruct (String.eqb_spec (take (leading_ws after) after) "") as [Es|Es].
    - rewrite Es. reflexivity.
    - cbn. apply append_empty_r. }
  assert (Hv : spell (if String.eqb (drop (leading_ws after) after) "" then []
                      else [tokenizeValue (drop (leading_ws after) after)
                              (pos + String.length (take (S m) remaining) + 1
                               + String.length (take (leading_ws after) after))])
               = drop (leading_ws after) after).
  { destruct (String.eqb_spec (drop (leading_ws after) after) "") as [Es|Es].
    - rewrite Es. reflexivity.
    - rewrite spell_cons, plain_tokenizeValue by (apply all_chars_drop, Hafter).
      apply append_empty_r. }
  rewrite Hs, Hv, take_drop.
  transitivity (take (S m) remaining ++ drop (S m) remaining); [|apply take_drop].
  f_equal.
  rewrite (startsWith_split _ _ Hcolon). cbn [String.length].
  rewrite drop_drop. unfold after. do 2 f_equal. all: lia.
Qed.

(** X22. On a line without [#] and without a line terminator, the values of
    the tokens, one after the other, spell the line. *)
Theorem tokens_spell_the_line :
  forall (ln : string) (lineNum : nat),
    all_chars plain_char ln = true ->
    spell (tokenizeLine ln lineNum) = ln.
Proof.
  intros ln lineNum H. unfold tokenizeLine.
  destruct (String.eqb (trim ln) ""); [cbn; apply append_empty_r|].
  set (pos := leading_ws ln).
  assert (Hlead : forall rest,
            spell rest = drop pos ln ->
            spell ((if Nat.ltb 0 pos then [plain TIndent (take pos ln) 0] else []) ++ rest)
            = ln).
  { intros rest Hr. rewrite spell_app, Hr. destruct (Nat.ltb_spec 0 pos) as [Hp|Hp].
    - cbn [spell fold_right plain t_value]. rewrite append_empty_r. apply take_drop.
    - replace pos with 0 by lia. reflexivity. }
  destruct (startsWith (drop pos ln) "#").
  { apply Hlead. cbn. apply append_empty_r. }
  destruct (startsWith (drop pos ln) "- ") eqn:Edash.
  { apply Hlead. cbn [spell fold_right plain t_value].
    change (fold_right (fun t rest => t_value t ++ rest) "" ?l) with (spell l).
    rewrite key_or_value_spell by (apply all_chars_drop, H).
    symmetry. etransitivity; [apply (startsWith_split _ _ Edash)|].
    cbn [String.length]. rewrite drop_drop. do 2 f_equal. }
  destruct (String.eqb_spec (drop pos ln) "-") as [E|E].
  { apply Hlead. rewrite E. reflexivity. }
  apply Hlead. apply key_or_value_spell. apply all_chars_drop, H.
Qed.

Lemma tokenizeLine_nonempty (ln : string) (lineNum : nat) : tokenizeLine ln lineNum <> [].
Proof.
  unfold tokenizeLine.
  assert (Hkv : forall r p, key_or_value r p <> []).
  { intros r p. unfold key_or_value. destruct (indexOf r ":") as [[|m]|]; discriminate. }
  assert (Happ : forall (a b : list token), b <> [] -> (a ++ b)%list <> []).
  { intros a b Hb E. apply app_eq_nil in E. tauto. }
  destruct (String.eqb (trim ln) ""); [discriminate|].
  destruct (startsWith _ "#"); [apply Happ; discriminate|].
  destruct (startsWith _ "- "); [apply Happ; discriminate|].
  destruct (String.eqb _ "-"); apply Happ; [discriminate | apply Hkv].
Qed.

Lemma tokenize_from_spec lines : forall i,
  List.length (tokenize_from i lines) = List.length lines
  /\ Forall (fun ts => ts <> []) (tokenize_from i lines).
Proof.
  induction lines as [|ln rest IH]; intros i; cbn [tokenize_from List.length].
  - split; [reflexivity | constructor].
  - destruct (IH (S i)) as [Hl Hf]. split; [rewrite Hl; reflexivity|].
    constructor; [apply tokenizeLine_nonempty | exact Hf].
Qed.

(** X20. [tokenize] returns one list of tokens for each line of the text, and
    no line is left without a token. *)
Theorem one_token_list_per_line :
  forall (text : string),
    List.length (tokenize text) = List.length (split newline text)
    /\ Forall (fun ts => ts <> []) (tokenize text).
Proof. intros text. apply tokenize_from_spec. Qed.

Ltac literal_cases s :=
  repeat match goal with
         | |- context [String.eqb s ?l] =>
             destruct (String.eqb_spec s l) as [-> | ?];
             [vm_compute; repeat split; intros; try discriminate; eauto;
              repeat match goal with H : exists _, _ |- _ => destruct H end;
              discriminate |]
         end.

(** X23. The highlighter and the parser agree on numbers: a value is coloured
    as a number exactly when the parser reads it as one.  A value coloured as
    a boolean or as null is read as such by the parser. *)
Theorem highlighting_agrees_with_parser :
  forall (s : string),
    (value_type s = TValueNumber <-> exists n, parseValue s = VNum n)
    /\ (value_type s = TValueBoolean -> exists b, parseValue s = VBool b)
    /\ (value_type s = TValueNull -> parseValue s = VNull).
Proof.
  intros s. unfold value_type, parseValue.
  destruct (String.eqb_spec s "TRUE") as [-> | Ht];
    [vm_compute; repeat split; intros H; try discriminate; eauto;
     destruct H; discriminate|].
  destruct (String.eqb_spec s "FALSE") as [-> | Hf];
    [vm_compute; repeat split; intros H; try discriminate; eauto;
     destruct H; discriminate|].
  destruct (String.eqb_spec s "NULL") as [-> | Hn];
    [vm_compute; repeat split; intros H; try discriminate; eauto;
     destruct H; discriminate|].
  literal_cases s.
  cbn [orb].
  destruct (is_int_literal s); cbn [orb];
    [repeat split; intros; try discriminate; eauto|].
  destruct (is_decimal_literal s);
    [repeat split; intros; try discriminate; eauto|].
  destruct (startsWith s dq || startsWith s "'"), (startsWith s "[" || startsWith s "{"),
    (is_quoted s);
    repeat split; intros H; try discriminate; destruct H; discriminate.
Qed.

(** ** The completion context *)

Import AutocompleteEngine CompletionSpec.

Lemma descending_floor st :
  descending st -> (-1 <= e_indent (hd root_entry st))%Z
                   /\ (Z.of_nat (List.length st) <= e_indent (hd root_entry st) + 2)%Z.
Proof.
  induction st as [|e [|e' rest] IH]; cbn [descending]; intros H.
  - contradiction.
  - subst e. cbn. lia.
  - destruct H as [Hlt Hd]. specialize (IH Hd). cbn [hd List.length] in *. lia.
Qed.

Lemma pop_entries_descending indent st :
  descending st ->
  descending (pop_entries indent st)
  /\ ((e_indent (hd root_entry (pop_entries indent st)) < indent)%Z
      \/ pop_entries indent st = [root_entry]).
Proof.
  induction st as [|e [|e' rest] IH]; intros H.
  - contradiction.
  - cbn in H. subst e. cbn. split; [reflexivity | right; reflexivity].
  - cbn [pop_entries]. destruct (Z.leb_spec indent (e_indent e)) as [Hle|Hgt].
    + apply IH. apply H.
    + split; [exact H | left; exact Hgt].
Qed.

Lemma search_nonws_range (s : string) : (-1 <= search_nonws s)%Z.
Proof. unfold search_nonws. destruct (Nat.eqb _ _); lia. Qed.

Lemma context_line_descending ln st :
  descending st -> descending (context_line ln st).
Proof.
  intros H. unfold context_line.
  destruct (String.eqb (trim ln) "" || startsWith (trim ln) "#") eqn:Eskip; [exact H|].
  destruct (context_key_match (trim ln)) as [group|]; [|exact H].
  destruct (pop_entries_descending (search_nonws ln) st H) as [Hd Htop].
  destruct (hasNestedContent _); [|exact Hd].
  assert (Hpos : (0 <= search_nonws ln)%Z).
  { apply search_nonws_nonneg, search_nonws_content. intros E.
    rewrite E in Eskip. discriminate. }
  destruct (pop_entries (search_nonws ln) st) as [|e rest] eqn:Ep; [contradiction|].
  cbn [descending]. split; [|exact Hd].
  cbn [hd e_indent] in *. destruct Htop as [Hlt|Hroot]; [exact Hlt|].
  injection Hroot as -> _. cbn. lia.
Qed.

Lemma replay_spec count : forall lines st,
  descending st ->
  (count <= List.length lines ->
   exists st', replay count lines st = Ok st' /\ descending st')
  /\ (List.length lines < count -> replay count lines st = Throws).
Proof.
  induction count as [|count IH]; intros lines st H.
  - split; [intros _; exists st; split; [reflexivity | exact H] | lia].
  - destruct lines as [|ln rest]; cbn [replay List.length].
    + split; [lia | reflexivity].
    + destruct (IH rest (context_line ln st) (context_line_descending ln st H)) as [I1 I2].
      split; intros Hc; [apply I1 | apply I2]; lia.
Qed.

Lemma cursor_indent_nonneg lines cursorLine : (0 <= cursor_indent lines cursorLine)%Z.
Proof.
  unfold cursor_indent. destruct (Z.ltb_spec (search_nonws (line_at lines (cursorLine - 1))) 0); lia.
Qed.

(** X16. [getContext] throws exactly when the cursor is set more than one line
    below the last line of the text, and every other run returns a context. *)
Theorem getContext_throws_below_the_text :
  forall (lines : list string) (cursorLine : Z),
    (getContext lines cursorLine = Throws
     <-> List.length lines < Z.to_nat (cursorLine - 1))
    /\ getContext lines cursorLine <> Unmodelled.
Proof.
  intros lines cursorLine. unfold getContext.
  destruct (replay_spec (Z.to_nat (cursorLine - 1)) lines [root_entry] eq_refl) as [H1 H2].
  destruct (Nat.le_gt_cases (Z.to_nat (cursorLine - 1)) (List.length lines)) as [Hle|Hgt].
  - destruct (H1 Hle) as (st' & -> & _). cbn [bind].
    split; [split; [discriminate | lia] | discriminate].
  - rewrite (H2 Hgt). cbn [bind]. split; [split; auto | discriminate].
Qed.

Lemma removelast_length {A : Type} (l : list A) :
  List.length (removelast l) = List.length l - 1.
Proof.
  induction l as [|x [|y l] IH]; [reflexivity | reflexivity |].
  change (removelast (x :: y :: l)) with (x :: removelast (y :: l)).
  cbn [List.length] in *. rewrite IH. lia.
Qed.

(** X17. In the context [getContext] returns, the indent lies below the
    indent of the cursor's line; it is [-1] exactly when the path is empty,
    and the path holds at most one key more than the indent counts. *)
Theorem context_indent_below_cursor :
  forall (lines : list string) (cursorLine : Z) (ctx : context),
    getContext lines cursorLine = Ok ctx ->
    (c_indent ctx < cursor_indent lines cursorLine)%Z
    /\ (path ctx = [] <-> c_indent ctx = (-1)%Z)
    /\ (Z.of_nat (List.length (path ctx)) <= c_indent ctx + 1)%Z.
Proof.
  intros lines cursorLine ctx H. unfold getContext in H. bind_inv H.
  rename a into st. fold (cursor_indent lines cursorLine) in H.
  assert (Hd : descending st).
  { destruct (replay_spec (Z.to_nat (cursorLine - 1)) lines [root_entry] eq_refl) as [H1 H2].
    destruct (Nat.le_gt_cases (Z.to_nat (cursorLine - 1)) (List.length lines)) as [Hle|Hgt].
    - destruct (H1 Hle) as (st' & E & Hd). congruence.
    - rewrite (H2 Hgt) in Ha. discriminate. }
  pose proof (cursor_indent_nonneg lines cursorLine) as Hpos.
  destruct (pop_entries_descending (cursor_indent lines cursorLine) st Hd) as [Hf Htop].
  set (final := pop_entries (cursor_indent lines cursorLine) st) in *.
  injection H as <-. cbn [c_indent path].
  pose proof (descending_floor final Hf) as [Hfloor Hlen].
  split; [|split].
  - destruct Htop as [Hlt|E]; [exact Hlt | rewrite E; cbn; lia].
  - split.
    + intros E. apply (f_equal (@List.length string)) in E.
      rewrite length_rev, length_map, removelast_length in E. cbn [List.length] in E.
      destruct final as [|e [|e' rest]]; [contradiction | cbn in Hf; subst e; reflexivity|].
      cbn [List.length] in E. lia.
    + intros E. destruct final as [|e [|e' rest]]; [contradiction | reflexivity|].
      exfalso. destruct Hf as [Hlt Hf].
      pose proof (descending_floor (e' :: rest) Hf) as [Hfl _].
      cbn [hd] in Hfl, E. lia.
  - rewrite length_rev, length_map, removelast_length. lia.
Qed.

(** ** The order of the suggested keys *)

Lemma insert_sorted_perm {A : Type} (cmp : A -> A -> Z) (x : A) (l : list A) :
  Permutation (x :: l) (insert_sorted cmp x l).
Proof.
  induction l as [|y t IH]; cbn [insert_sorted]; [reflexivity|].
  destruct (cmp x y <=? 0)%Z; [reflexivity|].
  rewrite perm_swap. apply perm_skip, IH.
Qed.

Lemma sort_perm {A : Type} (cmp : A -> A -> Z) (l : list A) :
  Permutation l (sort cmp l).
Proof.
  induction l as [|x l IH]; [reflexivity|].
  unfold sort in *. cbn [fold_right].
  rewrite <- insert_sorted_perm. apply perm_skip, IH.
Qed.

Lemma ranks_before_trans pl a b c :
  ranks_before pl a b -> ranks_before pl b c -> ranks_before pl a c.
Proof. unfold ranks_before. intros Hab Hbc Hc. destruct (Hbc Hc). destruct Hab; auto. lia. Qed.

Lemma compare_le_ranks (localeCompare : string -> string -> Z) pl a b :
  (priority_compare localeCompare pl a b <=? 0)%Z = true -> ranks_before pl a b.
Proof.
  unfold priority_compare, ranks_before. intros H Hb.
  destruct (Z.eqb_spec (index_in a pl 0) (-1)) as [Ea|Ea];
    destruct (Z.eqb_spec (index_in b pl 0) (-1)) as [Eb|Eb];
    cbn [negb andb] in H; try contradiction.
  - discriminate.
  - apply Z.leb_le in H. split; [exact Ea | lia].
Qed.

Lemma compare_gt_ranks (localeCompare : string -> string -> Z) pl a b :
  (priority_compare localeCompare pl a b <=? 0)%Z = false -> ranks_before pl b a.
Proof.
  unfold priority_compare, ranks_before. intros H Ha.
  destruct (Z.eqb_spec (index_in a pl 0) (-1)) as [Ea|Ea];
    destruct (Z.eqb_spec (index_in b pl 0) (-1)) as [Eb|Eb];
    cbn [negb andb] in H; try contradiction.
  - discriminate.
  - apply Z.leb_gt in H. split; [exact Eb | lia].
Qed.

Lemma insert_sorted_ranked (localeCompare : string -> string -> Z) pl x l :
  StronglySorted (ranks_before pl) l ->
  StronglySorted (ranks_before pl) (insert_sorted (priority_compare localeCompare pl) x l).
Proof.
  induction 1 as [|y t Ht IH Hy]; cbn [insert_sorted].
  - constructor; constructor.
  - destruct (priority_compare localeCompare pl x y <=? 0)%Z eqn:E.
    + apply compare_le_ranks in E. constructor; [constructor; assumption|].
      constructor; [exact E|].
      eapply Forall_impl; [|exact Hy]. intros z. apply ranks_before_trans, E.
    + apply compare_gt_ranks in E. constructor; [exact IH|].
      eapply Permutation_Forall; [apply insert_sorted_perm|].
      constructor; assumption.
Qed.

(** X18. Whatever order the host gives to strings, [sortByPriority] returns
    the keys it was given, rearranged so that no key outside the priority
    list stands before a listed one and the listed keys follow the order of
    the priority list. *)
Theorem sortByPriority_ranks_listed_keys_first :
  forall (localeCompare : string -> string -> Z) (keys priorityList : list string),
    Permutation keys (sortByPriority localeCompare keys priorityList)
    /\ StronglySorted (ranks_before priorityList)
                      (sortByPriority localeCompare keys priorityList).
Proof.
  intros localeCompare keys pl. split; [apply sort_perm|].
  unfold sortByPriority, sort. induction keys as [|x l IH]; cbn [fold_right].
  - constructor.
  - apply insert_sorted_ranked, IH.
Qed.

(** ** The kind of the suggestions *)

Lemma narrow_Forall (P : suggestion -> Prop) typed l :
  Forall P l -> Forall P (narrow typed l).
Proof.
  intros H. unfold narrow. apply Forall_forall. intros s Hs.
  apply In_firstn in Hs. rewrite Forall_forall in H.
  destruct (String.eqb typed ""); [apply H, Hs|].
  apply H. eapply Permutation_in in Hs; [|symmetry; apply sort_perm].
  apply filter_In in Hs. apply Hs.
Qed.

Lemma getKeySuggestions_kind (localeCompare : string -> string -> Z) ctx ss :
  getKeySuggestions localeCompare ctx = Ok ss ->
  Forall (fun s => type s = KeySuggestion) ss.
Proof.
  unfold getKeySuggestions. intros H. bind_inv H.
  destruct a as [|n|]; [| destruct (children n) |]; injection H as <-;
    try constructor; apply Forall_map, Forall_forall; reflexivity.
Qed.

Lemma getValueSuggestions_kind ctx key ss :
  getValueSuggestions ctx key = Ok ss ->
  Forall (fun s => type s = ValueSuggestion) ss.
Proof.
  unfold getValueSuggestions. intros H. bind_inv H.
  destruct a as [|n|]; [injection H as <-; constructor | | injection H as <-; constructor].
  destruct (children n); [|injection H as <-; constructor].
  bind_inv H. destruct a as [keySchema|]; [|injection H as <-; constructor].
  destruct (values keySchema); injection H as <-; [|constructor].
  apply Forall_map, Forall_forall. reflexivity.
Qed.

(** X19. What [getSuggestions] offers is decided by the text before the
    cursor on its line: with a colon there every suggestion is a value,
    without one every suggestion is a key. *)
Theorem suggestions_kind_follows_colon :
  forall (localeCompare : string -> string -> Z) (text : string)
         (cursorLine cursorCol : Z) (ss : list suggestion),
    getSuggestions localeCompare text cursorLine cursorCol = Ok ss ->
    Forall (fun s => type s
                     = kind_for (slice_0 (line_at (split newline text) (cursorLine - 1))
                                         cursorCol)) ss.
Proof.
  intros localeCompare text cursorLine cursorCol ss H.
  unfold getSuggestions in H. bind_inv H. injection H as <-.
  apply narrow_Forall. unfold candidates in Ha. bind_inv Ha. unfold kind_for.
  destruct (includes _ ":"); cbn [negb andb orb] in Ha.
  - destruct (value_key_match _) as [key|]; [|injection Ha as <-; constructor].
    eapply getValueSuggestions_kind, Ha.
  - destruct (_ || _); [eapply getKeySuggestions_kind, Ha|].
    injection Ha as <-. constructor.
Qed.

(** ** Where the validator places its diagnostics *)

Lemma split_nonempty (c : ascii) (s : string) : split c s <> [].
Proof.
  induction s as [|a t IH]; cbn [split]; [discriminate|].
  destruct (Ascii.eqb a c); [discriminate|].
  destruct (split c t); discriminate.
Qed.

Lemma find_line_range key lines : forall i n,
  find_line key lines i = Some n -> i + 1 <= n <= i + List.length lines.
Proof.
  induction lines as [|ln rest IH]; intros i n H; cbn [find_line] in H; [discriminate|].
  destruct (keyPattern key ln).
  - injection H as <-. cbn [List.length]. lia.
  - apply IH in H. cbn [List.length]. lia.
Qed.

Lemma findKeyLine_range lines key start :
  start + 1 <= findKeyLine lines key start <= Nat.max (List.length lines) (start + 1).
Proof.
  unfold findKeyLine.
  destruct (find_line key (skipn start lines) start) as [n|] eqn:E; [|lia].
  apply find_line_range in E. rewrite length_skipn in E. lia.
Qed.

(** Every diagnostic of the validator is built by [diag] at a line found by
    [findKeyLine], from the top of the text or from the line found for an
    enclosing name. *)
Lemma validateNestedConfig_placed (P : diagnostic -> Prop) lines :
  (forall key msg sev vals keys, P (diag (findKeyLine lines key 0) msg sev vals keys)) ->
  forall config key schema context ds,
    validateNestedConfig config key schema lines context = Ok ds -> Forall P ds.
Proof.
  intros H0 config.
  induction config as [|b|n|s|es ps _ _|ps IH] using value_induction;
    intros key schema context ds H; cbn [validateNestedConfig isArray] in H.
  - injection H as <-. constructor.
  - destruct (mem key freeFormKeys); [injection H as <-; constructor|].
    destruct (values schema), (children schema); injection H as <-; constructor.
  - destruct (mem key freeFormKeys); [injection H as <-; constructor|].
    destruct (values schema), (children schema); injection H as <-; constructor.
  - assert (He : forall vals, Forall P (enum_diagnostics s key vals lines)).
    { intros vals. unfold enum_diagnostics. destruct (_ && _); repeat constructor. apply H0. }
    destruct (mem key freeFormKeys); [injection H as <-; constructor|].
    destruct (values schema), (children schema); injection H as <-;
      try constructor; apply He.
  - destruct (mem key freeFormKeys); injection H as <-; constructor.
  - destruct (mem key freeFormKeys); [injection H as <-; constructor|].
    destruct (children schema) as [cs|].
    2:{ destruct (values schema); injection H as <-; constructor. }
    bind_inv H. injection H as <-.
    apply Forall_app; split.
    { destruct (values schema); constructor. }
    revert a Ha.
    induction IH as [|[subKey sub] ps Hsub _ IHps]; intros a Ha.
    + injection Ha as <-. constructor.
    + bind_inv Ha. bind_inv Ha. injection Ha as <-.
      apply Forall_app; split; [|apply IHps; assumption].
      destruct (startsWith subKey "x-"); [injection Ha0 as <-; constructor|].
      destruct (mem subKey freeFormKeys); [injection Ha0 as <-; constructor|].
      bind_inv Ha0.
      destruct a as [subSchema|]; [|destruct (assoc "*" cs) as [subSchema|]].
      * eapply Hsub. exact Ha0.
      * eapply Hsub. exact Ha0.
      * injection Ha0 as <-. repeat constructor. apply H0.
Qed.

Lemma validate_placed (P : diagnostic -> Prop) text tree ds :
  (forall key msg sev vals keys,
      P (diag (findKeyLine (split newline text) key 0) msg sev vals keys)) ->
  (forall key name msg sev vals keys,
      P (diag (findKeyLine (split newline text) key
                 (findKeyLine (split newline text) name 0)) msg sev vals keys)) ->
  validate text tree = Ok ds -> Forall P ds.
Proof.
  intros H0 H1 H. unfold validate in H. set (lines := split newline text) in *.
  bind_inv H. destruct (_ || _); [injection H as <-; constructor|].
  assert (Hsection : forall name ds', section_diagnostics tree lines name = Ok ds' ->
                                      Forall P ds').
  { intros name ds'. unfold section_diagnostics, validateSection.
    destruct (get tree name) as [section|]; [|intros E; injection E as <-; constructor].
    destruct (is_object section); [|intros E; injection E as <-; constructor].
    apply each_Forall. intros itemName itemConfig ds1 _ E.
    destruct (negb (is_object itemConfig)); [injection E as <-; constructor|].
    revert ds1 E. apply each_Forall. intros key v ds2 _ E. unfold section_key in E.
    repeat match type of E with
           | (if ?c then _ else _) = _ => destruct c; [injection E as <-; constructor|]
           end.
    destruct (Nat.ltb 0 _); [|injection E as <-; constructor].
    apply bind_Ok in E. destruct E as (known & Hknown & E).
    destruct known; injection E as <-; repeat constructor. apply H1. }
  apply bind_Ok in H. destruct H as (top & Htop & H).
  apply bind_Ok in H. destruct H as (version & Hversion & H).
  apply bind_Ok in H. destruct H as (services & Hservices & H).
  bind_inv H. bind_inv H. bind_inv H. bind_inv H.
  injection H as <-. repeat (apply Forall_app; split); eauto.
  - revert top Htop. apply each_Forall. intros key v ds1 _ E. unfold top_level_key in E.
    destruct (startsWith key "x-"); [injection E as <-; constructor|].
    apply bind_Ok in E. destruct E as (known & Hknown & E).
    destruct known; [injection E as <-; constructor|].
    destruct (mem key serviceOnlyKeys); [|destruct (mem key deployOnlyKeys)];
      injection E as <-; repeat constructor; apply H0.
  - unfold version_diagnostics in Hversion.
    apply bind_Ok in Hversion. destruct Hversion as (present & Hpresent & Hversion).
    destruct present; [|injection Hversion as <-; constructor].
    destruct (get tree "version"); [|injection Hversion as <-; constructor].
    apply bind_Ok in Hversion. destruct Hversion as (shown & Hshown & Hversion).
    destruct (negb _); injection Hversion as <-; repeat constructor. apply H0.
  - destruct (get tree "services") as [s|]; [|injection Hservices as <-; constructor].
    destruct (is_object s); [|injection Hservices as <-; constructor].
    revert services Hservices. apply each_Forall. intros serviceName serviceConfig ds1 _ E.
    unfold one_service in E.
    destruct (negb (is_object serviceConfig)); [injection E as <-; constructor|].
    apply bind_Ok in E. destruct E as (required & Hreq & E).
    apply bind_Ok in E. destruct E as (keyed & Hkeyed & E).
    injection E as <-. apply Forall_app; split.
    + apply required_fields_cases in Hreq. destruct Hreq as [->| ->]; repeat constructor.
      apply H0.
    + revert keyed Hkeyed. apply each_Forall. intros key v ds2 _ E. unfold service_key in E.
      destruct (startsWith key "x-"); [injection E as <-; constructor|].
      apply bind_Ok in E. destruct E as (known & Hknown & E). destruct known as [sch|].
      * destruct (_ && _); [|injection E as <-; constructor].
        eapply validateNestedConfig_placed; [exact H0 | exact E].
      * injection E as <-. repeat constructor. apply H1.
Qed.

(** X12. Every diagnostic of [validate] has column 1 and a line from 1 to one
    past the number of lines of the text. *)
Theorem validate_diagnostics_near_text :
  forall (text : string) (tree : value) (ds : list diagnostic),
    validate text tree = Ok ds ->
    Forall (fun d => column d = 1
                     /\ 1 <= line d <= List.length (split newline text) + 1) ds.
Proof.
  intros text tree ds. pose proof (split_nonempty newline text) as Hne.
  assert (Hlen : 1 <= List.length (split newline text)).
  { destruct (split newline text); [contradiction | cbn; lia]. }
  apply validate_placed.
  - intros key msg sev vals keys. split; [reflexivity|]. cbn [diag line].
    pose proof (findKeyLine_range (split newline text) key 0). lia.
  - intros key name msg sev vals keys. split; [reflexivity|]. cbn [diag line].
    pose proof (findKeyLine_range (split newline text) name 0).
    pose proof (findKeyLine_range (split newline text) key
                  (findKeyLine (split newline text) name 0)). lia.
Qed.

(** ** What makes the validator throw *)

Lemma bind_Throws {A B : Type} (c : outcome A) (k : A -> outcome B) :
  bind c k = Throws -> c = Throws \/ exists a, c = Ok a /\ k a = Throws.
Proof.
  destruct c as [a| |]; cbn [bind]; intros H; [right; eauto | left; reflexivity | discriminate].
Qed.

Lemma each_returns {A : Type} (f : string -> A -> outcome (list diagnostic))
  (l : list (string * A)) :
  (forall k v, In (k, v) l -> exists ds, f k v = Ok ds) -> exists ds, each f l = Ok ds.
Proof.
  induction l as [|[k v] l IH]; intros Hf; [eexists; reflexivity|].
  cbn [each]. destruct (Hf k v (or_introl eq_refl)) as (here & ->). cbn [bind].
  destruct IH as (more & ->); [intros k' v' Hin; apply Hf; right; exact Hin|].
  cbn [bind]. eexists. reflexivity.
Qed.

Lemma top_level_key_returns lines key (v : value) :
  mem key object_prototype_names = false -> exists ds, top_level_key lines key v = Ok ds.
Proof.
  intros Hk. unfold top_level_key, lookup_key.
  destruct (startsWith key "x-"); [eexists; reflexivity|].
  destruct (assoc key DockerComposeSchema); cbn [bind]; [eexists; reflexivity|].
  rewrite Hk. cbn [bind].
  destruct (mem key serviceOnlyKeys); [|destruct (mem key deployOnlyKeys)];
    eexists; reflexivity.
Qed.

(** X13. [validate] throws whenever the tree gives [version] a mapping
    that has a key [toString], and no key of the root names a member of the
    prototype of objects: the conversion of the version to a string trips
    over the key. *)
Theorem validate_throws_on_version_mapping :
  forall (text : string) (props ps : list (string * value)),
    get (VObj props) "version" = Some (VObj ps) ->
    has_key "toString" ps = true ->
    forallb (fun kv => negb (mem (fst kv) object_prototype_names)) props = true ->
    validate text (VObj props) = Throws.
Proof.
  intros text props ps Hv Hk Hroot. unfold validate. cbn [truthy bind negb orb].
  assert (Hne : Nat.eqb (List.length (keys (VObj props))) 0 = false).
  { unfold keys. cbn [entries]. destruct props; [discriminate Hv | reflexivity]. }
  rewrite Hne.
  destruct (each_returns (top_level_key (split newline text)) (entries (VObj props)))
    as (top & ->).
  { intros k v Hin. apply top_level_key_returns.
    rewrite forallb_forall in Hroot. specialize (Hroot (k, v) Hin).
    apply negb_true_iff in Hroot. exact Hroot. }
  cbn [bind]. unfold version_diagnostics. rewrite Hv. cbn [truthy_opt truthy bind].
  cbn [to_String]. rewrite Hk. reflexivity.
Qed.

Lemma validate_throws_witness :
  parse version_mapping
  = Ok (mkResult (VObj [("version", VObj [("toString", VNum (NInt 1))])]) [])
  /\ validate version_mapping (VObj [("version", VObj [("toString", VNum (NInt 1))])])
     = Throws.
Proof.
  split; [vm_compute; reflexivity|].
  apply (validate_throws_on_version_mapping version_mapping
           [("version", VObj [("toString", VNum (NInt 1))])]
           [("toString", VNum (NInt 1))]); reflexivity.
Defined.

(** ** The verdict of the editor *)

Import DockerYamlEditor.

Lemma parser_shape_counts d : parser_shape d -> counts_as_error d = true.
Proof.
  unfold parser_shape, counts_as_error.
  intros [H|H]; [rewrite H; reflexivity|].
  destruct H as [H _]. rewrite H. reflexivity.
Qed.

Lemma filter_nil_iff {A : Type} (f : A -> bool) (l : list A) :
  filter f l = [] <-> Forall (fun x => f x = false) l.
Proof.
  split; [|apply filter_none].
  induction l as [|x l IH]; cbn [filter]; intros H; [constructor|].
  destruct (f x) eqn:E; [discriminate|]. constructor; [exact E | apply IH, H].
Qed.

(** X24. The editor holds a text valid exactly when the parser reported
    nothing about it and the validator reported warnings only. *)
Theorem valid_means_warnings_only :
  forall (value : string) (v : validation),
    _validate value = Ok v ->
    (_isValid v = true
     <-> _parseErrors v = []
         /\ Forall (fun d => severity d = Some SevWarning) (_errors v)).
Proof.
  intros value v H. unfold _validate in H.
  apply bind_Ok in H. destruct H as (r & Hparse & H).
  apply bind_Ok in H. destruct H as (ds & Hvalidate & H).
  injection H as <-. cbn [_isValid _parseErrors _errors].
  assert (Hshape : Forall parser_shape (parse_errors r)).
  { unfold parse in Hparse. bind_inv Hparse. injection Hparse as <-.
    apply parse_lines_new in Ha. destruct Ha as (new & He & F).
    cbn [parse_errors]. rewrite He. cbn [initial errors app].
    eapply Forall_impl; [|exact F]. cbn beta. tauto. }
  rewrite Nat.eqb_eq, length_zero_iff_nil, filter_app.
  split.
  - intros E. apply app_eq_nil in E. destruct E as [Ep Ev]. split.
    + destruct (parse_errors r) as [|d l]; [reflexivity|]. exfalso.
      apply Forall_inv in Hshape. apply parser_shape_counts in Hshape.
      cbn [filter] in Ep. rewrite Hshape in Ep. discriminate.
    + apply filter_nil_iff in Ev. eapply Forall_impl; [|exact Ev]. cbn beta.
      intros d. unfold counts_as_error.
      destruct (severity d) as [[|]|]; intros; [discriminate | reflexivity | discriminate].
  - intros [-> Hw]. cbn [filter app]. apply filter_nil_iff.
    eapply Forall_impl; [|exact Hw]. cbn beta. intros d Hd.
    unfold counts_as_error. rewrite Hd. reflexivity.
Qed.

Lemma valid_means_warnings_only_witness :
  _isValid (mkValidation [] [] true) = true
  <-> _parseErrors (mkValidation [] [] true) = []
      /\ Forall (fun d => severity d = Some SevWarning) (_errors (mkValidation [] [] true)).
Proof.
  apply (valid_means_warnings_only "services:").
  vm_compute. reflexivity.
Defined.

(** ** The line search of the validator *)

Import SearchSpec.

(** X14. From any offset, [findKeyLine] returns the number of the first line
    at or after the offset that matches the key pattern, and the number after
    the offset when none matches. *)
Theorem findKeyLine_first_match_from_offset :
  forall (lines : list string) (key : string) (startLine : nat),
    first_match_from lines key startLine (findKeyLine lines key startLine).
Proof.
  intros lines key start. unfold findKeyLine, first_match_from.
  pose proof (find_line_spec key (skipn start lines) start) as H.
  destruct (find_line key (skipn start lines) start) as [n|].
  - left. destruct H as (Hlt & ln & Hn & Hm & Hb). split; [exact Hlt|]. split.
    + exists ln. split; [|exact Hm]. rewrite nth_error_skipn in Hn.
      replace (n - 1) with (start + (n - 1 - start)) by lia. exact Hn.
    + intros i ln' Hi Hnth. apply (Hb (i - start)); [lia|].
      rewrite nth_error_skipn. replace (start + (i - start)) with i by lia. exact Hnth.
  - right. split; [reflexivity|]. intros i ln' Hi Hnth. apply H.
    apply (nth_error_In _ (i - start)). rewrite nth_error_skipn.
    replace (start + (i - start)) with i by lia. exact Hnth.
Qed.

Lemma ws_star_here (k : string -> bool) s : k s = true -> ws_star k s = true.
Proof. intros H. destruct s; cbn [ws_star]; rewrite H; reflexivity. Qed.

Lemma ws_star_skip (k : string -> bool) ws s :
  all_chars is_ws ws = true -> ws_star k s = true -> ws_star k (ws ++ s) = true.
Proof.
  induction ws as [|c t IH]; cbn [all_chars String.append]; intros Hw H; [exact H|].
  apply andb_prop in Hw. destruct Hw as [Hc Ht].
  cbn [ws_star]. rewrite Hc, (IH Ht H). apply orb_true_r.
Qed.

Lemma startsWith_append (a b : string) : startsWith (a ++ b) a = true.
Proof.
  induction a as [|c a IH]; [reflexivity|].
  cbn [String.append startsWith]. rewrite Ascii.eqb_refl. exact IH.
Qed.

(** X15. A line that writes the key after white space alone, or after a dash
    between white space, and puts a colon after it, with white space
    between them or none, matches the pattern [findKeyLine] searches for. *)
Theorem keyPattern_accepts_key_lines :
  forall (ws1 ws2 ws3 key rest : string) (dash : bool),
    all_chars is_ws ws1 = true ->
    all_chars is_ws ws2 = true ->
    all_chars is_ws ws3 = true ->
    keyPattern key (ws1 ++ (if dash then "-" else "") ++ ws2 ++ key ++ ws3 ++ ":" ++ rest)
    = true.
Proof.
  intros ws1 ws2 ws3 key rest dash H1 H2 H3. unfold keyPattern.
  apply ws_star_skip; [exact H1|]. apply ws_star_here.
  assert (Hkey : ws_star (literal key (ws_star colon)) (ws2 ++ key ++ ws3 ++ ":" ++ rest)
                 = true).
  { apply ws_star_skip; [exact H2|]. apply ws_star_here. unfold literal.
    rewrite startsWith_append, drop_length_append. cbn [andb].
    apply ws_star_skip; [exact H3|]. apply ws_star_here. reflexivity. }
  destruct dash.
  - change ("-" ++ ws2 ++ key ++ ws3 ++ ":" ++ rest)
      with (String "-" (ws2 ++ key ++ ws3 ++ ":" ++ rest)).
    cbn [opt_dash]. rewrite Hkey. reflexivity.
  - change ("" ++ ws2 ++ key ++ ws3 ++ ":" ++ rest)
      with (ws2 ++ key ++ ws3 ++ ":" ++ rest).
    destruct (ws2 ++ key ++ ws3 ++ ":" ++ rest) as [|c t]; cbn [opt_dash].
    + exact Hkey.
    + rewrite Hkey. apply orb_true_r.
Qed.

Lemma keyPattern_witness :
  all_chars is_ws "  " = true
  /\ keyPattern "image" ("  " ++ "-" ++ " " ++ "image" ++ "" ++ ":" ++ " nginx") = true.
Proof.
  split; [reflexivity|].
  apply (keyPattern_accepts_key_lines "  " " " "" "image" " nginx" true); reflexivity.
Defined.

(** ** Lines the parser skips *)

Import ParserSpec.

Lemma tab_errors_unplace n n' ln :
  map unplace (tab_errors n ln) = map unplace (tab_errors n' ln).
Proof. unfold tab_errors. destruct (indexOf ln _); reflexivity. Qed.

Lemma indent_errors_unplace n n' unit last indent :
  map unplace (indent_errors n unit last indent)
  = map unplace (indent_errors n' unit last indent).
Proof.
  unfold indent_errors. destruct (_ && _); [|reflexivity].
  destruct (negb _), (_ && _); reflexivity.
Qed.

Lemma lookahead_filter rest : lookahead (filter is_content rest) = lookahead rest.
Proof.
  induction rest as [|ln rest IH]; [reflexivity|].
  cbn [filter lookahead]. unfold is_content.
  destruct (String.eqb (trim ln) "" || startsWith (trim ln) "#") eqn:E; cbn [negb].
  - exact IH.
  - cbn [lookahead]. rewrite E. reflexivity.
Qed.

Lemma parse_line_erase n n' ln rest rest' st st' :
  erase st = erase st' ->
  lookahead rest = lookahead rest' ->
  outcome_map erase (parse_line n ln rest st)
  = outcome_map erase (parse_line n' ln rest' st').
Proof.
  destruct st as [res stk errs unit last], st' as [res' stk' errs' unit' last'].
  unfold erase at 1 2. cbn [result stack errors indentUnit lastIndent].
  intros H Hlook. injection H as <- <- He <- <-.
  unfold parse_line. cbn [result stack errors indentUnit lastIndent].
  destruct (_ || _); [cbn; unfold erase; cbn; rewrite He; reflexivity|].
  destruct (search_nonws ln =? -1)%Z; [cbn; unfold erase; cbn; rewrite He; reflexivity|].
  set (unit' := detect_unit unit (search_nonws ln)).
  assert (HE : map unplace (errs ++ tab_errors n ln
                            ++ indent_errors n unit' last (search_nonws ln))%list
               = map unplace (errs' ++ tab_errors n' ln
                              ++ indent_errors n' unit' last (search_nonws ln))%list).
  { rewrite !map_app, He, (tab_errors_unplace n n'), (indent_errors_unplace n n').
    reflexivity. }
  revert HE.
  generalize (errs ++ tab_errors n ln ++ indent_errors n unit' last (search_nonws ln))%list.
  generalize (errs' ++ tab_errors n' ln ++ indent_errors n' unit' last (search_nonws ln))%list.
  intros E1' E1 HE.
  destruct (lookup _ res) as [target|]; [|reflexivity].
  assert (HE2 : map unplace (if startsWith (trim ln) "-" && negb (isArray target)
                             then (E1 ++ [err n 1 list_parent_message])%list else E1)
                = map unplace (if startsWith (trim ln) "-" && negb (isArray target)
                               then (E1' ++ [err n' 1 list_parent_message])%list else E1')).
  { destruct (_ && _); [|exact HE]. rewrite !map_app, HE. reflexivity. }
  revert HE2.
  generalize (if startsWith (trim ln) "-" && negb (isArray target)
              then (E1 ++ [err n 1 list_parent_message])%list else E1).
  generalize (if startsWith (trim ln) "-" && negb (isArray target)
              then (E1' ++ [err n' 1 list_parent_message])%list else E1').
  intros E2' E2 HE2. clear HE He.
  assert (Hst : forall r s u l,
             erase (mkState r s E2 u l) = erase (mkState r s E2' u l)).
  { intros. unfold erase. cbn. rewrite HE2. reflexivity. }
  destruct (startsWith (trim ln) "- ").
  { unfold list_item. cbn [result stack errors indentUnit lastIndent].
    destruct (negb (isArray target)); [cbn; f_equal; apply Hst|].
    destruct (String.eqb _ ""); [cbn; f_equal; apply Hst|].
    destruct (_ && _); [|cbn; f_equal; apply Hst].
    destruct (indexOf _ ":"); [|cbn; f_equal; apply Hst].
    destruct (String.eqb _ "__proto__"); [reflexivity|].
    destruct (String.eqb _ ""); cbn; f_equal; apply Hst. }
  destruct (String.eqb (trim ln) "-").
  { unfold bare_item. cbn [result stack errors indentUnit lastIndent].
    destruct (isArray target); cbn; f_equal; apply Hst. }
  unfold key_value. cbn [result stack errors indentUnit lastIndent].
  rewrite Hlook.
  destruct (indexOf (trim ln) ":") as [colonIdx|].
  - destruct (Nat.ltb 0 colonIdx); [|cbn; f_equal; apply Hst].
    destruct (lookahead rest') as [nextIndent nextIsArray].
    destruct (is_block_marker _).
    + destruct (_ <? _)%Z.
      * destruct (assign _ _ _ res); cbn; try reflexivity. f_equal. apply Hst.
      * destruct (assign _ _ _ res); cbn; try reflexivity. f_equal. apply Hst.
    + destruct (assign _ _ _ res); cbn; try reflexivity. f_equal. apply Hst.
  - destruct (negb _); cbn; f_equal; [|apply Hst].
    unfold erase. cbn. rewrite !map_app, HE2. reflexivity.
Qed.

Lemma parse_lines_erase lines : forall n n' st st',
  erase st = erase st' ->
  outcome_map erase (parse_lines n lines st)
  = outcome_map erase (parse_lines n' (filter is_content lines) st').
Proof.
  induction lines as [|ln rest IH]; intros n n' st st' H.
  - cbn. rewrite H. reflexivity.
  - cbn [filter parse_lines]. destruct (is_content ln) eqn:Ec.
    + cbn [parse_lines].
      pose proof (parse_line_erase n n' ln rest (filter is_content rest) st st' H
                    (eq_sym (lookahead_filter rest))) as Hstep.
      destruct (parse_line n ln rest st) as [s1| |],
               (parse_line n' ln (filter is_content rest) st') as [s1'| |];
        cbn [outcome_map] in Hstep; try discriminate; cbn [bind]; try reflexivity.
      apply IH. congruence.
    + assert (Hskip : parse_line n ln rest st = Ok st).
      { unfold parse_line. unfold is_content in Ec. apply negb_false_iff in Ec.
        rewrite Ec. reflexivity. }
      rewrite Hskip. cbn [bind]. apply IH. exact H.
Qed.

Lemma split_no_separator (c : ascii) (s : string) :
  all_chars (fun a => negb (Ascii.eqb a c)) s = true -> split c s = [s].
Proof.
  induction s as [|a t IH]; cbn [all_chars split]; [reflexivity|].
  intros H. apply andb_prop in H. destruct H as [Ha Ht].
  apply negb_true_iff in Ha. rewrite Ha, (IH Ht). reflexivity.
Qed.

Lemma split_append (c : ascii) (s rest : string) :
  all_chars (fun a => negb (Ascii.eqb a c)) s = true ->
  split c (s ++ String c rest) = s :: split c rest.
Proof.
  induction s as [|a t IH]; cbn [all_chars String.append split].
  - intros _. rewrite Ascii.eqb_refl. reflexivity.
  - intros H. apply andb_prop in H. destruct H as [Ha Ht].
    apply negb_true_iff in Ha. rewrite Ha, (IH Ht). reflexivity.
Qed.

Lemma split_pieces (c : ascii) (s : string) :
  Forall (fun p => all_chars (fun a => negb (Ascii.eqb a c)) p = true) (split c s).
Proof.
  induction s as [|a t IH]; cbn [split]; [repeat constructor|].
  destruct (Ascii.eqb a c) eqn:E; [constructor; [reflexivity | exact IH]|].
  destruct (split c t) as [|h r]; [repeat constructor; cbn; rewrite E; reflexivity|].
  inversion IH as [|? ? Hh Hr]; subst. constructor; [|exact Hr].
  cbn [all_chars]. rewrite E, Hh. reflexivity.
Qed.

Lemma split_text_of (lines : list string) :
  lines <> [] ->
  Forall (fun p => all_chars (fun a => negb (Ascii.eqb a newline)) p = true) lines ->
  split newline (text_of lines) = lines.
Proof.
  unfold text_of. induction lines as [|ln rest IH]; intros Hne F; [contradiction|].
  inversion F as [|? ? Hln Hrest]; subst.
  destruct rest as [|ln' rest'].
  - cbn [String.concat]. apply split_no_separator, Hln.
  - change (String.concat nl (ln :: ln' :: rest'))
      with (ln ++ String newline (String.concat nl (ln' :: rest'))).
    rewrite split_append by exact Hln. f_equal. apply IH; [discriminate | exact Hrest].
Qed.

Lemma filter_Forall_keep {A : Type} (P : A -> Prop) (f : A -> bool) (l : list A) :
  Forall P l -> Forall P (filter f l).
Proof.
  induction 1 as [|x l Hx _ IH]; cbn [filter]; [constructor|].
  destruct (f x); [constructor; assumption | exact IH].
Qed.

(** X4. Comments and blank lines do not matter to [parse]: the text with
    those lines taken out gives the same tree and the same diagnostics, line
    numbers apart (and throws when the text does). *)
Theorem comments_and_blank_lines_do_not_matter :
  forall (text : string),
    up_to_lines (parse (text_of (filter is_content (split newline text))))
    = up_to_lines (parse text).
Proof.
  intros text. unfold up_to_lines, parse.
  assert (Hrun : forall lines,
             outcome_map erase (parse_lines 1 lines initial)
             = outcome_map erase (parse_lines 1 (filter is_content (split newline text))
                                    initial) ->
             outcome_map (fun r => (data r, map unplace (parse_errors r)))
               (st <- parse_lines 1 lines initial ;; Ok (mkResult (result st) (errors st)))
             = outcome_map (fun r => (data r, map unplace (parse_errors r)))
                 (st <- parse_lines 1 (split newline text) initial ;;
                  Ok (mkResult (result st) (errors st)))).
  { intros lines H.
    rewrite <- (parse_lines_erase (split newline text) 1 1 initial initial eq_refl) in H.
    destruct (parse_lines 1 lines initial) as [s| |],
             (parse_lines 1 (split newline text) initial) as [s'| |];
      cbn [outcome_map] in H; try discriminate; cbn [bind outcome_map]; try reflexivity.
    injection H as H1 _ H2 _ _. cbn [data parse_errors]. rewrite H1, H2. reflexivity. }
  apply Hrun.
  destruct (filter is_content (split newline text)) as [|ln rest] eqn:E.
  - reflexivity.
  - rewrite <- E, split_text_of; [reflexivity | rewrite E; discriminate|].
    apply filter_Forall_keep, split_pieces.
Qed.

(** ** A line that begins with a colon *)

Lemma first_colon_line_dropped_aux trimmed :
  startsWith trimmed ":" = true ->
  (String.eqb trimmed "" || startsWith trimmed "#") = false
  /\ startsWith trimmed "-" = false
  /\ startsWith trimmed "- " = false
  /\ String.eqb trimmed "-" = false
  /\ indexOf trimmed ":" = Some 0.
Proof.
  destruct trimmed as [|c t]; cbn [startsWith]; [discriminate|].
  intros H. apply andb_prop in H. destruct H as [H _].
  apply Ascii.eqb_eq in H. subst c. repeat split; reflexivity.
Qed.

(** X6. A content line whose first character is a colon is dropped without
    a word: the tree stays as it is, and the line adds no diagnostic besides
    those about tabs and indentation. *)
Theorem line_with_leading_colon_is_dropped :
  forall (lineNum : nat) (ln : string) (rest : list string) (st st' : pstate),
    startsWith (trim ln) ":" = true ->
    parse_line lineNum ln rest st = Ok st' ->
    result st' = result st
    /\ errors st'
       = (errors st ++ tab_errors lineNum ln
          ++ indent_errors lineNum (detect_unit (indentUnit st) (search_nonws ln))
               (lastIndent st) (search_nonws ln))%list.
Proof.
  intros lineNum ln rest st st' Hc H.
  destruct (first_colon_line_dropped_aux _ Hc) as (Hskip & Hdash & Hitem & Hbare & Hidx).
  unfold parse_line in H. rewrite Hskip, Hdash, Hitem, Hbare in H.
  rewrite search_nonws_content in H.
  2:{ intros E. rewrite E in Hc. discriminate. }
  destruct (lookup _ (result st)) as [target|]; [|discriminate].
  unfold key_value in H. rewrite Hidx in H. cbn [Nat.ltb Nat.leb andb] in H.
  injection H as <-. cbn [result errors]. split; reflexivity.
Qed.

Lemma line_with_leading_colon_witness :
  result (mkState (VObj []) [root_frame] [] 0 0) = result initial
  /\ errors (mkState (VObj []) [root_frame] [] 0 0)
     = (errors initial ++ tab_errors 1 ": x"
        ++ indent_errors 1 (detect_unit (indentUnit initial) (search_nonws ": x"))
             (lastIndent initial) (search_nonws ": x"))%list.
Proof.
  apply (line_with_leading_colon_is_dropped 1 ": x" [] initial).
  - reflexivity.
  - vm_compute. reflexivity.
Defined.

(** ** Tabs *)

Lemma indent_errors_not_tab n unit last indent :
  Forall (fun d => is_tab d = false) (indent_errors n unit last indent).
Proof.
  unfold indent_errors. destruct (_ && _); [|constructor].
  apply Forall_app; split.
  - destruct (negb _); repeat constructor.
  - destruct (_ && _); repeat constructor.
Qed.

(** X5. A content line that holds a tab gets exactly one diagnostic about
    tabs, and its column is that of the first tab of the line. *)
Theorem tab_reported_once :
  forall (text : string) (pre post : list string) (ln : string) (i : nat)
         (r : parse_result),
    split newline text = (pre ++ ln :: post)%list ->
    is_content ln = true ->
    indexOf ln (String tab_char EmptyString) = Some i ->
    parse text = Ok r ->
    filter (fun d => at_line (List.length pre + 1) d && is_tab d) (parse_errors r)
    = [err (List.length pre + 1) (i + 1) tab_message].
Proof.
  intros text pre post ln i r Hlines Hc Hi Hparse.
  set (N := List.length pre + 1).
  unfold parse in Hparse. bind_inv Hparse. injection Hparse as <-.
  cbn [parse_errors]. rename a into st'. rewrite Hlines in Ha.
  apply parse_lines_prefix in Ha.
  destruct Ha as (st0 & new0 & Hrun & _ & He0 & F0).
  cbn [parse_lines] in Hrun. bind_inv Hrun. rename a into st1.
  pose proof (parse_lines_new _ _ _ _ Hrun) as (new2 & He2 & F2).
  apply parse_line_scalars in Ha.
  destruct Ha as [[Hn _]|(_ & _ & _ & extra & He1 & Hx)]; [congruence|].
  replace (1 + List.length pre) with N in * by (unfold N; lia).
  assert (Hoff : forall d, line d <> N -> at_line N d && is_tab d = false).
  { intros d Hd. unfold at_line. apply Nat.eqb_neq in Hd. rewrite Hd. reflexivity. }
  rewrite He2, He1, He0. cbn [initial errors app]. rewrite !filter_app.
  rewrite (filter_none _ new0), (filter_none _ (indent_errors _ _ _ _)),
    (filter_none _ extra), (filter_none _ new2).
  - unfold tab_errors. rewrite Hi. cbn [filter app]. unfold at_line, is_tab.
    cbn [line message err]. rewrite Nat.eqb_refl, String.eqb_refl. reflexivity.
  - eapply Forall_impl; [|exact F2]. cbn beta. intros d [Hd _]. apply Hoff. lia.
  - destruct Hx as [->|[->| ->]]; repeat constructor; apply andb_false_r.
  - eapply Forall_impl; [|apply indent_errors_not_tab]. cbn beta.
    intros d ->. apply andb_false_r.
  - eapply Forall_impl; [|exact F0]. cbn beta. intros d Hd. apply Hoff. lia.
Qed.

(** ** Scalars that survive being written and read *)

Lemma digits_of_uint (d : Decimal.uint) : forall acc : nat,
  digits_value (Z.of_nat acc) (NilEmpty.string_of_uint d)
  = Z.of_nat (Nat.of_uint_acc d acc).
Proof.
  induction d as [|d IH|d IH|d IH|d IH|d IH|d IH|d IH|d IH|d IH|d IH]; intros acc;
    [reflexivity|..];
    cbn [NilEmpty.string_of_uint digits_value Nat.of_uint_acc];
    rewrite <- IH; f_equal; rewrite Nat.tail_mul_spec;
    match goal with
    | |- context [nat_of_ascii ?c - 48] =>
        let v := eval vm_compute in (nat_of_ascii c - 48) in
        change (nat_of_ascii c - 48) with v
    end; lia.
Qed.

Lemma digits_value_of_nat (n : nat) : digits_value 0 (of_nat n) = Z.of_nat n.
Proof.
  unfold of_nat. pose proof (digits_of_uint (Nat.to_uint n) 0) as H.
  change (Z.of_nat 0) with 0%Z in H. rewrite H.
  change (Nat.of_uint_acc (Nat.to_uint n) 0) with (Nat.of_uint (Nat.to_uint n)).
  rewrite DecimalNat.Unsigned.of_to. reflexivity.
Qed.

Lemma all_digits_of_uint (d : Decimal.uint) :
  all_chars is_digit (NilEmpty.string_of_uint d) = true.
Proof. induction d; cbn [NilEmpty.string_of_uint all_chars]; [reflexivity | exact IHd ..]. Qed.

Lemma of_nat_head (n : nat) :
  exists c t, of_nat n = String c t /\ is_digit c = true.
Proof.
  pose proof (all_digits_of_uint (Nat.to_uint n)) as Hd.
  assert (Hne : Nat.to_uint n <> Decimal.Nil).
  { pose proof (DecimalNat.Unsigned.to_of (Nat.to_uint n)) as H.
    rewrite DecimalNat.Unsigned.of_to in H. rewrite H.
    unfold Decimal.unorm. destruct (Decimal.nzhead _); discriminate. }
  unfold of_nat. destruct (Nat.to_uint n) eqn:E; [contradiction|..];
    cbn [NilEmpty.string_of_uint]; eexists; eexists; split; reflexivity.
Qed.

Lemma parseValue_int_literal (str : string) :
  is_int_literal str = true -> parseValue str = VNum (parseInt str).
Proof.
  intros H. unfold parseValue.
  repeat match goal with
         | |- context [String.eqb str ?l] =>
             destruct (String.eqb_spec str l) as [-> | ?]; [discriminate H|]
         end.
  cbn [orb]. rewrite H. reflexivity.
Qed.

Lemma parseValue_of_Z (z : Z) :
  (Z.abs z <= 9007199254740992)%Z -> parseValue (of_Z z) = VNum (NInt z).
Proof.
  intros Hz.
  assert (Hnat : forall n, (Z.of_nat n <= 9007199254740992)%Z ->
                           is_int_literal (of_nat n) = true
                           /\ startsWith (of_nat n) "-" = false).
  { intros n _. destruct (of_nat_head n) as (c & t & E & Hc).
    assert (Hdash : startsWith (of_nat n) "-" = false).
    { rewrite E. cbn [startsWith]. destruct (Ascii.eqb_spec c "-"%char) as [->|]; [discriminate Hc | reflexivity]. }
    split; [|exact Hdash]. unfold is_int_literal. rewrite Hdash.
    unfold of_nat at 2. rewrite all_digits_of_uint. rewrite E. reflexivity. }
  destruct z as [|p|p]; cbn [of_Z].
  - reflexivity.
  - destruct (Hnat (Z.to_nat (Zpos p))) as [Hlit Hdash]; [lia|].
    rewrite parseValue_int_literal by exact Hlit.
    unfold parseInt. rewrite Hdash. cbv iota. rewrite digits_value_of_nat.
    destruct (Z.leb_spec (Z.of_nat (Z.to_nat (Z.pos p))) 9007199254740992); [|lia].
    f_equal. f_equal. lia.
  - destruct (Hnat (Pos.to_nat p)) as [Hlit Hdash]; [lia|].
    assert (Hneg : is_int_literal ("-" ++ of_nat (Pos.to_nat p)) = true).
    { unfold is_int_literal in *. rewrite Hdash in Hlit. exact Hlit. }
    rewrite parseValue_int_literal by exact Hneg.
    unfold parseInt. change (startsWith ("-" ++ of_nat (Pos.to_nat p)) "-") with true.
    change (drop 1 ("-" ++ of_nat (Pos.to_nat p))) with (of_nat (Pos.to_nat p)).
    cbv iota. rewrite digits_value_of_nat.
    destruct (Z.leb_spec (Z.of_nat (Pos.to_nat p)) 9007199254740992); [|lia].
    f_equal. f_equal. lia.
Qed.

Lemma no_quote_replace_from (s : string) : forall i : nat,
  indexOf_from dq s i = None ->
  replace_all (Ascii.eqb (ascii_of_nat 34)) ("\" ++ dq) s = s.
Proof.
  induction s as [|c t IH]; intros i H; [reflexivity|].
  cbn [indexOf_from] in H. cbn [replace_all].
  change (startsWith (String c t) dq) with (Ascii.eqb c (ascii_of_nat 34) && true) in H.
  rewrite andb_true_r in H.
  rewrite (Ascii.eqb_sym (ascii_of_nat 34) c).
  destruct (Ascii.eqb c (ascii_of_nat 34)); [discriminate|].
  rewrite (IH (S i) H). reflexivity.
Qed.

Lemma no_quote_replace (s : string) :
  includes s dq = false ->
  replace_all (Ascii.eqb (ascii_of_nat 34)) ("\" ++ dq) s = s.
Proof.
  unfold includes, indexOf. intros H. apply (no_quote_replace_from s 0).
  destruct (indexOf_from dq s 0); [discriminate | reflexivity].
Qed.

Lemma parseValue_quoted (s : string) :
  parseValue (dq ++ s ++ dq) = VStr s.
Proof.
  assert (Hq : is_quoted (dq ++ s ++ dq) = true).
  { unfold is_quoted, endsWith. change (startsWith (dq ++ s ++ dq) dq) with true.
    cbn [andb orb]. apply orb_true_iff. left.
    change (dq ++ s ++ dq) with (String (ascii_of_nat 34) (s ++ dq)).
    cbn [String.length]. rewrite length_append. cbn [String.length dq].
    replace (S (String.length s + 1) - 1) with (S (String.length s)) by lia.
    cbn [drop Nat.leb]. rewrite drop_length_append. reflexivity. }
  unfold parseValue. rewrite Hq.
  change (dq ++ s ++ dq) with (String (ascii_of_nat 34) (s ++ dq)).
  assert (Hint : is_int_literal (String (ascii_of_nat 34) (s ++ dq)) = false) by reflexivity.
  assert (Hdec : is_decimal_literal (String (ascii_of_nat 34) (s ++ dq)) = false).
  { unfold is_decimal_literal.
    change (startsWith (String (ascii_of_nat 34) (s ++ dq)) "-") with false. cbv iota.
    destruct (indexOf _ ".") as [[|i]|]; reflexivity. }
  rewrite Hint, Hdec. cbn -[slice_1_m1].
  unfold slice_1_m1. cbn [String.length drop]. rewrite length_append. cbn [String.length dq].
  replace (S (String.length s + 1) - 2) with (String.length s) by lia.
  rewrite take_length_append. reflexivity.
Qed.

(** X9. What [valueToString] writes for [null], for a boolean, for an
    integer that a double holds exactly, and for a string that it puts in
    quotes and that holds no double quote, [parseValue] reads back as the
    same value. *)
Theorem scalar_read_back :
  forall (v : value),
    read_back v = true ->
    exists t, valueToString v = Ok t /\ parseValue t = v.
Proof.
  intros [|[|]|[z|lit]|s|es ps|ps] H; cbn [read_back] in H; try discriminate.
  - exists "null". split; reflexivity.
  - exists "true". split; reflexivity.
  - exists "false". split; reflexivity.
  - exists (of_Z z). split; [reflexivity|]. apply parseValue_of_Z. apply Z.leb_le, H.
  - apply andb_prop in H. destruct H as [Hq Hn]. apply negb_true_iff in Hn.
    exists (dq ++ s ++ dq). cbn [valueToString]. rewrite Hq, (no_quote_replace s Hn).
    split; [reflexivity | apply parseValue_quoted].
Qed.

Lemma scalar_read_back_witness :
  exists t, valueToString (VStr "a: b") = Ok t /\ parseValue t = VStr "a: b".
Proof. apply (scalar_read_back (VStr "a: b")). reflexivity. Defined.

(** ** Writing a tree *)

Lemma valueToString_scalar_never_throws (v : value) :
  (is_object v = false \/ v = VObj []) -> valueToString v <> Throws.
Proof.
  intros [H| ->]; [|discriminate].
  destruct v as [|[|]|[z|lit]|s|es ps|ps]; cbn; try discriminate.
  destruct (needs_quotes s); discriminate.
Qed.

Lemma valueToString_scalar_returns (v : value) :
  (is_object v = false \/ v = VObj []) -> holds_literal v = false ->
  exists t, valueToString v = Ok t.
Proof.
  intros [H| ->] Hl; [|eexists; reflexivity].
  destruct v as [|[|]|[z|lit]|s|es ps|ps]; cbn in *; try discriminate;
    try (eexists; reflexivity).
  destruct (needs_quotes s); eexists; reflexivity.
Qed.

Lemma stringify_not_throws :
  forall (obj : value) (indent : nat), stringify obj indent <> Throws.
Proof.
  induction obj as [|b|n|s|es ps IHes _|ps IH] using value_induction; intros indent;
    cbn [stringify]; try discriminate.
  - induction IHes as [|item es Hitem _ IHl]; [discriminate|].
    intros H. apply bind_Throws in H. destruct H as [H|(s & _ & H)].
    + destruct (is_object item) eqn:Eo.
      * apply bind_Throws in H. destruct H as [H|(sub & _ & H)]; [|discriminate].
        exact (Hitem _ H).
      * apply bind_Throws in H. destruct H as [H|(t & _ & H)]; [|discriminate].
        apply (valueToString_scalar_never_throws item); [left; exact Eo | exact H].
    + apply bind_Throws in H. destruct H as [H|(r & _ & H)]; [|discriminate].
      exact (IHl H).
  - induction IH as [|[key v] ps Hv _ IHl]; [discriminate|].
    intros H. apply bind_Throws in H. destruct H as [H|(s & _ & H)].
    + destruct ((is_object v && negb (isArray v) && Nat.ltb 0 (List.length (keys v)))
                || isArray v) eqn:Ec.
      * apply bind_Throws in H. destruct H as [H|(sub & _ & H)]; [|discriminate].
        exact (Hv _ H).
      * apply bind_Throws in H. destruct H as [H|(t & _ & H)]; [|discriminate].
        apply (valueToString_scalar_never_throws v); [|exact H].
        destruct v as [|b|n|s'|es' ps'|[|p ps']]; cbn in Ec; try discriminate; auto.
    + apply bind_Throws in H. destruct H as [H|(r & _ & H)]; [|discriminate].
      exact (IHl H).
Qed.

Lemma stringify_total :
  forall (obj : value) (indent : nat),
    holds_literal obj = false -> exists s, stringify obj indent = Ok s.
Proof.
  induction obj as [|b|n|s|es ps IHes _|ps IH] using value_induction; intros indent Hl;
    cbn [stringify]; try (eexists; reflexivity).
  - cbn [holds_literal] in Hl. apply orb_false_iff in Hl. destruct Hl as [Hl _].
    induction IHes as [|item es Hitem _ IHl]; [eexists; reflexivity|].
    cbn [existsb] in Hl. apply orb_false_iff in Hl. destruct Hl as [Hitem_l Hrest_l].
    destruct (IHl Hrest_l) as (r & Er).
    destruct (is_object item) eqn:Eo.
    + destruct (Hitem (S indent) Hitem_l) as (sub & ->). cbn [bind].
      rewrite Er. cbn [bind]. eexists. reflexivity.
    + destruct (valueToString_scalar_returns item (or_introl Eo) Hitem_l) as (t & ->).
      cbn [bind]. rewrite Er. cbn [bind]. eexists. reflexivity.
  - cbn [holds_literal] in Hl.
    induction IH as [|[key v] ps Hv _ IHl]; [eexists; reflexivity|].
    cbn [existsb snd] in Hl. apply orb_false_iff in Hl. destruct Hl as [Hv_l Hrest_l].
    destruct (IHl Hrest_l) as (r & Er). cbn [snd] in Hv.
    destruct ((is_object v && negb (isArray v) && Nat.ltb 0 (List.length (keys v)))
              || isArray v) eqn:Ec.
    + destruct (Hv (S indent) Hv_l) as (sub & ->). cbn [bind].
      rewrite Er. cbn [bind]. eexists. reflexivity.
    + assert (Hscalar : is_object v = false \/ v = VObj []).
      { destruct v as [|b|n|s'|es' ps'|[|p ps']]; cbn in Ec; try discriminate; auto. }
      destruct (valueToString_scalar_returns v Hscalar Hv_l) as (t & ->).
      cbn [bind]. rewrite Er. cbn [bind]. eexists. reflexivity.
Qed.

(** X10. On a tree of plain data, whose mappings and lists have only the
    properties the tree shows, and at an indent of zero or more, [stringify]
    does not throw, and it returns a text when the tree holds no number that
    the embedding keeps as a literal. *)
Theorem stringify_returns_on_plain_data :
  forall (obj : value) (indent : nat),
    stringify obj indent <> Throws
    /\ (holds_literal obj = false -> exists s, stringify obj indent = Ok s).
Proof.
  intros obj indent. split; [apply stringify_not_throws | apply stringify_total].
Qed.

Lemma stringify_returns_witness :
  holds_literal (VObj [("ports", VArr [VStr "80:80"] []); ("scale", VNum (NInt 2))]) = false
  /\ exists s,
       stringify (VObj [("ports", VArr [VStr "80:80"] []); ("scale", VNum (NInt 2))]) 0
       = Ok s.
Proof.
  split; [reflexivity|].
  apply (proj2 (stringify_returns_on_plain_data
                  (VObj [("ports", VArr [VStr "80:80"] []); ("scale", VNum (NInt 2))]) 0)).
  reflexivity.
Defined.

(** ** Texts on which the parser returns *)

Lemma set_prop_plain t key v :
  is_object t = true -> plain_key key = true -> exists t', set_prop t key v = Ok t'.
Proof.
  unfold plain_key, set_prop. intros Ho Hk. apply negb_true_iff in Hk.
  destruct t; try discriminate.
  - rewrite Hk. eexists. reflexivity.
  - apply orb_false_iff in Hk. destruct Hk as [Hk _].
    apply orb_false_iff in Hk. destruct Hk as [Hk _].
    apply orb_false_iff in Hk. destruct Hk as [Hk _].
    rewrite Hk. eexists. reflexivity.
Qed.

Lemma assign_plain d st key v :
  st <> [] -> Forall (leads_to_container d) st -> plain_key key = true ->
  exists d', assign (f_obj (top st)) key v d = Ok d'.
Proof.
  intros Hne F Hk. unfold assign.
  destruct (top_leads d st Hne F) as (c & Hl & Hc). rewrite Hl.
  destruct (set_prop_plain c key v Hc Hk) as (t' & ->). cbn [bind].
  eexists. reflexivity.
Qed.

Lemma parse_line_modelled lineNum ln rest st :
  well_formed st -> tame_line ln = true -> parse_line lineNum ln rest st <> Unmodelled.
Proof.
  intros (Hd & Hne & F & N) Ht. unfold tame_line in Ht.
  apply andb_prop in Ht. destruct Ht as [Tkey Titem].
  unfold parse_line.
  destruct (_ || _); [discriminate|].
  destruct (search_nonws ln =? -1)%Z; [discriminate|].
  destruct (pop_frames_well_formed (search_nonws ln) _ _ F N) as [F1 N1].
  pose proof (pop_frames_nonempty (search_nonws ln) _ Hne) as Hne1.
  destruct (top_leads _ _ Hne1 F1) as (target & Hl & Hobj). rewrite Hl.
  destruct (startsWith (trim ln) "- ").
  { unfold list_item.
    destruct (negb (isArray target)); [discriminate|].
    destruct (String.eqb _ ""); [discriminate|].
    destruct (_ && _); [|discriminate].
    unfold key_before_colon in Titem.
    destruct (indexOf (trim (drop 2 (trim ln))) ":") as [colonIdx|]; [|discriminate].
    apply negb_true_iff in Titem. rewrite Titem.
    destruct (String.eqb _ ""); discriminate. }
  destruct (String.eqb (trim ln) "-"); [discriminate|].
  unfold key_value. unfold key_before_colon in Tkey.
  destruct (indexOf (trim ln) ":") as [colonIdx|].
  2:{ destruct (negb _); discriminate. }
  destruct (Nat.ltb 0 colonIdx); [|discriminate].
  destruct (lookahead rest) as [nextIndent nextIsArray].
  cbn [result stack errors indentUnit lastIndent].
  assert (Hassign : forall v (k : value -> outcome pstate),
             (forall d', k d' <> Unmodelled) ->
             bind (assign (f_obj (top (pop_frames (search_nonws ln) (stack st))))
                     (trim (take colonIdx (trim ln))) v (result st)) k <> Unmodelled).
  { intros v k Hk.
    destruct (assign_plain (result st) _ (trim (take colonIdx (trim ln))) v Hne1 F1 Tkey)
      as (d' & ->).
    cbn [bind]. apply Hk. }
  destruct (is_block_marker _).
  - destruct (_ <? _)%Z; apply Hassign; discriminate.
  - apply Hassign. discriminate.
Qed.

Lemma parse_line_returns lineNum ln rest st :
  well_formed st -> tame_line ln = true ->
  exists st', parse_line lineNum ln rest st = Ok st' /\ well_formed st'.
Proof.
  intros Hwf Ht.
  pose proof (parse_line_well_formed lineNum ln rest st Hwf) as H.
  pose proof (parse_line_modelled lineNum ln rest st Hwf Ht) as Hm.
  destruct (parse_line lineNum ln rest st) as [st'| |];
    [exists st'; split; [reflexivity | exact H] | contradiction | contradiction].
Qed.

Lemma parse_lines_returns lines : forall lineNum st,
  well_formed st -> forallb tame_line lines = true ->
  exists st', parse_lines lineNum lines st = Ok st' /\ well_formed st'.
Proof.
  induction lines as [|ln rest IH]; intros lineNum st Hwf Ht.
  - exists st. split; [reflexivity | exact Hwf].
  - cbn [forallb] in Ht. apply andb_prop in Ht. destruct Ht as [Hln Hrest].
    destruct (parse_line_returns lineNum ln rest st Hwf Hln) as (st1 & E & Hwf1).
    cbn [parse_lines]. rewrite E. cbn [bind]. apply IH; assumption.
Qed.

(** X1. [parse] returns, and with an object or a list at the root of the
    tree, on every text whose keys are plain: no line has [__proto__],
    [length], [push] or a list index before its first colon, and no list item
    has [__proto__] before its first colon. *)
Theorem parse_returns_on_plain_keys :
  forall (text : string),
    forallb tame_line (split newline text) = true ->
    exists r, parse text = Ok r /\ is_object (data r) = true.
Proof.
  intros text Ht. unfold parse.
  destruct (parse_lines_returns (split newline text) 1 initial initial_well_formed Ht)
    as (st & E & Hwf).
  rewrite E. cbn [bind]. eexists. split; [reflexivity|]. apply Hwf.
Qed.

Lemma parse_returns_witness :
  forallb tame_line (split newline small_service) = true
  /\ exists r, parse small_service = Ok r /\ is_object (data r) = true.
Proof.
  split; [vm_compute; reflexivity|].
  apply (parse_returns_on_plain_keys small_service). vm_compute. reflexivity.
Defined.

(** ** What a line writes *)

(** X7. A key line with a value on it and a plain key (not [__proto__],
    [length], [push] or a list index) is accepted in every well-formed
    state, and stores the value, as [parseValue] reads it, under the key in
    the container that encloses the line; the values [[]] and [{}] store an
    empty list and an empty mapping. *)
Theorem key_line_stores_its_value :
  forall (lineNum : nat) (ln : string) (rest : list string) (st : pstate)
         (colonIdx : nat),
    well_formed st ->
    is_content ln = true ->
    startsWith (trim ln) "- " = false ->
    indexOf (trim ln) ":" = Some colonIdx ->
    0 < colonIdx ->
    is_block_marker (trim (drop (colonIdx + 1) (trim ln))) = false ->
    plain_key (trim (take colonIdx (trim ln))) = true ->
    exists st',
      parse_line lineNum ln rest st = Ok st'
      /\ lookup (f_obj (top (pop_frames (search_nonws ln) (stack st)))
                 ++ [SKey (trim (take colonIdx (trim ln)))])%list
                (result st')
         = Some (let valueStr := trim (drop (colonIdx + 1) (trim ln)) in
                 if String.eqb valueStr "[]" then VArr [] []
                 else if String.eqb valueStr "{}" then VObj []
                 else parseValue valueStr).
Proof.
  intros lineNum ln rest st colonIdx (Hd & Hne & F & N) Hc Hitem Hidx Hpos Hblock Hkey.
  unfold parse_line. unfold is_content in Hc. apply negb_true_iff in Hc.
  rewrite Hc, Hitem.
  assert (Hbare : String.eqb (trim ln) "-" = false).
  { destruct (String.eqb_spec (trim ln) "-") as [E|]; [|reflexivity].
    rewrite E in Hidx. discriminate. }
  rewrite Hbare.
  rewrite search_nonws_content.
  2:{ apply orb_false_iff in Hc. destruct Hc as [Hc _]. apply String.eqb_neq, Hc. }
  destruct (pop_frames_well_formed (search_nonws ln) _ _ F N) as [F1 N1].
  pose proof (pop_frames_nonempty (search_nonws ln) _ Hne) as Hne1.
  destruct (top_leads _ _ Hne1 F1) as (target & Hl & Hobj). rewrite Hl.
  unfold key_value. rewrite Hidx.
  apply Nat.ltb_lt in Hpos. rewrite Hpos.
  destruct (lookahead rest) as [nextIndent nextIsArray].
  rewrite Hblock. cbn [result stack errors indentUnit lastIndent].
  match goal with
  | |- context [assign ?p ?k ?v ?d] =>
      destruct (assign_plain d _ k v Hne1 F1 Hkey) as (d' & Ea)
  end.
  rewrite Ea. cbn [bind]. eexists. split; [reflexivity|]. cbn [result].
  destruct (assign_well_formed _ _ _ _ _ Hd Hne1 F1 N1 Ea) as (_ & _ & Hlook).
  exact Hlook.
Qed.

Lemma key_line_witness :
  exists st',
    parse_line 1 "image: nginx" [] initial = Ok st'
    /\ lookup (f_obj (top (pop_frames (search_nonws "image: nginx") (stack initial)))
               ++ [SKey (trim (take 5 (trim "image: nginx")))])%list
              (result st')
       = Some (let valueStr := trim (drop (5 + 1) (trim "image: nginx")) in
               if String.eqb valueStr "[]" then VArr [] []
               else if String.eqb valueStr "{}" then VObj []
               else parseValue valueStr).
Proof.
  apply (key_line_stores_its_value 1 "image: nginx" [] initial 5).
  - unfold well_formed. cbn [initial result stack]. repeat split.
    + discriminate.
    + constructor; [|constructor]. exists (VObj []). split; reflexivity.
  - reflexivity.
  - reflexivity.
  - reflexivity.
  - lia.
  - reflexivity.
  - reflexivity.
Defined.



(** ** The properties at concrete inputs *)

Lemma tokens_spell_witness :
  all_chars plain_char image_line = true
  /\ spell (tokenizeLine image_line 0) = image_line.
Proof.
  split; [reflexivity|]. apply (tokens_spell_the_line image_line 0). reflexivity.
Defined.

Lemma context_indent_witness :
  (c_indent (mkContext ["services"; "web"; "deploy"] 4)
   < cursor_indent (split newline scenario_D) 4)%Z
  /\ (path (mkContext ["services"; "web"; "deploy"] 4) = []
      <-> c_indent (mkContext ["services"; "web"; "deploy"] 4) = (-1)%Z)
  /\ (Z.of_nat (List.length (path (mkContext ["services"; "web"; "deploy"] 4)))
      <= c_indent (mkContext ["services"; "web"; "deploy"] 4) + 1)%Z.
Proof.
  apply (context_indent_below_cursor (split newline scenario_D) 4).
  vm_compute. reflexivity.
Defined.

Lemma suggestions_kind_witness :
  Forall (fun s => type s
                   = kind_for (slice_0 (line_at (split newline typing_key) (3 - 1)) 6))
         typing_key_suggestions.
Proof.
  apply (suggestions_kind_follows_colon flat_compare typing_key 3 6).
  vm_compute. reflexivity.
Defined.

Lemma validate_near_text_witness :
  Forall (fun d => column d = 1
                   /\ 1 <= line d <= List.length (split newline no_image) + 1)
         [diag 2 (missing_image_message "web") SevError None None].
Proof.
  apply (validate_diagnostics_near_text no_image
           (VObj [("services", VObj [("web", VObj [("restart", VStr "always")])])])).
  vm_compute. reflexivity.
Defined.

Lemma tab_reported_witness :
  filter (fun d => at_line (List.length ["a:"] + 1) d && is_tab d)
         [err 2 1 tab_message]
  = [err (List.length ["a:"] + 1) (0 + 1) tab_message].
Proof.
  apply (tab_reported_once tabbed ["a:"] [] (String tab_char "b: 1") 0
           (mkResult (VObj [("a", VObj [("b", VNum (NInt 1))])]) [err 2 1 tab_message])).
  - reflexivity.
  - reflexivity.
  - reflexivity.
  - vm_compute. reflexivity.
Defined.

Lemma parse_diagnostics_witness :
  Forall (fun d => 1 <= line d <= List.length (split newline bare_word))
         (parse_errors (mkResult (VObj []) [no_severity 1])).
Proof.
  apply (parse_diagnostics_within_text bare_word). vm_compute. reflexivity.
Defined.
